(** * Hand-driven particle morph: gesture extractor, smoother, generator, shader

    A shallow embedding of the numeric core of the repository:

    - [HandController.predictWebcam] (src/components/HandController.tsx),
    - the particle generator and the per-frame smoothing of [ButterflyCurve]
      (src/App.tsx, second document),
    - the vertex shader (structure A, the magic circle, blend and blast
      stages) and the fragment shader of the particle cloud (same file),
    - the group that carries the cloud ([InteractiveButterfly],
      src/components/DroppingParticles.tsx, second document),
    - the number projectiles (src/components/NumberProjectiles.tsx),
    - the life cycle of the dropping particles
      (src/components/DroppingParticles.tsx, first document).

    Floating-point numbers (JS doubles, GLSL floats) are read as ideal real
    numbers: [R] with the Standard Library's [sin], [cos], [sqrt], [atan].
    The one computation whose float value leaves the real one behind, the
    logarithmic spiral of band 4 after some minutes of running, has no
    value in the model from that point on ([MagicCircle.band4]).
    Integers that the code only uses as counters or indices are [Z] or [nat],
    so that the counting parts stay executable. *)

From Stdlib Require Import Reals ZArith List Bool Lia Lra Psatz Machin.
Import ListNotations.

Open Scope R_scope.

(** ** Comparisons on reals as booleans *)

Definition Rltb (x y : R) : bool := if Rlt_dec x y then true else false.
Definition Rleb (x y : R) : bool := if Rle_dec x y then true else false.

(** ** Three-component vectors *)

Record vec3 : Type := Vec3 { vx : R; vy : R; vz : R }.

Definition vadd (a b : vec3) : vec3 :=
  Vec3 (vx a + vx b) (vy a + vy b) (vz a + vz b).

Definition vscale (a : vec3) (k : R) : vec3 :=
  Vec3 (vx a * k) (vy a * k) (vz a * k).

(** ** GLSL built-in functions *)

Module Glsl.

Definition clamp (x lo hi : R) : R := Rmin (Rmax x lo) hi.

(** [mix(a, b, t) = a * (1 - t) + b * t]. *)
Definition mix (a b t : R) : R := a * (1 - t) + b * t.

Definition vmix (a b : vec3) (t : R) : vec3 :=
  Vec3 (mix (vx a) (vx b) t) (mix (vy a) (vy b) t) (mix (vz a) (vz b) t).

(** [smoothstep(edge0, edge1, x)]: Hermite interpolation of the clamped
    ratio. *)
Definition smoothstep (edge0 edge1 x : R) : R :=
  let t := clamp ((x - edge0) / (edge1 - edge0)) 0 1 in
  t * t * (3 - 2 * t).

(** The polynomial part of [smoothstep]. *)
Definition hermite (t : R) : R := t * t * (3 - 2 * t).

Definition floor (x : R) : R := IZR (Int_part x).

Definition fract (x : R) : R := x - floor x.

(** [mod(x, y) = x - y * floor(x / y)]. *)
Definition mod_ (x y : R) : R := x - y * floor (x / y).

End Glsl.

(** ** THREE.MathUtils (the two functions the frame loop calls) *)

Module MathUtils.

(** [lerp(x, y, t) = (1 - t) * x + t * y]. *)
Definition lerp (x y t : R) : R := (1 - t) * x + t * y.

(** [smoothstep(x, min, max)]: 0 at or below [min], 1 at or above [max],
    the Hermite polynomial of the ratio in between. *)
Definition smoothstep (x min max : R) : R :=
  if Rle_dec x min then 0
  else if Rle_dec max x then 1
  else let x' := (x - min) / (max - min) in x' * x' * (3 - 2 * x').

End MathUtils.

(** ** Shared data: src/types (FingerTip, HandState) *)

Record FingerTip : Type := mkFingerTip {
  tipX : R;
  tipY : R;
  dirX : R;
  dirY : R
}.

Record HandState : Type := mkHandState {
  detected : bool;
  hx : R;          (* x: pinch point X *)
  hy : R;          (* y: pinch point Y *)
  palmX : R;
  palmY : R;
  pinch : R;
  rotation : R;
  fingerTips : list FingerTip;
  blast : R
}.

(** The initial contents of [handStateRef] (App component). *)
Definition initialHandState : HandState :=
  mkHandState false 0.5 0.5 0.5 0.5 1.0 0
    [ mkFingerTip 0.5 0.3 0 (-1);
      mkFingerTip 0.5 0.2 0 (-1);
      mkFingerTip 0.5 0.2 0 (-1);
      mkFingerTip 0.5 0.2 0 (-1);
      mkFingerTip 0.5 0.3 0 (-1) ]
    0.

(** ** HandController.predictWebcam *)

Module HandController.

(** One MediaPipe landmark. *)
Record Landmark : Type := mkLandmark { lx : R; ly : R; lz : R }.

Definition origin : Landmark := mkLandmark 0 0 0.

(** [landmarks[i]].  The detector always yields 21 points per hand; the
    default is only there to make the lookup total. *)
Definition at_ (landmarks : list Landmark) (i : nat) : Landmark :=
  nth i landmarks origin.

(** [Math.atan2(y, x)]. *)
Definition atan2 (y x : R) : R :=
  if Rlt_dec 0 x then atan (y / x)
  else if Rlt_dec x 0 then
    (if Rle_dec 0 y then atan (y / x) + PI else atan (y / x) - PI)
  else if Rlt_dec 0 y then PI / 2
  else if Rlt_dec y 0 then - (PI / 2)
  else 0.

Definition fingerTipIndices : list nat := [4; 8; 12; 16; 20]%nat.
Definition fingerMCPIndices : list nat := [2; 5; 9; 13; 17]%nat.

(** Step 3: pinch distance and its normalisation. *)
Definition pinchDist (thumbTip indexTip : Landmark) : R :=
  let pinchDx := lx thumbTip - lx indexTip in
  let pinchDy := ly thumbTip - ly indexTip in
  let pinchDz := lz thumbTip - lz indexTip in
  sqrt (pinchDx * pinchDx + pinchDy * pinchDy + pinchDz * pinchDz).

Definition normalizePinch (dist : R) : R :=
  Rmin (Rmax ((dist - 0.02) / 0.15) 0) 1.

Definition pinchStrength (landmarks : list Landmark) : R :=
  normalizePinch (pinchDist (at_ landmarks 4) (at_ landmarks 8)).

Definition palmCenterX (landmarks : list Landmark) : R :=
  (lx (at_ landmarks 0) + lx (at_ landmarks 1) + lx (at_ landmarks 5)
   + lx (at_ landmarks 9) + lx (at_ landmarks 13) + lx (at_ landmarks 17)) / 6.

Definition palmCenterY (landmarks : list Landmark) : R :=
  (ly (at_ landmarks 0) + ly (at_ landmarks 1) + ly (at_ landmarks 5)
   + ly (at_ landmarks 9) + ly (at_ landmarks 13) + ly (at_ landmarks 17)) / 6.

(** Step 4: roll of the hand. *)
Definition rotationRad (landmarks : list Landmark) : R :=
  let wrist := at_ landmarks 0 in
  let middleMCP := at_ landmarks 9 in
  let vecX := lx middleMCP - lx wrist in
  let vecY := ly middleMCP - ly wrist in
  atan2 vecY vecX + PI / 2.

(** Step 5: one entry of [fingerTipIndices.map(...)]. *)
Definition fingerTipOf (landmarks : list Landmark) (idx : nat) : FingerTip :=
  let tip := at_ landmarks idx in
  let dX := lx tip - palmCenterX landmarks in
  let dY := ly tip - palmCenterY landmarks in
  let len := sqrt (dX * dX + dY * dY) in
  mkFingerTip (1.0 - lx tip) (ly tip)
    (if Rlt_dec 0.001 len then - dX / len else 0)
    (if Rlt_dec 0.001 len then dY / len else 0).

(** Step 6: distance to the wrist in the image plane. *)
Definition distToWrist (p wrist : Landmark) : R :=
  sqrt ((lx p - lx wrist) ^ 2 + (ly p - ly wrist) ^ 2).

(** The body of [for (let i = 1; i < 5; i++)], acting on the pair of
    counters [(fingersExtended, fingersCurled)]. *)
Definition countFinger (landmarks : list Landmark) (acc : nat * nat) (i : nat)
  : nat * nat :=
  let '(fingersExtended, fingersCurled) := acc in
  let tipIdx := nth i fingerTipIndices 0%nat in
  let mcpIdx := nth i fingerMCPIndices 0%nat in
  let tip := at_ landmarks tipIdx in
  let mcp := at_ landmarks mcpIdx in
  let wrist := at_ landmarks 0 in
  let tipDistToWrist := distToWrist tip wrist in
  let mcpDistToWrist := distToWrist mcp wrist in
  if Rlt_dec (mcpDistToWrist * 1.2) tipDistToWrist then
    (S fingersExtended, fingersCurled)
  else if Rlt_dec tipDistToWrist (mcpDistToWrist * 0.9) then
    (fingersExtended, S fingersCurled)
  else (fingersExtended, fingersCurled).

Definition countFingers (landmarks : list Landmark) : nat * nat :=
  fold_left (countFinger landmarks) [1; 2; 3; 4]%nat (0, 0)%nat.

Definition isFist (landmarks : list Landmark) : bool :=
  (3 <=? snd (countFingers landmarks))%nat
  && Rltb (pinchStrength landmarks) 0.3.

Definition blastValue (landmarks : list Landmark) : R :=
  if isFist landmarks then 1.0 else 0.0.

(** The object stored in [handStateRef.current] for a detected hand. *)
Definition extract (landmarks : list Landmark) : HandState :=
  let thumbTip := at_ landmarks 4 in
  let indexTip := at_ landmarks 8 in
  let pinchX := (lx thumbTip + lx indexTip) / 2 in
  let pinchY := (ly thumbTip + ly indexTip) / 2 in
  mkHandState true
    (1.0 - pinchX) pinchY
    (1.0 - palmCenterX landmarks) (palmCenterY landmarks)
    (pinchStrength landmarks)
    (rotationRad landmarks)
    (map (fingerTipOf landmarks) fingerTipIndices)
    (blastValue landmarks).

(** The branch [else]: spread of the old object, [detected] overwritten. *)
Definition lost (cur : HandState) : HandState :=
  mkHandState false (hx cur) (hy cur) (palmX cur) (palmY cur)
    (pinch cur) (rotation cur) (fingerTips cur) (blast cur).

(** One call of [predictWebcam] as a transition on [handStateRef.current].
    [ready] is [videoRef.current && landmarkerRef.current]; [videoWidth] is
    the width of the video element; [results] is [results.landmarks] of the
    detector ([None] when the field is absent), one landmark list per
    detected hand. *)
Definition predictWebcam (ready : bool) (videoWidth : Z)
    (results : option (list (list Landmark))) (cur : HandState) : HandState :=
  if negb ready then cur
  else if (0 <? videoWidth)%Z then
    match results with
    | Some (landmarks :: _) => extract landmarks
    | Some [] | None => lost cur
    end
  else cur.

End HandController.

(** ** A counted loop: [for (let i = 0; i < n; i++) body] *)

Definition for_ {S : Type} (n : nat) (body : nat -> S -> S) (s : S) : S :=
  fold_left (fun acc i => body i acc) (seq 0 n) s.

(** ** The particle generator ([useMemo] of ButterflyCurve) *)

Module Generator.

(** The four loops of the generator, in source order. *)
Inductive Structure : Type := Icosahedron | Rings | Spiral | Floating.

Definition Structure_eq_dec (a b : Structure) : {a = b} + {a <> b}.
Proof. decide equality. Defined.

(** The arrays under construction and the running index [idx].  [made] is
    a ghost array: it records, for every pushed particle, the loop that
    pushed it; the code has no such array. *)
Record Buffers : Type := mkBuffers {
  pts : list vec3;
  prog : list R;
  made : list Structure;
  idx : Z
}.

Definition empty : Buffers := mkBuffers [] [] [] 0%Z.

(** [pts.push(x, y, z); prog.push(idx++ / numPoints);] *)
Definition push (numPoints : Z) (tag : Structure) (p : vec3) (b : Buffers)
  : Buffers :=
  mkBuffers (pts b ++ [p])
            (prog b ++ [IZR (idx b) / IZR numPoints])
            (made b ++ [tag])
            (idx b + 1)%Z.

(** [Math.floor(n * (num / den))] for a non-negative count [n] and a decimal
    literal [num / den], computed on integers. *)
Definition floorMul (n num den : Z) : Z := (n * num / den)%Z.

Definition phi_ico : R := (1 + sqrt 5) / 2.

Definition icoVertices : list vec3 :=
  [ Vec3 (-1) phi_ico 0; Vec3 1 phi_ico 0; Vec3 (-1) (- phi_ico) 0;
    Vec3 1 (- phi_ico) 0;
    Vec3 0 (-1) phi_ico; Vec3 0 1 phi_ico; Vec3 0 (-1) (- phi_ico);
    Vec3 0 1 (- phi_ico);
    Vec3 phi_ico 0 (-1); Vec3 phi_ico 0 1; Vec3 (- phi_ico) 0 (-1);
    Vec3 (- phi_ico) 0 1 ].

Definition icoEdges : list (nat * nat) :=
  [ (0,1); (0,5); (0,7); (0,10); (0,11); (1,5); (1,7); (1,8); (1,9);
    (2,3); (2,4); (2,6); (2,10); (2,11); (3,4); (3,6); (3,8); (3,9);
    (4,5); (4,9); (4,11); (5,9); (5,11); (6,7); (6,8); (6,10); (7,8); (7,10);
    (8,9); (10,11) ]%nat.

Definition zero3 : vec3 := Vec3 0 0 0.

Section WithParams.

(** [numPoints] is the particle count, [scale] is [params.scale], and
    [random i] is the value returned by the [i]-th call of
    [Math.random()]. *)
Variable numPoints : Z.
Variable scale : R.
Variable random : nat -> R.

Definition orbRadius : R := scale * 9.3.

Definition icoPoints : Z := floorMul numPoints 2 10.
Definition pointsPerEdge : Z := (icoPoints / Z.of_nat (length icoEdges))%Z.

Definition icoPoint (e i : nat) : vec3 :=
  let '(v1, v2) := nth e icoEdges (0, 0)%nat in
  let start := nth v1 icoVertices zero3 in
  let end_ := nth v2 icoVertices zero3 in
  let t := INR i / IZR pointsPerEdge in
  Vec3 ((vx start + (vx end_ - vx start) * t) * orbRadius * 0.35)
       ((vy start + (vy end_ - vy start) * t) * orbRadius * 0.35)
       ((vz start + (vz end_ - vz start) * t) * orbRadius * 0.35).

Definition icoLoop (b : Buffers) : Buffers :=
  for_ (length icoEdges) (fun e b =>
    for_ (Z.to_nat pointsPerEdge) (fun i b =>
      push numPoints Icosahedron (icoPoint e i) b) b) b.

Definition ringPoints : Z := floorMul numPoints 3 10.
Definition pointsPerRing : Z := (ringPoints / 3)%Z.

Definition ringPoint (ring i : nat) : vec3 :=
  let theta := (INR i / IZR pointsPerRing) * PI * 2 in
  let r := orbRadius * 0.9 in
  match ring with
  | O => Vec3 (r * cos theta) (r * sin theta) 0
  | S O => Vec3 (r * cos theta) 0 (r * sin theta)
  | _ => Vec3 0 (r * cos theta) (r * sin theta)
  end.

Definition ringLoop (b : Buffers) : Buffers :=
  for_ 3 (fun ring b =>
    for_ (Z.to_nat pointsPerRing) (fun i b =>
      push numPoints Rings (ringPoint ring i) b) b) b.

Definition spiralPoints : Z := floorMul numPoints 3 10.

Definition spiralPoint (i : nat) : vec3 :=
  let t := INR i / IZR spiralPoints in
  let phi := t * PI in
  let theta := t * PI * 12 in
  let r := orbRadius * 0.85 in
  Vec3 (r * sin phi * cos theta) (r * sin phi * sin theta) (r * cos phi).

Definition spiralLoop (b : Buffers) : Buffers :=
  for_ (Z.to_nat spiralPoints) (fun i b =>
    push numPoints Spiral (spiralPoint i) b) b.

Definition goldenRatio : R := (1 + sqrt 5) / 2.

(** [floatPoints = numPoints - idx], read when the third loop is done. *)
Definition floatPoint (floatPoints : Z) (i : nat) : vec3 :=
  let t := INR i / IZR floatPoints in
  let theta := 2 * PI * INR i / goldenRatio in
  let phi := acos (1 - 2 * t) in
  let r := orbRadius * (0.95 + random i * 0.1) in
  Vec3 (r * sin phi * cos theta) (r * sin phi * sin theta) (r * cos phi).

Definition floatLoop (b : Buffers) : Buffers :=
  let floatPoints := (numPoints - idx b)%Z in
  for_ (Z.to_nat floatPoints) (fun i b =>
    push numPoints Floating (floatPoint floatPoints i) b) b.

Definition generate : Buffers :=
  floatLoop (spiralLoop (ringLoop (icoLoop empty))).

End WithParams.

(** The value of [numPoints] in the source. *)
Definition numPoints_src : Z := 40000.

(** How many particles a given loop pushed. *)
Definition countOf (tag : Structure) (b : Buffers) : nat :=
  count_occ Structure_eq_dec (made b) tag.

End Generator.

(** ** The per-frame smoothing ([useFrame] of ButterflyCurve) *)

Module Smoother.

(** The uniforms the frame callback reads back and rewrites. *)
Record Uniforms : Type := mkUniforms {
  uVisible : R;
  uPinch : R;
  uMagic : R;
  uRotation : R;
  uBlast : R
}.

(** The [uniforms] given to [shaderMaterial]. *)
Definition initialUniforms : Uniforms := mkUniforms 0.0 1.0 0.0 0.0 0.0.

(** The five locals computed before the [lerp]s. *)
Record Targets : Type := mkTargets {
  visibleTarget : R;
  pinchValue : R;
  magicValue : R;
  rotationTarget : R;
  blastTarget : R
}.

(** [handStateRef.current.blast || 0]. *)
Definition orZero (x : R) : R := if Req_dec_T x 0 then 0 else x.

(** [hand] is [None] when [handStateRef] or its [current] is missing. *)
Definition targets (hand : option HandState) : Targets :=
  match hand with
  | Some h =>
      if detected h then
        mkTargets 1.0 (pinch h)
                  (MathUtils.smoothstep (pinch h) 0.3 0.8)
                  (rotation h)
                  (orZero (blast h))
      else mkTargets 0.0 1.0 0 0 0
  | None => mkTargets 0.0 1.0 0 0 0
  end.

Definition blastOnsetRate : R := 0.08.
Definition blastDecayRate : R := 0.06.

(** The [if (blastTarget > 0.5) ... else ...] at the end of the callback. *)
Definition stepBlast (blastTarget currentBlast : R) : R :=
  if Rlt_dec 0.5 blastTarget then
    MathUtils.lerp currentBlast 1.0 blastOnsetRate
  else
    MathUtils.lerp currentBlast 0.0 blastDecayRate.

Definition frame (hand : option HandState) (u : Uniforms) : Uniforms :=
  let t := targets hand in
  mkUniforms
    (MathUtils.lerp (uVisible u) (visibleTarget t) 0.1)
    (MathUtils.lerp (uPinch u) (pinchValue t) 0.12)
    (MathUtils.lerp (uMagic u) (magicValue t) 0.08)
    (MathUtils.lerp (uRotation u) (rotationTarget t) 0.1)
    (stepBlast (blastTarget t) (uBlast u)).

(** The uniforms after a sequence of frames, one hand reading per frame. *)
Definition run (hands : list (option HandState)) (u : Uniforms) : Uniforms :=
  fold_left (fun acc h => frame h acc) hands u.

End Smoother.

(** ** The vertex shader: structure A, blend and blast stages *)

Module Shader.

(** [float hash(float n) { return fract(sin(n) * 43758.5453123); }] *)
Definition hash (n : R) : R := Glsl.fract (sin n * 43758.5453123).

(** *** 1. Base orb position *)

(** "Determine structure based on progress". *)
Definition structure (aProgress : R) : R :=
  if Rlt_dec aProgress 0.2 then 0.0       (* Icosahedron *)
  else if Rlt_dec aProgress 0.5 then 1.0  (* Rings *)
  else if Rlt_dec aProgress 0.8 then 2.0  (* Spirals *)
  else 3.0.                               (* Floating particles *)

(** The generator loop that the shader's branch on [structure] stands for,
    by the comments next to the thresholds and to the four branches. *)
Definition structureTag (aProgress : R) : Generator.Structure :=
  let s := structure aProgress in
  if Rlt_dec s 0.5 then Generator.Icosahedron
  else if Rlt_dec s 1.5 then Generator.Rings
  else if Rlt_dec s 2.5 then Generator.Spiral
  else Generator.Floating.

Definition rotated (uTime aProgress : R) (orbPos : vec3) : vec3 :=
  let structure := structure aProgress in
  if Rlt_dec structure 0.5 then
    let rotY := uTime * 0.3 in
    let rotX := uTime * 0.2 in
    let cosY := cos rotY in let sinY := sin rotY in
    let cosX := cos rotX in let sinX := sin rotX in
    Vec3 (vx orbPos * cosY - vz orbPos * sinY)
         (vy orbPos * cosX - (vx orbPos * sinY + vz orbPos * cosY) * sinX)
         (vy orbPos * sinX + (vx orbPos * sinY + vz orbPos * cosY) * cosX)
  else if Rlt_dec structure 1.5 then
    let ringIdx := Glsl.floor ((aProgress - 0.2) / 0.1) in
    let rotSpeed := 0.4 + ringIdx * 0.2 in
    let rotDir := if Rlt_dec (Glsl.mod_ ringIdx 2.0) 1.0 then 1.0 else -1.0 in
    let rot := uTime * rotSpeed * rotDir in
    let c := cos rot in let s := sin rot in
    if Rlt_dec ringIdx 1.0 then
      Vec3 (vx orbPos * c - vy orbPos * s) (vx orbPos * s + vy orbPos * c)
           (vz orbPos)
    else if Rlt_dec ringIdx 2.0 then
      Vec3 (vx orbPos * c - vz orbPos * s) (vy orbPos)
           (vx orbPos * s + vz orbPos * c)
    else
      Vec3 (vx orbPos) (vy orbPos * c - vz orbPos * s)
           (vy orbPos * s + vz orbPos * c)
  else if Rlt_dec structure 2.5 then
    let twist := uTime * 0.5 in
    let c := cos twist in let s := sin twist in
    Vec3 (vx orbPos * c - vz orbPos * s) (vy orbPos)
         (vx orbPos * s + vz orbPos * c)
  else
    let shimmer := sin (uTime * 3.0 + aProgress * 50.0) * 0.05 in
    vscale orbPos (1.0 + shimmer).

(** "Gentle breathing/pulse for all". *)
Definition pulse (uTime : R) : R := 1.0 + sin (uTime * 1.5) * 0.03.

(** "Size reduction based on pinch (shrinks as fingers get closer)". *)
Definition shrinkFactor (uPinch : R) : R := Glsl.smoothstep 0.2 0.7 uPinch.
Definition minSize : R := 0.3.
Definition orbScale (uPinch : R) : R :=
  Glsl.mix minSize 1.0 (shrinkFactor uPinch).

Definition butterflyPos (uTime uPinch aProgress : R) (orbPos : vec3) : vec3 :=
  vscale (vscale (rotated uTime aProgress orbPos) (pulse uTime))
         (orbScale uPinch).

(** *** 3. Smooth transition blend

    [butterflyPos] and [magicPos] are the two positions computed by the
    stages before the blend; the blend reads nothing else of them. *)

Definition easeMagic (uMagic : R) : R := Glsl.smoothstep 0.0 1.0 uMagic.

Definition rotateXY (p : vec3) (rot : R) : vec3 :=
  let c := cos rot in
  let s := sin rot in
  Vec3 (vx p * c - vy p * s) (vx p * s + vy p * c) (vz p).

Definition rotatedButterfly (uMagic : R) (butterflyPos : vec3) : vec3 :=
  let rot := easeMagic uMagic * 3.14 in
  rotateXY butterflyPos rot.

Definition noiseAmp (uMagic : R) : R := sin (uMagic * 3.14159) * 2.5.

Definition noise (aProgress uMagic : R) : vec3 :=
  vscale (Vec3 (hash (aProgress * 10.0) - 0.5)
               (hash (aProgress * 20.0) - 0.5)
               (hash (aProgress * 30.0) - 0.5))
         (noiseAmp uMagic).

Definition blend (aProgress uMagic : R) (butterflyPos magicPos : vec3) : vec3 :=
  let finalPos :=
    Glsl.vmix (rotatedButterfly uMagic butterflyPos) magicPos
              (easeMagic uMagic) in
  vadd finalPos (noise aProgress uMagic).

(** *** 4. Blast effect *)

Definition blastOffset (aProgress uBlast : R) : vec3 :=
  let blastProgress := uBlast in
  let randAngle := hash (aProgress * 777.0) * 6.28318 in
  let randSpeed := 0.8 + hash (aProgress * 333.0) * 2.5 in
  let randUpward := hash (aProgress * 555.0) * 1.2 in
  let scatterDir :=
    Vec3 (cos randAngle * randSpeed * 1.5)
         (sin randAngle * randSpeed * 0.6 + randUpward)
         ((hash (aProgress * 999.0) - 0.5) * randSpeed * 0.8) in
  let blastTime := blastProgress * 2.0 in
  let decel := 1.0 - blastProgress * 0.5 in
  let scatterOffset := vscale scatterDir (blastTime * 12.0 * decel) in
  let gravity := 8.0 in
  let fallDelay := Glsl.smoothstep 0.0 0.3 blastProgress in
  let fallOffset := gravity * blastTime * blastTime * fallDelay in
  let spin := blastTime * (hash (aProgress * 111.0) - 0.5) * 4.0 in
  Vec3 (vx scatterOffset + sin spin * 0.3)
       (vy scatterOffset - fallOffset)
       (vz scatterOffset + cos spin * 0.3).

(** The position after the blast stage and the varying [vBlastAlpha]
    (initialised to 1.0 at the top of [main]).  [pow(x, 3.0)] is the cube. *)
Definition blastStage (aProgress uBlast : R) (finalPos : vec3) : vec3 * R :=
  if Rlt_dec 0.01 uBlast then
    let blastProgress := uBlast in
    let easeBlast := 1.0 - (1.0 - blastProgress) ^ 3 in
    (Glsl.vmix finalPos (vadd finalPos (blastOffset aProgress uBlast)) easeBlast,
     1.0 - Glsl.smoothstep 0.4 1.0 blastProgress)
  else (finalPos, 1.0).

(** The displacement the blast stage adds to a position. *)
Definition blastDisplacement (aProgress uBlast : R) (finalPos : vec3) : vec3 :=
  let p := fst (blastStage aProgress uBlast finalPos) in
  Vec3 (vx p - vx finalPos) (vy p - vy finalPos) (vz p - vz finalPos).

Definition vBlastAlpha (aProgress uBlast : R) (finalPos : vec3) : R :=
  snd (blastStage aProgress uBlast finalPos).

End Shader.

(** ** The vertex shader: structure B, the magic circle (stage 2) *)

Module MagicCircle.

(** What the band logic assigns: the polar coordinates [r], [theta], the
    depth [z], the size multiplier and the two varyings it may overwrite
    ([vIsInnerCircle] starts at 0.0, [vOrbTrail] at 1.0). *)
Record Polar : Type := mkPolar {
  r : R;
  theta : R;
  z : R;
  sizeMult : R;
  vIsInnerCircle : R;
  vOrbTrail : R
}.

(** GLSL [atan(y, x)], [length(vec2(x, y))], [step(edge, x)] and [abs]. *)
Definition atan_yx (y x : R) : R := HandController.atan2 y x.
Definition length2 (x y : R) : R := sqrt (x * x + y * y).
Definition step (edge x : R) : R := if Rlt_dec x edge then 0.0 else 1.0.

(** [int(x)]: truncation toward zero. *)
Definition int_ (x : R) : Z :=
  if Rle_dec 0 x then Int_part x else (- Int_part (- x))%Z.

(** The expression [k / cos(mod(angle + offset, period) - center)] that the
    polygon layers repeat with different literals. *)
Definition roundedPolygon (k angle offset period center : R) : R :=
  k / cos (Glsl.mod_ (angle + offset) period - center).

(** [ringID] and [segmentProgress] ([totalSegments] is 6.0). *)
Definition totalSegments : R := 6.0.
Definition ringID (aProgress : R) : R := Glsl.floor (aProgress * totalSegments).
Definition segmentProgress (aProgress : R) : R :=
  Glsl.fract (aProgress * totalSegments).

(** Ring 1: multi-layered hexagonal core. *)
Definition band0 (segmentProgress t : R) : Polar :=
  let localP := segmentProgress in
  if Rlt_dec localP 0.25 then
    let hexP := localP / 0.25 in
    let baseAngle := hexP * 6.28 in
    let hexShape := roundedPolygon 1.6 baseAngle 0.523 1.047 0.523 in
    let vertexPhase := Glsl.mod_ (baseAngle + 0.523) 1.047 in
    mkPolar hexShape (baseAngle + t * 1.5) 0.0
            (if Rltb vertexPhase 0.15 || Rltb 0.9 vertexPhase then 2.5 else 1.5)
            0.0 1.0
  else if Rlt_dec localP 0.5 then
    let hexP := (localP - 0.25) / 0.25 in
    let baseAngle := hexP * 6.28 in
    let hexShape := roundedPolygon 2.4 baseAngle 0.523 1.047 0.523 in
    let vertexPhase := Glsl.mod_ (baseAngle + 0.523) 1.047 in
    mkPolar hexShape (baseAngle - t * 1.5) 0.0
            (if Rltb vertexPhase 0.15 || Rltb 0.9 vertexPhase then 2.2 else 1.3)
            0.0 1.0
  else if Rlt_dec localP 0.7 then
    let circP := (localP - 0.5) / 0.2 in
    let circAngle := circP * 6.28 + t * 0.5 in
    let tickPhase := Glsl.mod_ (circAngle * 1.909) 1.0 in
    if Rlt_dec tickPhase 0.08 then mkPolar 3.3 circAngle 0.0 1.4 0.0 1.0
    else mkPolar 3.0 circAngle 0.0 1.0 0.0 1.0
  else
    let hexP := (localP - 0.7) / 0.3 in
    let baseAngle := hexP * 6.28 in
    let hexShape := roundedPolygon 3.6 baseAngle 0.523 1.047 0.523 in
    mkPolar hexShape (baseAngle + t * 1.2) 0.0 1.0 0.0 1.0.

(** Ring 2: flower of life. *)
Definition band1 (segmentProgress t : R) : Polar :=
  let localP := segmentProgress in
  if Rlt_dec localP 0.5 then
    let flowerP := localP / 0.5 in
    let numPetals := 6.0 in
    let petalIdx := Glsl.floor (flowerP * numPetals) in
    let petalProgress := Glsl.fract (flowerP * numPetals) in
    let petalAngle := (petalIdx / numPetals) * 6.28 - t * 0.35 in
    let petalR := 1.8 in
    let circleR := 1.8 in
    let localAngle := petalProgress * 6.28 in
    let px := cos petalAngle * petalR + cos localAngle * circleR in
    let py := sin petalAngle * petalR + sin localAngle * circleR in
    mkPolar (length2 px py) (atan_yx py px) 0.0 0.5 0.0 1.0
  else if Rlt_dec localP 0.75 then
    let secP := (localP - 0.5) / 0.25 in
    let numSmall := 12.0 in
    let smallIdx := Glsl.floor (secP * numSmall) in
    let smallProgress := Glsl.fract (secP * numSmall) in
    let smallAngle := (smallIdx / numSmall) * 6.28 + t * 0.5 in
    let smallR := 3.8 in
    let circR := 0.6 in
    let localAngle := smallProgress * 6.28 in
    let px := cos smallAngle * smallR + cos localAngle * circR in
    let py := sin smallAngle * smallR + sin localAngle * circR in
    mkPolar (length2 px py) (atan_yx py px) 0.0 0.4 0.0 1.0
  else
    let lineP := (localP - 0.75) / 0.25 in
    let numLines := 12.0 in
    let lineIdx := Glsl.floor (lineP * numLines) in
    let lineProgress := Glsl.fract (lineP * numLines) in
    let lineAngle := (lineIdx / numLines) * 6.28 - t * 0.25 in
    mkPolar (1.5 + lineProgress * 2.8) lineAngle 0.0 0.3 0.0 1.0.

(** Ring 3: interlocking shapes. *)
Definition band2 (segmentProgress t : R) : Polar :=
  let localP := segmentProgress in
  if Rlt_dec localP 0.3 then
    let sqP := localP / 0.3 in
    let sqAngle := sqP * 6.28 in
    let sq1Angle := sqAngle + t * 0.35 in
    let sq2Angle := sqAngle - t * 0.35 + 0.7854 in
    let r1 := roundedPolygon 5.2 sq1Angle 0.7854 1.5708 0.7854 in
    let r2 := roundedPolygon 5.2 sq2Angle 0.7854 1.5708 0.7854 in
    let whichSq := step 0.5 (Glsl.fract (sqP * 2.0)) in
    mkPolar (Glsl.mix r1 r2 whichSq) (Glsl.mix sq1Angle sq2Angle whichSq)
            0.0 0.6 0.0 1.0
  else if Rlt_dec localP 0.5 then
    let starP := (localP - 0.3) / 0.2 in
    let starAngle := starP * 6.28 - t * 0.55 in
    let tri1R := roundedPolygon 4.2 starAngle 0.523 2.094 1.047 in
    let tri2R := roundedPolygon 4.2 (starAngle + 0.523) 1.047 2.094 1.047 in
    let whichTri := step 0.5 (Glsl.fract (starP * 2.0)) in
    mkPolar (Glsl.mix tri1R tri2R whichTri) starAngle 0.0 0.55 0.0 1.0
  else if Rlt_dec localP 0.75 then
    let spiroP := (localP - 0.5) / 0.25 in
    let bigR := 5.8 in
    let smallR := 1.2 in
    let ratio := 7.0 in
    let spiroAngle := spiroP * 6.28 * 3.0 + t * 0.6 in
    let x := (bigR - smallR) * cos spiroAngle + smallR * cos (spiroAngle * ratio) in
    let y := (bigR - smallR) * sin spiroAngle + smallR * sin (spiroAngle * ratio) in
    mkPolar (length2 x y * 0.75) (atan_yx y x) 0.0 0.5 0.0 1.0
  else
    let waveP := (localP - 0.75) / 0.25 in
    let waveAngle := waveP * 6.28 + t * 0.15 in
    let waves := 16.0 in
    let toothPhase := Glsl.fract (waveAngle * waves / 6.28 + t * 0.3) in
    let pointed := Rabs (toothPhase - 0.5) * 2.0 in
    mkPolar (5.8 + pointed * 0.6) waveAngle 0.0 (0.5 + pointed * 0.4) 0.0 1.0.

Definition piDigits : list R :=
  [3.0; 1.0; 4.0; 1.0; 5.0; 9.0; 2.0; 6.0; 5.0; 3.0].

(** Ring 4: dodecagon, triangular grid, gapped arcs, digits of pi, inner
    mandala. *)
Definition band3 (segmentProgress t : R) : Polar :=
  if Rlt_dec segmentProgress 0.25 then
    let localP := segmentProgress / 0.25 in
    let dodAngle := localP * 6.28 + t * 0.15 in
    let dodR := roundedPolygon 8.0 dodAngle 0.2618 0.5236 0.2618 in
    let degMark := Glsl.mod_ (dodAngle * 57.2958) 15.0 in
    let deg := Rltb degMark 1.5 || Rltb 13.5 degMark in
    let r1 := if deg then dodR + 0.35 else dodR in
    let s1 := if deg then 1.5 else 1.0 in
    let majorMark := Glsl.mod_ (dodAngle * 57.2958) 45.0 in
    let major := Rltb majorMark 2.0 || Rltb 43.0 majorMark in
    let r2 := if major then r1 + 0.2 else r1 in
    let s2 := if major then 2.0 else s1 in
    mkPolar r2 dodAngle 0.0 s2 0.0 1.0
  else if Rlt_dec segmentProgress 0.45 then
    let localP := (segmentProgress - 0.25) / 0.2 in
    let numTris := 6.0 in
    let triIdx := Glsl.floor (localP * numTris) in
    let triProgress := Glsl.fract (localP * numTris) in
    let triBaseAngle := (triIdx / numTris) * 6.28 + t * 0.75 in
    let triR := 1.6 in
    let triSize := 0.7 in
    let triVertexAngle := triProgress * 6.28 in
    let triVertexR := roundedPolygon triSize triVertexAngle 0.523 2.094 1.047 in
    let px := cos triBaseAngle * triR
              + cos (triVertexAngle + triBaseAngle) * triVertexR in
    let py := sin triBaseAngle * triR
              + sin (triVertexAngle + triBaseAngle) * triVertexR in
    mkPolar (length2 px py) (atan_yx py px) 0.0 0.5 1.0 1.0
  else if Rlt_dec segmentProgress 0.65 then
    let localP := (segmentProgress - 0.45) / 0.2 in
    let arcAngle := localP * 6.28 - t * 0.4 in
    let arcIdx := Glsl.floor (localP * 8.0) in
    let arcProgress := Glsl.fract (localP * 8.0) in
    if Rltb 0.15 arcProgress && Rltb arcProgress 0.85 then
      mkPolar (6.8 - Glsl.mod_ arcIdx 3.0 * 0.4) arcAngle 0.0 0.6 0.0 1.0
    else
      mkPolar 0.001 0.0 0.0 1.0 0.0 1.0
  else if Rlt_dec segmentProgress 0.8 then
    let localP := (segmentProgress - 0.65) / 0.15 in
    let piAngle := localP * 6.28 + t * 0.35 in
    let digitIdx := Glsl.floor (localP * 20.0) in
    let idx := int_ (Glsl.mod_ digitIdx 10.0) in
    let digit := nth (Z.to_nat idx) piDigits 0 in
    mkPolar (7.0 + digit * 0.08) piAngle 0.0 (0.4 + digit * 0.1) 0.0 1.0
  else
    let localP := (segmentProgress - 0.8) / 0.2 in
    let mandalaAngle := localP * 6.28 * 2.0 - t * 0.6 in
    let mandalaR := 4.5 + 0.8 * sin (mandalaAngle * 8.0) in
    let mandalaR' := mandalaR + 0.3 * sin (mandalaAngle * 16.0 + t) in
    mkPolar mandalaR' (localP * 6.28) 0.0 0.65 0.0 1.0.

(** The shader computes in 32-bit floats, whose significand has 24 bits:
    [float32Whole] = 2^24 is the magnitude from which on a float no longer
    tells neighbouring whole numbers apart. *)
Definition float32Whole : R := 16777216.

(** Ring 5: Fibonacci, logarithmic and Fermat spirals.

    The logarithmic spiral is the one place of the shader where the reading
    of floats as real numbers stops to apply.  [logR] grows like
    [exp (0.045 * t)] with the elapsed time, which is never reset, and the
    radius is taken from [mod(logR, 5.0)].  Once [logR] has reached
    [float32Whole] the float that holds it no longer resolves the steps
    [mod] looks at, so the shader's radius is not the real one (it leaves
    the range of the band), and later [exp] overflows and the radius is not
    a number.  From there on the band gives no value ([None]); below it the
    real reading is followed up to the spacing of the floats near [logR]. *)
Definition band4 (aProgress segmentProgress t uMagic : R) : option Polar :=
  let localP := segmentProgress in
  if Rlt_dec localP 0.6 then
    let fibP := localP / 0.6 in
    let fibIdx := fibP * 144.0 in
    let goldenAngle := 2.39996322 in
    let r0 := sqrt fibIdx * 0.55 + 2.0 in
    Some (mkPolar (r0 + 0.15 * sin (fibIdx * 0.3 + t * 3.0))
                  (fibIdx * goldenAngle + t * 0.15)
                  (sin (fibIdx * 0.2 + t) * 2.0 * uMagic)
                  (0.6 + 0.3 * sin (fibIdx * 0.4))
                  0.0 1.0)
  else if Rlt_dec localP 0.8 then
    let spiralP := (localP - 0.6) / 0.2 in
    let spiralAngle := spiralP * 6.28 * 2.0 + t * 0.3 in
    let a := 0.5 in
    let b := 0.15 in
    let logR := a * exp (b * spiralAngle) in
    if Rlt_dec logR float32Whole then
      Some (mkPolar (2.0 + Glsl.mod_ logR 5.0) spiralAngle
                    ((Shader.hash (aProgress * 1.5) - 0.5) * 3.0 * uMagic)
                    0.7 0.0 1.0)
    else None
  else
    let fermatP := (localP - 0.8) / 0.2 in
    let fermatIdx := fermatP * 50.0 in
    let fermatAngle := sqrt fermatIdx * 2.5 - t * 0.5 in
    let r0 := sqrt fermatIdx * 0.9 + 3.0 in
    Some (mkPolar (Glsl.mod_ (r0 - 3.0) 4.5 + 3.0) fermatAngle
                  (cos (fermatIdx * 0.3) * 1.5 * uMagic)
                  0.55 0.0 1.0).

(** Ring 6: seven orbs with their trails. *)
Definition band5 (segmentProgress t uRotation : R) : Polar :=
  let numOrbs := 7.0 in
  let orbIdx := Glsl.floor (segmentProgress * numOrbs) in
  let orbProgress := Glsl.fract (segmentProgress * numOrbs) in
  let orbitR := 10.0 in
  let baseAngle := (orbIdx / numOrbs) * 6.28318 in
  let orbInertia := 0.5 + Shader.hash (orbIdx * 3.33) * 0.5 in
  let rotationDir := if Rlt_dec (Glsl.mod_ orbIdx 2.0) 1.0 then 1.0 else -1.0 in
  let palmInfluence := uRotation * 2.0 in
  let timeRotation := t * 0.35 * rotationDir in
  let orbLag := sin (orbIdx * 1.5 + t * 0.5) * 0.8 * rotationDir in
  let wobble := sin (t * 2.0 + orbIdx * 2.0) * 0.15 in
  let dynamicAngle :=
    baseAngle + timeRotation + palmInfluence * orbInertia * rotationDir
    + orbLag + wobble in
  let rotationSpeed := Rabs (sin (t * 0.5 + palmInfluence * 0.3)) in
  let dynamicR := orbitR + rotationSpeed * 0.8 + sin (t * 1.5 + orbIdx) * 0.5 in
  let trailLength := 0.85 in
  let isTrail := step orbProgress trailLength in
  let trailPos := orbProgress / trailLength in
  let orbBodyPos := (orbProgress - trailLength) / (1.0 - trailLength) in
  let orbTrail := Glsl.mix trailPos 1.0 (1.0 - isTrail) in
  let trailArcLength := 1.2 + rotationSpeed * 0.5 in
  let trailAngleOffset :=
    Glsl.mix ((1.0 - trailPos) * trailArcLength) 0.0 (1.0 - isTrail)
    * rotationDir in
  let orbAngle := dynamicAngle - trailAngleOffset in
  let trailWidth := Glsl.mix (0.25 * trailPos * trailPos) 0.0 (1.0 - isTrail) in
  let ribbonOffset :=
    (Shader.hash (orbProgress * 13.0 + orbIdx) - 0.5) * 2.0 * trailWidth in
  let currentR := dynamicR + ribbonOffset in
  let orbSize := 0.6 in
  let orbOffset :=
    if Rlt_dec isTrail 0.5 then
      let phi := orbBodyPos * 6.28318 * 3.0 in
      let randSeed := orbBodyPos * 7.0 + orbIdx in
      let cosTheta2 := 1.0 - 2.0 * Shader.hash randSeed in
      let sinTheta2 := sqrt (1.0 - cosTheta2 * cosTheta2) in
      Vec3 (orbSize * sinTheta2 * cos phi) (orbSize * sinTheta2 * sin phi)
           (orbSize * cosTheta2)
    else Vec3 0.0 0.0 0.0 in
  let orbCenter :=
    Vec3 (currentR * cos orbAngle) (currentR * sin orbAngle)
         (if Rlt_dec isTrail 0.5 then
            sin (t * 2.0 + orbIdx * 1.2) * 0.6 + cos (palmInfluence + orbIdx) * 0.3
          else 0.0) in
  let finalOrbPos := vadd orbCenter orbOffset in
  let pulseSize := 1.0 + sin (t * 8.0 + orbIdx * 0.5) * 0.1 in
  mkPolar (length2 (vx finalOrbPos) (vy finalOrbPos))
          (atan_yx (vy finalOrbPos) (vx finalOrbPos))
          (vz finalOrbPos)
          (Glsl.mix (0.8 + orbTrail * 0.4) (1.3 * pulseSize) (1.0 - isTrail))
          0.0 orbTrail.

(** The band dispatch on [ringID] and the Cartesian position; no value
    where band 4 gives none. *)
Definition polar (aProgress t uMagic uRotation : R) : option Polar :=
  let ringID := ringID aProgress in
  let segmentProgress := segmentProgress aProgress in
  if Req_dec_T ringID 0.0 then Some (band0 segmentProgress t)
  else if Req_dec_T ringID 1.0 then Some (band1 segmentProgress t)
  else if Req_dec_T ringID 2.0 then Some (band2 segmentProgress t)
  else if Req_dec_T ringID 3.0 then Some (band3 segmentProgress t)
  else if Req_dec_T ringID 4.0 then band4 aProgress segmentProgress t uMagic
  else Some (band5 segmentProgress t uRotation).

Definition magicPos (aProgress t uMagic uRotation : R) : option vec3 :=
  match polar aProgress t uMagic uRotation with
  | Some p => Some (Vec3 (r p * cos (theta p)) (r p * sin (theta p)) (z p))
  | None => None
  end.

(** Size attenuation and the degenerate-radius guard at the end of [main].
    [mvZ] is [mvPosition.z], the depth of the vertex in view space. *)
Definition pointSize (uSize mvZ aProgress t uMagic uRotation : R)
  : option R :=
  match polar aProgress t uMagic uRotation with
  | Some p =>
      let size0 := uSize * (40.0 / - mvZ) in
      let size1 :=
        size0 * Glsl.mix 1.0 (sizeMult p) (Shader.easeMagic uMagic) in
      Some (if Rltb (r p) 0.1 && Rltb 0.0 (ringID aProgress) then 0.0
            else size1)
  | None => None
  end.

End MagicCircle.

(** ** The vertex shader as a whole: position and blast alpha *)

Module Vertex.

Record Uniforms : Type := mkUniforms {
  uTime : R;
  uMagic : R;
  uPinch : R;
  uRotation : R;
  uBlast : R
}.

(** [finalPos] before the model-view transform, from the attributes
    [position] and [aProgress]; no value where the magic circle has none. *)
Definition finalPos (u : Uniforms) (position : vec3) (aProgress : R)
  : option vec3 :=
  let butterflyPos :=
    Shader.butterflyPos (uTime u) (uPinch u) aProgress position in
  match MagicCircle.magicPos aProgress (uTime u) (uMagic u) (uRotation u) with
  | Some magicPos =>
      let blended := Shader.blend aProgress (uMagic u) butterflyPos magicPos in
      Some (fst (Shader.blastStage aProgress (uBlast u) blended))
  | None => None
  end.

End Vertex.

(** ** The fragment shader of the particle cloud *)

Module Fragment.

Record Varyings : Type := mkVaryings {
  vProgress : R;
  vMagic : R;
  vVisible : R;
  vRingID : R;
  vIsInnerCircle : R;
  vOrbTrail : R;
  vBlastAlpha : R
}.

Definition white : vec3 := Vec3 1.0 1.0 1.0.

(** The palette: later assignments overwrite earlier ones. *)
Definition magicColor (v : Varyings) : vec3 :=
  let c0 := Vec3 0.0 1.0 1.0 in
  let c1 := if Req_dec_T (vRingID v) 4.0 then Vec3 0.6 0.2 1.0 else c0 in
  let c2 := if Req_dec_T (vRingID v) 5.0 then Vec3 0.8 0.0 1.0 else c1 in
  let c3 := if Req_dec_T (vRingID v) 0.0 then Vec3 0.0 1.0 0.9 else c2 in
  let c4 := if Req_dec_T (vRingID v) 2.0 then Vec3 0.5 0.0 1.0 else c3 in
  if Rlt_dec 0.5 (vIsInnerCircle v) then Vec3 0.7 0.9 1.0 else c4.

(** "Standard Alpha": the head that runs along the progress axis. *)
Definition trailIntensity (uTime vProgress : R) : R :=
  let speed := 0.2 in
  let headPos := Glsl.fract (uTime * speed) in
  let d0 := vProgress - headPos in
  let d := if Rlt_dec 0.0 d0 then d0 - 1.0 else d0 in
  if Rltb (-0.02) d && Rleb d 0.0 then 1.0
  else Glsl.smoothstep (-0.65) 0.0 d.

(** [main]: [None] is [discard]; otherwise the color and the alpha of
    [gl_FragColor].  [(pcx, pcy)] is [gl_PointCoord]; [pow(glow, 3.0)] is
    the cube. *)
Definition main (uColor : vec3) (uTime uBlast : R) (v : Varyings)
    (pcx pcy : R) : option (vec3 * R) :=
  let dist := MagicCircle.length2 (pcx - 0.5) (pcy - 0.5) in
  if Rlt_dec 0.5 dist then None
  else
    let glow := (1.0 - dist * 2.0) ^ 3 in
    let baseColor := uColor in
    let rgb1 := Glsl.vmix baseColor (magicColor v) (vMagic v) in
    let rgb2 := Glsl.vmix rgb1 white (glow * 0.5 * vMagic v) in
    let flash := sin (vMagic v * 3.14159) in
    let rgb3 := vadd rgb2 (vscale (vscale (Vec3 0.2 0.0 0.4) flash) 0.5) in
    let butterflyAlpha :=
      (0.1 + trailIntensity uTime (vProgress v) * 0.9) * glow in
    let magicAlpha0 := glow in
    let magicAlpha1 :=
      if Req_dec_T (vRingID v) 4.0
      then magicAlpha0 * (0.5 + 0.5 * sin (uTime * 10.0 + vProgress v * 100.0))
      else magicAlpha0 in
    let magicAlpha2 :=
      if Req_dec_T (vRingID v) 5.0
      then magicAlpha1 * Glsl.smoothstep 0.0 1.0 (vOrbTrail v)
      else magicAlpha1 in
    let rgb4 :=
      if Req_dec_T (vRingID v) 5.0
      then Glsl.vmix (Vec3 0.4 0.0 0.8) (Vec3 0.9 0.3 1.0) (vOrbTrail v)
      else rgb3 in
    let alpha0 := Glsl.mix butterflyAlpha magicAlpha2 (vMagic v) in
    let alpha1 := alpha0 * vVisible v in
    let alpha2 := alpha1 * vBlastAlpha v in
    let rgb5 :=
      if Rltb 0.01 uBlast && Rltb 0.5 (vBlastAlpha v)
      then Glsl.vmix rgb4 (Vec3 1.0 0.8 1.0) (uBlast * 0.3)
      else rgb4 in
    Some (rgb5, alpha2).

End Fragment.

(** ** Scene: the group that carries the particle cloud
       (InteractiveButterfly, in the file of the Scene component) *)

(** The perspective camera, as far as the frame callbacks read it. *)
Record Camera : Type := mkCamera {
  camZ : R;       (* camera.position.z *)
  fov : R;        (* camera.fov, in degrees *)
  aspect : R      (* camera.aspect *)
}.

(** The camera of the [Canvas]: position (0, 0, 50), fov 60. *)
Definition sceneCamera (aspect : R) : Camera := mkCamera 50 60 aspect.

(** Height and width of the visible area in the plane z = 0. *)
Definition frustumHeight (cam : Camera) : R :=
  let distance := camZ cam in
  let vFOV := (fov cam * PI) / 180 in
  2 * tan (vFOV / 2) * distance.

Definition frustumWidth (cam : Camera) : R :=
  frustumHeight cam * aspect cam.

Module Scene.

(** Position, rotation and uniform scale of the group; [currentScale] is
    the ref of the same name, which the group's scale always equals. *)
Record Group : Type := mkGroup {
  posX : R; posY : R; posZ : R;
  rotX : R; rotY : R; rotZ : R;
  currentScale : R
}.

Definition initialGroup : Group := mkGroup 0 0 0 0 0 0 1.0.

(** The frame callback, for a mounted group. *)
Definition frame (cam : Camera) (delta : R) (hand : HandState) (g : Group)
  : Group :=
  if detected hand then
    let height := frustumHeight cam in
    let width := frustumWidth cam in
    let magicMode := MathUtils.smoothstep (pinch hand) 0.3 0.8 in
    let targetX := MathUtils.lerp (hx hand) (palmX hand) magicMode in
    let targetY := MathUtils.lerp (hy hand) (palmY hand) magicMode in
    let worldX := (targetX - 0.5) * width in
    let worldY := - (targetY - 0.5) * height in
    let scaleVal := 0.8 + pinch hand * 1.5 in
    mkGroup worldX worldY 0
            0 0 (rotation hand)
            (MathUtils.lerp (currentScale g) scaleVal 0.3)
  else
    mkGroup (MathUtils.lerp (posX g) 0 (delta * 3))
            (MathUtils.lerp (posY g) 0 (delta * 3))
            (MathUtils.lerp (posZ g) 0 (delta * 3))
            (MathUtils.lerp (rotX g) 0 (delta * 2))
            (MathUtils.lerp (rotY g) 0 (delta * 2))
            (MathUtils.lerp (rotZ g) 0 (delta * 2))
            (MathUtils.lerp (currentScale g) 1.0 (delta * 2)).

End Scene.

(** ** NumberProjectiles: digits shot from the fingertips *)

Module NumberProjectiles.

Record Projectile : Type := mkProjectile {
  id : Z;
  number : R;
  fingerIndex : nat;
  startTime : R;
  startX : R;
  startY : R;
  pDirX : R;      (* dirX *)
  pDirY : R;      (* dirY *)
  speed : R;
  angle : R;
  scale : R
}.

(** The React state [projectiles], the refs [nextIdRef] and
    [lastSpawnTimeRef], and the number of calls of [Math.random()] made so
    far ([random n] is the value of call number [n]). *)
Record State : Type := mkState {
  projectiles : list Projectile;
  nextId : Z;
  lastSpawnTime : list R;
  randCalls : nat
}.

Definition initialState : State := mkState [] 0 [0; 0; 0; 0; 0] 0.

(** [a[i] = v] for an index inside the array. *)
Fixpoint setNth (i : nat) (v : R) (a : list R) : list R :=
  match a, i with
  | [], _ => []
  | _ :: rest, O => v :: rest
  | x :: rest, S j => x :: setNth j v rest
  end.

Section Spawn.

Variable random : nat -> R.

(** One call of the [forEach] callback.  Reading [lastSpawnTimeRef] past
    its end gives [undefined], the comparison with it is false and nothing
    is spawned. *)
Definition spawnFor (time spawnInterval worldCenterX worldCenterY pinch : R)
    (acc : State) (entry : nat * FingerTip) : State :=
  let '(fingerIndex, tip) := entry in
  match nth_error (lastSpawnTime acc) fingerIndex with
  | None => acc
  | Some last =>
      if Rlt_dec spawnInterval (time - last) then
        let calls := randCalls acc in
        if Rlt_dec 0.4 (random calls) then
          let outerRadius := 10.5 * (0.8 + pinch * 1.5) in
          let dirAngle := HandController.atan2 (dirY tip) (dirX tip) in
          let spreadAngle := (random (calls + 1) - 0.5) * 0.6 in
          let finalAngle := dirAngle + spreadAngle in
          let spawnX := worldCenterX + cos finalAngle * outerRadius in
          let spawnY := worldCenterY + sin finalAngle * outerRadius in
          let p :=
            mkProjectile (nextId acc)
                         (Glsl.floor (random (calls + 2) * 10))
                         fingerIndex time spawnX spawnY
                         (cos finalAngle) (sin finalAngle)
                         (15 + random (calls + 3) * 10)
                         finalAngle
                         (0.8 + random (calls + 4) * 0.6) in
          mkState (projectiles acc ++ [p]) (nextId acc + 1)
                  (setNth fingerIndex time (lastSpawnTime acc))
                  (calls + 5)
        else
          mkState (projectiles acc) (nextId acc) (lastSpawnTime acc)
                  (calls + 1)
      else acc
  end.

(** The frame callback of the component.  In the accumulator of the loop
    the field [projectiles] holds [newProjectiles]. *)
Definition frame (cam : Camera) (time : R) (hand : HandState) (st : State)
  : State :=
  if negb (detected hand) then st
  else
    let magicMode := MathUtils.smoothstep (pinch hand) 0.3 0.8 in
    if Rlt_dec magicMode 0.5 then st
    else
      let height := frustumHeight cam in
      let width := frustumWidth cam in
      let targetX := MathUtils.lerp (hx hand) (palmX hand) magicMode in
      let targetY := MathUtils.lerp (hy hand) (palmY hand) magicMode in
      let worldCenterX := (targetX - 0.5) * width in
      let worldCenterY := - (targetY - 0.5) * height in
      let spawnInterval := 0.15 + random (randCalls st) * 0.1 in
      let tips := fingerTips hand in
      let acc :=
        fold_left
          (spawnFor time spawnInterval worldCenterX worldCenterY (pinch hand))
          (combine (seq 0 (length tips)) tips)
          (mkState [] (nextId st) (lastSpawnTime st) (randCalls st + 1)) in
      let newProjectiles := projectiles acc in
      let appended :=
        match newProjectiles with
        | [] => projectiles st
        | _ :: _ => projectiles st ++ newProjectiles
        end in
      mkState (filter (fun p => Rltb (time - startTime p) 2.0) appended)
              (nextId acc) (lastSpawnTime acc) (randCalls acc).

(** The component over a sequence of frames, each with its clock time and
    the hand state it reads. *)
Definition run (cam : Camera) (frames : list (R * HandState)) (st : State)
  : State :=
  fold_left (fun s f => frame cam (fst f) (snd f) s) frames st.

End Spawn.

(** What [ProjectileNumber] writes to its text mesh in one frame: position,
    scale and opacity; [None] when the callback returns before writing
    (the projectile has used up its lifetime). *)
Record Drawn : Type := mkDrawn {
  drawX : R; drawY : R; drawZ : R;
  drawScale : R;
  drawOpacity : R
}.

Definition draw (now : R) (projectile : Projectile) : option Drawn :=
  let elapsed := now - startTime projectile in
  let lifetime := 2.0 in
  let progress := elapsed / lifetime in
  if Rle_dec 1 progress then None
  else
    let distance := elapsed * speed projectile in
    let x := startX projectile + pDirX projectile * distance in
    let y := startY projectile + pDirY projectile * distance in
    let z := sin (elapsed * 3) * 2 in
    let fadeOut := 1 - progress in
    let scale_ := scale projectile * (1 + progress * 0.5) * fadeOut in
    Some (mkDrawn x y z scale_ (fadeOut * 0.9)).

End NumberProjectiles.

(** ** DroppingParticles: particles that fall from the butterfly curve

    src/components/DroppingParticles.tsx, first document.  The typed arrays
    [particleData] (x, y, z, life), [positions], [opacities] and [randoms]
    hold one entry per particle; here each particle is a record with the
    entries of its index.  [params.c] is a whole number (5.0 in [App]), and
    [Math.pow] with a whole exponent is the repeated product. *)

Record ButterflyParams : Type := mkButterflyParams {
  iter : R;
  bfA : R;         (* a *)
  bfB : R;         (* b *)
  bfC : nat;       (* c *)
  bfScale : R      (* scale *)
}.

Module DroppingParticles.

Definition count : nat := 1200.

Record Particle : Type := mkParticle {
  dataX : R;       (* particleData[i*4] *)
  dataY : R;       (* particleData[i*4 + 1] *)
  dataZ : R;       (* particleData[i*4 + 2] *)
  life : R;        (* particleData[i*4 + 3] *)
  posX : R;        (* positions[i*3] *)
  posY : R;        (* positions[i*3 + 1] *)
  posZ : R;        (* positions[i*3 + 2] *)
  opacity : R;     (* opacities[i] *)
  rnd : R          (* randoms[i] *)
}.

Definition tilt : R := - PI / 6.
Definition cosTilt : R := cos tilt.
Definition sinTilt : R := sin tilt.

Section WithRandom.

Variable random : nat -> R.

(** The two [useMemo] blocks: the first draws the negative lives, the
    second the per-particle random numbers; the typed arrays start at 0. *)
Definition initialParticle (n i : nat) : Particle :=
  mkParticle 0 0 0 (- random i * 5.0) 0 0 0 0 (random (n + i)).

Definition initial (n : nat) : list Particle * nat :=
  (map (initialParticle n) (seq 0 n), (n + n)%nat).

Variable params : ButterflyParams.

(** The body of the loop over the particles for one index; [calls] counts
    the calls of [Math.random()] made so far. *)
Definition stepParticle (elapsedTime dt : R) (calls : nat) (p : Particle)
  : Particle * nat :=
  if Rlt_dec 0 (life p) then
    let life' := life p - dt * 0.5 in
    let y' := dataY p - dt * 2.0 in
    let drift := sin (elapsedTime * 1.5 + rnd p * 10.0) * 0.3 in
    let x' := dataX p + drift * dt in
    (mkParticle x' y' (dataZ p) life' x' y' (dataZ p) life' (rnd p), calls)
  else if Rlt_dec (life p) 0 then
    (mkParticle (dataX p) (dataY p) (dataZ p) (life p + dt)
                (posX p) (posY p) (posZ p) (opacity p) (rnd p), calls)
  else
    let t := random calls * iter params * PI in
    let r := bfA params * exp (sin t) - bfB params * cos (4 * t)
             + sin ((2 * t - PI) / 24) ^ bfC params in
    let x := r * cos t * bfScale params in
    let yRaw := r * sin t * bfScale params in
    let zRaw := (random (calls + 1) - 0.5) * 0.5 in
    let y := yRaw * cosTilt - zRaw * sinTilt in
    let z := yRaw * sinTilt + zRaw * cosTilt in
    (mkParticle x y z 1.0 x y z 1.0 (rnd p), (calls + 2)%nat).

(** The frame callback: [delta] and [state.clock.elapsedTime] come from the
    renderer. *)
Definition frame (delta elapsedTime : R) (st : list Particle * nat)
  : list Particle * nat :=
  let dt := Rmin delta 0.1 in
  fold_left
    (fun acc p =>
       let '(p', calls') := stepParticle elapsedTime dt (snd acc) p in
       (fst acc ++ [p'], calls'))
    (fst st) ([], snd st).

(** The component over a sequence of frames, each with its [delta] and its
    elapsed time. *)
Definition run (frames : list (R * R)) (st : list Particle * nat)
  : list Particle * nat :=
  fold_left (fun s f => frame (fst f) (snd f) s) frames st.

End WithRandom.

End DroppingParticles.

(** ** Vocabulary of the specification and sample inputs *)

(** The four non-thumb fingers, each as (fingertip, finger base) landmark
    indices: index, middle, ring, pinky. *)
Definition nonThumbFingers : list (nat * nat) :=
  [ (8, 5); (12, 9); (16, 13); (20, 17) ]%nat.

(** The distance of two landmarks as seen in the image: x and y only, the
    depth z of the landmarks does not enter. *)
Definition planeDist (a b : HandController.Landmark) : R :=
  sqrt ((HandController.lx a - HandController.lx b)
        * (HandController.lx a - HandController.lx b)
        + (HandController.ly a - HandController.ly b)
          * (HandController.ly a - HandController.ly b)).

(** A finger is classified as curled when its fingertip-to-wrist distance in
    the image is below 0.9 times its finger-base-to-wrist distance in the
    image. *)
Definition curled (landmarks : list HandController.Landmark) (f : nat * nat)
  : bool :=
  let wrist := HandController.at_ landmarks 0 in
  Rltb (planeDist (HandController.at_ landmarks (fst f)) wrist)
       (0.9 * planeDist (HandController.at_ landmarks (snd f)) wrist).

Definition curledCount (landmarks : list HandController.Landmark) : nat :=
  length (filter (curled landmarks) nonThumbFingers).

(** The Euclidean distance of two landmarks in three dimensions. *)
Definition euclid3 (a b : HandController.Landmark) : R :=
  sqrt ((HandController.lx a - HandController.lx b) ^ 2
        + (HandController.ly a - HandController.ly b) ^ 2
        + (HandController.lz a - HandController.lz b) ^ 2).

(** A closed fist: wrist at the origin, the four finger bases one unit away,
    every fingertip half a unit away, thumb tip on the index tip. *)
Definition fistHand : list HandController.Landmark :=
  let o := HandController.origin in
  let base := HandController.mkLandmark 0 1 0 in
  let tip := HandController.mkLandmark 0 0.5 0 in
  [ o; o; o; o; tip;
    base; o; o; tip;
    base; o; o; tip;
    base; o; o; tip;
    base; o; o; tip ].

(** The same fist held towards the camera: every fingertip is half a unit
    from the wrist in the image but two units nearer in depth, so that in
    three dimensions the tips are farther from the wrist than the finger
    bases. *)
Definition deepFist : list HandController.Landmark :=
  let o := HandController.origin in
  let base := HandController.mkLandmark 0 1 0 in
  let tip := HandController.mkLandmark 0.3 0.4 (-2) in
  [ o; o; o; o; tip;
    base; o; o; tip;
    base; o; o; tip;
    base; o; o; tip;
    base; o; o; tip ].

(** A state as left by a tracked frame. *)
Definition trackedState : HandState :=
  mkHandState true 0.4 0.6 0.45 0.55 0.25 0.1
    [ mkFingerTip 0.1 0.2 1 0; mkFingerTip 0.2 0.2 0 1;
      mkFingerTip 0.3 0.2 0 (-1); mkFingerTip 0.4 0.2 (-1) 0;
      mkFingerTip 0.5 0.2 0 1 ]
    1.0.

(** The scale of the App component ([params.scale]) and one possible
    behaviour of [Math.random()]. *)
Definition scale_src : R := 3.5.
Definition sampleRandom : nat -> R := fun _ => 0.5.

(** The buffers the source builds: 40000 particles. *)
Definition generated : Generator.Buffers :=
  Generator.generate Generator.numPoints_src scale_src sampleRandom.

(** The [k]-th generated particle: the loop that pushed it and its
    [aProgress] attribute. *)
Definition madeAt (b : Generator.Buffers) (k : nat) : Generator.Structure :=
  nth k (Generator.made b) Generator.Floating.

Definition progressAt (b : Generator.Buffers) (k : nat) : R :=
  nth k (Generator.prog b) 0.

(** A count is within rounding of the share [share] of [n] particles when it
    differs from [share * n] by less than one. *)
Definition withinRounding (count : nat) (share : R) (n : Z) : Prop :=
  Rabs (INR count - share * IZR n) < 1.

(** What the running index and the progress array look like after any number
    of pushes, for [numPoints] particles. *)
Definition wellIndexed (numPoints : Z) (b : Generator.Buffers) : Prop :=
  Generator.idx b = Z.of_nat (length (Generator.made b))
  /\ Generator.prog b
     = map (fun k => IZR (Z.of_nat k) / IZR numPoints)
           (seq 0 (length (Generator.made b)))
  /\ length (Generator.pts b) = length (Generator.made b).

(** The number of particles each of the four loops pushes, read off the loop
    bounds: 30 edges of [pointsPerEdge] points, 3 rings of [pointsPerRing]
    points, [spiralPoints] points, and the rest. *)
Definition nIco (numPoints : Z) : nat :=
  (30 * Z.to_nat (Generator.pointsPerEdge numPoints))%nat.
Definition nRings (numPoints : Z) : nat :=
  (3 * Z.to_nat (Generator.pointsPerRing numPoints))%nat.
Definition nSpiral (numPoints : Z) : nat :=
  Z.to_nat (Generator.spiralPoints numPoints).
Definition nFloat (numPoints : Z) : nat :=
  Z.to_nat (numPoints
            - Z.of_nat (nIco numPoints + nRings numPoints + nSpiral numPoints)).

(** A finger is classified as extended when its fingertip-to-wrist distance
    exceeds 1.2 times its finger-base-to-wrist distance. *)
Definition extended (landmarks : list HandController.Landmark) (f : nat * nat)
  : bool :=
  let wrist := HandController.at_ landmarks 0 in
  Rltb (planeDist (HandController.at_ landmarks (snd f)) wrist * 1.2)
       (planeDist (HandController.at_ landmarks (fst f)) wrist).

(** A landmark inside the camera frame. *)
Definition inFrame (p : HandController.Landmark) : Prop :=
  0 <= HandController.lx p <= 1 /\ 0 <= HandController.ly p <= 1.

(** A number within the unit interval. *)
Definition unit (x : R) : Prop := 0 <= x <= 1.

(** An open, upright hand: wrist low in the image, the finger bases above
    it, the fingertips further up, the thumb tip far from the index tip. *)
Definition openHand : list HandController.Landmark :=
  let wrist := HandController.mkLandmark 0.5 0.9 0 in
  let base := HandController.mkLandmark 0.5 0.6 0 in
  let tip := HandController.mkLandmark 0.5 0.2 0 in
  let thumb := HandController.mkLandmark 0.2 0.5 0 in
  [ wrist; base; base; base; thumb;
    base; base; base; tip;
    base; base; base; tip;
    base; base; base; tip;
    base; base; base; tip ].

(** A hand reading whose pinch strength is within [0,1], as every reading
    of the extractor is; a missing reading counts. *)
Definition pinchInRange (hand : option HandState) : Prop :=
  match hand with
  | Some h => unit (pinch h)
  | None => True
  end.

(** The four uniforms that stand for amounts. *)
Definition unitUniforms (u : Smoother.Uniforms) : Prop :=
  unit (Smoother.uVisible u) /\ unit (Smoother.uPinch u)
  /\ unit (Smoother.uMagic u) /\ unit (Smoother.uBlast u).

(** The squared Euclidean norm of a vector. *)
Definition normSq (p : vec3) : R := vx p * vx p + vy p * vy p + vz p * vz p.

(** The center of orb number [orbIdx] at time [t]: the point of the orbit
    the orb has reached and its bobbing depth, as band 5 computes them
    before any trail or body offset. *)
Definition orbCenterOf (orbIdx t uRotation : R) : vec3 :=
  let rotationDir := if Rlt_dec (Glsl.mod_ orbIdx 2.0) 1.0 then 1.0 else -1.0 in
  let palmInfluence := uRotation * 2.0 in
  let orbInertia := 0.5 + Shader.hash (orbIdx * 3.33) * 0.5 in
  let dynamicAngle :=
    (orbIdx / 7.0) * 6.28318 + t * 0.35 * rotationDir
    + palmInfluence * orbInertia * rotationDir
    + sin (orbIdx * 1.5 + t * 0.5) * 0.8 * rotationDir
    + sin (t * 2.0 + orbIdx * 2.0) * 0.15 in
  let dynamicR :=
    10.0 + Rabs (sin (t * 0.5 + palmInfluence * 0.3)) * 0.8
    + sin (t * 1.5 + orbIdx) * 0.5 in
  Vec3 (dynamicR * cos dynamicAngle) (dynamicR * sin dynamicAngle)
       (sin (t * 2.0 + orbIdx * 1.2) * 0.6 + cos (palmInfluence + orbIdx) * 0.3).

(** The Cartesian point of a polar triple, as [magicPos] builds it. *)
Definition cartesian (p : MagicCircle.Polar) : vec3 :=
  Vec3 (MagicCircle.r p * cos (MagicCircle.theta p))
       (MagicCircle.r p * sin (MagicCircle.theta p))
       (MagicCircle.z p).

Definition vsub (a b : vec3) : vec3 :=
  Vec3 (vx a - vx b) (vy a - vy b) (vz a - vz b).

(** Where a particle pushed by a given loop may lie, for an orb of radius
    [rad]: inside the sphere through the icosahedron's vertices, exactly on
    the ring sphere or on the spiral sphere, or in the floating shell. *)
Definition onShell (rad : R) (tag : Generator.Structure) (p : vec3) : Prop :=
  match tag with
  | Generator.Icosahedron =>
      normSq p
      <= (rad * 0.35) * (rad * 0.35)
         * (1 + Generator.phi_ico * Generator.phi_ico)
  | Generator.Rings => normSq p = (rad * 0.9) * (rad * 0.9)
  | Generator.Spiral => normSq p = (rad * 0.85) * (rad * 0.85)
  | Generator.Floating =>
      (rad * 0.95) * (rad * 0.95) <= normSq p <= (rad * 1.05) * (rad * 1.05)
  end.

(** Every loop keeps the position array and the ghost array side by side,
    each particle on the shell of its loop. *)
Definition shelled (rad : R) (b : Generator.Buffers) : Prop :=
  Forall2 (onShell rad) (Generator.made b) (Generator.pts b).

(** In how many edges of the table a vertex occurs. *)
Definition edgeDegree (v : nat) : nat :=
  length (filter (fun e => Nat.eqb (fst e) v || Nat.eqb (snd e) v)
                 Generator.icoEdges).

(** The vector from the first to the second end of an edge. *)
Definition edgeVector (e : nat * nat) : vec3 :=
  vsub (nth (snd e) Generator.icoVertices Generator.zero3)
       (nth (fst e) Generator.icoVertices Generator.zero3).

(** The ids handed out so far: those in the list lie between [lo] and the
    next id, and no two projectiles share one. *)
Definition idsFresh (lo : Z) (st : NumberProjectiles.State) : Prop :=
  Forall (fun p => (lo <= NumberProjectiles.id p
                    < NumberProjectiles.nextId st)%Z)
         (NumberProjectiles.projectiles st)
  /\ NoDup (map NumberProjectiles.id (NumberProjectiles.projectiles st))
  /\ (lo <= NumberProjectiles.nextId st)%Z.

(** A projectile as the spawner makes them from random values in [0,1):
    a unit direction, a speed from 15 up to 25, a scale from 0.8 up to 1.4,
    a digit from 0 to 9. *)
Definition wellFormed (p : NumberProjectiles.Projectile) : Prop :=
  NumberProjectiles.pDirX p * NumberProjectiles.pDirX p
  + NumberProjectiles.pDirY p * NumberProjectiles.pDirY p = 1
  /\ 15 <= NumberProjectiles.speed p < 25
  /\ 0.8 <= NumberProjectiles.scale p < 1.4
  /\ exists d : Z, (0 <= d <= 9)%Z /\ NumberProjectiles.number p = IZR d.

(** Values of [Math.random()]: at least 0, less than 1. *)
Definition unitRandom (random : nat -> R) : Prop :=
  forall n, 0 <= random n < 1.

(** A tracked hand with the fingers apart (pinch 0.9), at 0.3 s and again at
    0.7 s and 3 s. *)
Definition magicHand : HandState :=
  mkHandState true 0.4 0.6 0.45 0.55 0.9 0.1
    [ mkFingerTip 0.1 0.2 1 0; mkFingerTip 0.2 0.2 0 1;
      mkFingerTip 0.3 0.2 0 (-1); mkFingerTip 0.4 0.2 (-1) 0;
      mkFingerTip 0.5 0.2 0 1 ]
    0.

Definition magicFrames : list (R * HandState) :=
  [ (0.3, magicHand); (0.7, magicHand); (3, magicHand) ].

(** Later projectiles of a finger start more than 0.15 s after earlier
    ones. *)
Definition spacedAfter (p q : NumberProjectiles.Projectile) : Prop :=
  NumberProjectiles.fingerIndex p = NumberProjectiles.fingerIndex q ->
  0.15 < NumberProjectiles.startTime q - NumberProjectiles.startTime p.

(** No projectile of the list started after the last spawn time recorded
    for its finger. *)
Definition notAfterLast (lst : list R) (p : NumberProjectiles.Projectile)
  : Prop :=
  exists last,
    nth_error lst (NumberProjectiles.fingerIndex p) = Some last
    /\ NumberProjectiles.startTime p <= last.

Definition sampleProjectile : NumberProjectiles.Projectile :=
  NumberProjectiles.mkProjectile 7 3 1 10 4 5 (3/5) (4/5) 20 0.9 1.

Definition twoFrames : list (R * HandState) :=
  [ (0.3, magicHand); (0.7, magicHand) ].

(** A list state holding the sample projectile (started at 10 s). *)
Definition sampleState : NumberProjectiles.State :=
  NumberProjectiles.mkState [sampleProjectile] 8 [0; 0; 0; 0; 0] 0.

(** The parameters [App] passes, and sample particles: one waiting with
    0.04 s to go, one whose life is exactly zero. *)
Definition appParams : ButterflyParams := mkButterflyParams 24 1.0 2.0 5 3.5.

Definition waitingParticle : DroppingParticles.Particle :=
  DroppingParticles.mkParticle 0 0 0 (-0.04) 0 0 0 0 0.3.

Definition dueParticle : DroppingParticles.Particle :=
  DroppingParticles.mkParticle 0.5 (-3) 0 0 0.5 (-3) 0 0.02 0.3.

(** Lives and opacities stay in these ranges. *)
Definition lifeInRange (p : DroppingParticles.Particle) : Prop :=
  -5 < DroppingParticles.life p <= 1
  /\ -0.05 < DroppingParticles.opacity p <= 1.

Definition sampleDeltas : list (R * R) := [ (0.016, 0.016); (0.5, 0.516) ].

(** Well formed, and from one of the five fingers. *)
Definition shaped (p : NumberProjectiles.Projectile) : Prop :=
  wellFormed p /\ (NumberProjectiles.fingerIndex p < 5)%nat.

(** The list is spaced finger by finger and consistent with the recorded
    last spawn times. *)
Definition rateInv (l : list NumberProjectiles.Projectile) (lst : list R)
  : Prop :=
  ForallOrdPairs spacedAfter l /\ Forall (notAfterLast lst) l.

(** The fingertip landmarks, thumb to pinky, and the six landmarks whose
    mean is the palm center: the wrist and the bases of thumb, index,
    middle, ring and pinky. *)
Definition tipLandmarks : list nat := [4; 8; 12; 16; 20]%nat.
Definition palmLandmarks : list nat := [0; 1; 5; 9; 13; 17]%nat.

Definition mean (l : list R) : R := fold_right Rplus 0 l / INR (length l).

Definition palmCentre (landmarks : list HandController.Landmark) : R * R :=
  (mean (map (fun i => HandController.lx (HandController.at_ landmarks i))
             palmLandmarks),
   mean (map (fun i => HandController.ly (HandController.at_ landmarks i))
             palmLandmarks)).

(** The center of circle number [k] out of [n] circles whose centers lie
    on a carrier circle of radius [carrier] that is turned by [phase]. *)
Definition circleCentre (k n carrier phase : R) : vec3 :=
  let a := (k / n) * 6.28 + phase in
  Vec3 (carrier * cos a) (carrier * sin a) 0.

(** The quantity [logR] of the logarithmic spiral of band 4, for a
    particle at [segmentProgress] of the band at time [t]. *)
Definition logSpiralR (segmentProgress t : R) : R :=
  0.5 * exp (0.15 * ((segmentProgress - 0.6) / 0.2 * 6.28 * 2.0 + t * 0.3)).

(** * Properties *)

(** ** Elementary facts on the built-ins *)

Lemma Rltb_true (x y : R) : Rltb x y = true <-> x < y.
Proof. unfold Rltb; destruct (Rlt_dec x y); split; intros; congruence || lra. Qed.

Lemma Rltb_false (x y : R) : Rltb x y = false <-> y <= x.
Proof. unfold Rltb; destruct (Rlt_dec x y); split; intros; congruence || lra. Qed.

Lemma clamp_range (x : R) : 0 <= Glsl.clamp x 0 1 <= 1.
Proof.
  unfold Glsl.clamp, Rmin, Rmax.
  destruct (Rle_dec x 0); destruct (Rle_dec _ 1); lra.
Qed.

Lemma clamp_low (x : R) : x <= 0 -> Glsl.clamp x 0 1 = 0.
Proof.
  intros Hx; unfold Glsl.clamp, Rmin, Rmax.
  destruct (Rle_dec x 0); destruct (Rle_dec _ 1); lra.
Qed.

Lemma clamp_high (x : R) : 1 <= x -> Glsl.clamp x 0 1 = 1.
Proof.
  intros Hx; unfold Glsl.clamp, Rmin, Rmax.
  destruct (Rle_dec x 0); destruct (Rle_dec _ 1); lra.
Qed.

Lemma clamp_mid (x : R) : 0 <= x <= 1 -> Glsl.clamp x 0 1 = x.
Proof.
  intros Hx; unfold Glsl.clamp, Rmin, Rmax.
  destruct (Rle_dec x 0); destruct (Rle_dec _ 1); lra.
Qed.

Lemma clamp_mono (x y : R) : x <= y -> Glsl.clamp x 0 1 <= Glsl.clamp y 0 1.
Proof.
  intros Hxy; unfold Glsl.clamp, Rmin, Rmax.
  destruct (Rle_dec x 0); destruct (Rle_dec y 0);
    repeat match goal with |- context [Rle_dec ?a ?b] => destruct (Rle_dec a b) end;
    lra.
Qed.

Lemma hermite_range (t : R) : 0 <= t <= 1 -> 0 <= Glsl.hermite t <= 1.
Proof.
  intros [H0 H1]; unfold Glsl.hermite; split.
  - apply Rmult_le_pos; [apply Rmult_le_pos; lra | lra].
  - assert (E : 1 - t * t * (3 - 2 * t) = (1 - t) * (1 - t) * (1 + 2 * t)) by ring.
    assert (0 <= (1 - t) * (1 - t) * (1 + 2 * t)).
    { apply Rmult_le_pos; [apply Rmult_le_pos; lra | lra]. }
    lra.
Qed.

Lemma hermite_mono (s t : R) : 0 <= s -> s <= t -> t <= 1 -> Glsl.hermite s <= Glsl.hermite t.
Proof.
  intros H0 Hst H1; unfold Glsl.hermite.
  assert (E : t * t * (3 - 2 * t) - s * s * (3 - 2 * s)
              = (t - s) * (3 * (t + s) - 2 * (t * t + t * s + s * s))) by ring.
  assert (Htt : t * t <= t) by nra.
  assert (Hss : s * s <= s) by nra.
  assert (Hts : t * s <= s) by nra.
  assert (0 <= 3 * (t + s) - 2 * (t * t + t * s + s * s)) by lra.
  assert (0 <= (t - s) * (3 * (t + s) - 2 * (t * t + t * s + s * s))).
  { apply Rmult_le_pos; lra. }
  lra.
Qed.



Lemma smoothstep_hermite (e0 e1 x : R) :
  Glsl.smoothstep e0 e1 x = Glsl.hermite (Glsl.clamp ((x - e0) / (e1 - e0)) 0 1).
Proof. reflexivity. Qed.

Lemma ratio_le_0 (e0 e1 x : R) : e0 < e1 -> x <= e0 -> (x - e0) / (e1 - e0) <= 0.
Proof.
  intros He Hx. unfold Rdiv.
  assert (0 < / (e1 - e0)) by (apply Rinv_0_lt_compat; lra).
  nra.
Qed.

Lemma ratio_ge_1 (e0 e1 x : R) : e0 < e1 -> e1 <= x -> 1 <= (x - e0) / (e1 - e0).
Proof.
  intros He Hx.
  apply (Rmult_le_reg_r (e1 - e0)); [lra |].
  unfold Rdiv; rewrite Rmult_assoc, Rinv_l by lra. lra.
Qed.

Lemma ratio_mono (e0 e1 x y : R) :
  e0 < e1 -> x <= y -> (x - e0) / (e1 - e0) <= (y - e0) / (e1 - e0).
Proof.
  intros He Hxy. unfold Rdiv.
  apply Rmult_le_compat_r; [| lra].
  left; apply Rinv_0_lt_compat; lra.
Qed.

Lemma smoothstep_low (e0 e1 x : R) :
  e0 < e1 -> x <= e0 -> Glsl.smoothstep e0 e1 x = 0.
Proof.
  intros He Hx. rewrite smoothstep_hermite, clamp_low.
  - unfold Glsl.hermite; ring.
  - now apply ratio_le_0.
Qed.

Lemma smoothstep_high (e0 e1 x : R) :
  e0 < e1 -> e1 <= x -> Glsl.smoothstep e0 e1 x = 1.
Proof.
  intros He Hx. rewrite smoothstep_hermite, clamp_high.
  - unfold Glsl.hermite; ring.
  - now apply ratio_ge_1.
Qed.

Lemma smoothstep_range (e0 e1 x : R) : 0 <= Glsl.smoothstep e0 e1 x <= 1.
Proof. rewrite smoothstep_hermite. apply hermite_range, clamp_range. Qed.

Lemma smoothstep_mono (e0 e1 x y : R) :
  e0 < e1 -> x <= y -> Glsl.smoothstep e0 e1 x <= Glsl.smoothstep e0 e1 y.
Proof.
  intros He Hxy. rewrite !smoothstep_hermite.
  apply hermite_mono.
  - apply clamp_range.
  - apply clamp_mono. now apply ratio_mono.
  - apply clamp_range.
Qed.



(** ** Gesture extractor *)

Lemma distToWrist_nonneg (p w : HandController.Landmark) :
  0 <= HandController.distToWrist p w.
Proof. unfold HandController.distToWrist; apply sqrt_pos. Qed.

(** The distance the finger loop computes is the distance in the image. *)
Lemma distToWrist_planeDist (p w : HandController.Landmark) :
  HandController.distToWrist p w = planeDist p w.
Proof.
  unfold HandController.distToWrist, planeDist. f_equal. ring.
Qed.

Lemma planeDist_nonneg (p w : HandController.Landmark) : 0 <= planeDist p w.
Proof. unfold planeDist; apply sqrt_pos. Qed.

(** The [else if] of the finger loop counts exactly the fingers below the
    0.9 ratio: the [if] before it can never take such a finger away. *)
Lemma countFinger_curled (landmarks : list HandController.Landmark)
      (acc : nat * nat) (i : nat) :
  snd (HandController.countFinger landmarks acc i)
  = (snd acc
     + if curled landmarks (nth i HandController.fingerTipIndices 0%nat,
                            nth i HandController.fingerMCPIndices 0%nat)
       then 1 else 0)%nat.
Proof.
  destruct acc as [ext cur].
  unfold HandController.countFinger, curled; cbn [fst snd].
  rewrite !distToWrist_planeDist.
  set (wrist := HandController.at_ landmarks 0).
  set (tipD := planeDist
                 (HandController.at_ landmarks
                    (nth i HandController.fingerTipIndices 0%nat)) wrist).
  set (mcpD := planeDist
                 (HandController.at_ landmarks
                    (nth i HandController.fingerMCPIndices 0%nat)) wrist).
  assert (Hm : 0 <= mcpD) by apply planeDist_nonneg.
  unfold Rltb.
  destruct (Rlt_dec (mcpD * 1.2) tipD) as [He | He];
    destruct (Rlt_dec tipD (mcpD * 0.9)) as [Hc | Hc];
    destruct (Rlt_dec tipD (0.9 * mcpD)) as [Hs | Hs];
    cbn [snd]; try lia; exfalso; lra.
Qed.

Lemma countFingers_curledCount (landmarks : list HandController.Landmark) :
  snd (HandController.countFingers landmarks) = curledCount landmarks.
Proof.
  unfold HandController.countFingers, curledCount, nonThumbFingers.
  cbn [fold_left].
  rewrite !countFinger_curled.
  cbn [snd nth HandController.fingerTipIndices HandController.fingerMCPIndices
       filter].
  repeat match goal with
  | |- context [curled landmarks ?f] => destruct (curled landmarks f)
  end; cbn [length]; lia.
Qed.

Lemma blast_extract (landmarks : list HandController.Landmark) :
  blast (HandController.extract landmarks)
  = if ((3 <=? curledCount landmarks)%nat
        && Rltb (pinch (HandController.extract landmarks)) 0.3)%bool
    then 1 else 0.
Proof.
  cbn [blast pinch HandController.extract].
  unfold HandController.blastValue, HandController.isFist.
  rewrite countFingers_curledCount.
  destruct (_ && _)%bool; lra.
Qed.

(** C6: the blast output of a frame of 21 landmarks is 1 exactly when at
    least 3 of the 4 non-thumb fingers are curled (fingertip-to-wrist
    distance below 0.9 times the base-to-wrist distance) and the pinch
    strength is below 0.3, and 0 otherwise; so 4 curled fingers with a pinch
    below 0.3 give 1, and fewer than 3 curled fingers give 0 whatever the
    pinch.  The distances that classify a finger are distances in the image
    ([planeDist]: x and y only); the depth of the landmarks does not enter,
    unlike in the pinch strength. *)
Theorem fist_iff_three_curled_and_pinch_closed
    (landmarks : list HandController.Landmark)
    (H21 : length landmarks = 21%nat) :
  let hs := HandController.extract landmarks in
  (blast hs = 1 <-> (3 <= curledCount landmarks)%nat /\ pinch hs < 0.3)
  /\ (blast hs = 1 \/ blast hs = 0)
  /\ (curledCount landmarks = 4%nat -> pinch hs < 0.3 -> blast hs = 1)
  /\ ((curledCount landmarks < 3)%nat -> blast hs = 0).
Proof.
  intros hs; subst hs. rewrite blast_extract.
  set (p := pinch (HandController.extract landmarks)).
  destruct (Nat.leb_spec 3 (curledCount landmarks)) as [Hc | Hc];
    destruct (Rltb p 0.3) eqn:Hp; cbn [andb];
    try (apply Rltb_true in Hp); try (apply Rltb_false in Hp);
    repeat split; intros; try lra; try lia; auto;
    try (exfalso; lra); try (exfalso; lia).
  all: try (destruct H; try lia; lra).
Qed.

Lemma planeDist_value (a b : HandController.Landmark) (d : R) :
  0 <= d ->
  (HandController.lx a - HandController.lx b)
  * (HandController.lx a - HandController.lx b)
  + (HandController.ly a - HandController.ly b)
    * (HandController.ly a - HandController.ly b) = d * d ->
  planeDist a b = d.
Proof.
  intros Hd Hsq. unfold planeDist. rewrite Hsq. now apply sqrt_square.
Qed.

Lemma fistHand_curledCount : curledCount fistHand = 4%nat.
Proof.
  unfold curledCount, nonThumbFingers; cbn [filter].
  assert (Hc : forall f, In f nonThumbFingers -> curled fistHand f = true).
  { intros f Hf. unfold curled. apply Rltb_true.
    unfold nonThumbFingers in Hf; cbn [In] in Hf.
    assert (Htip : planeDist (HandController.mkLandmark 0 0.5 0)
                     HandController.origin = 0.5)
      by (apply planeDist_value; cbn; lra).
    assert (Hbase : planeDist (HandController.mkLandmark 0 1 0)
                      HandController.origin = 1)
      by (apply planeDist_value; cbn; lra).
    destruct Hf as [<- | [<- | [<- | [<- | []]]]];
      cbn [fst snd HandController.at_ nth fistHand];
      rewrite Htip, Hbase; lra. }
  rewrite !Hc by (unfold nonThumbFingers; cbn [In]; auto 6).
  reflexivity.
Qed.

Lemma fistHand_pinch : pinch (HandController.extract fistHand) = 0.
Proof.
  cbn [pinch HandController.extract].
  unfold HandController.pinchStrength, HandController.pinchDist.
  cbn [HandController.at_ nth fistHand HandController.lx HandController.ly
       HandController.lz].
  replace ((0 - 0) * (0 - 0) + (0.5 - 0.5) * (0.5 - 0.5) + (0 - 0) * (0 - 0))
    with 0 by ring.
  rewrite sqrt_0. unfold HandController.normalizePinch, Rmin, Rmax.
  destruct (Rle_dec ((0 - 0.02) / 0.15) 0); destruct (Rle_dec _ 1); lra.
Qed.

Lemma deepFist_curledCount : curledCount deepFist = 4%nat.
Proof.
  unfold curledCount, nonThumbFingers; cbn [filter].
  assert (Hc : forall f, In f nonThumbFingers -> curled deepFist f = true).
  { intros f Hf. unfold curled. apply Rltb_true.
    unfold nonThumbFingers in Hf; cbn [In] in Hf.
    assert (Htip : planeDist (HandController.mkLandmark 0.3 0.4 (-2))
                     HandController.origin = 0.5)
      by (apply planeDist_value; cbn; lra).
    assert (Hbase : planeDist (HandController.mkLandmark 0 1 0)
                      HandController.origin = 1)
      by (apply planeDist_value; cbn; lra).
    destruct Hf as [<- | [<- | [<- | [<- | []]]]];
      cbn [fst snd HandController.at_ nth deepFist];
      rewrite Htip, Hbase; lra. }
  rewrite !Hc by (unfold nonThumbFingers; cbn [In]; auto 6).
  reflexivity.
Qed.

Lemma deepFist_pinch : pinch (HandController.extract deepFist) = 0.
Proof.
  cbn [pinch HandController.extract].
  unfold HandController.pinchStrength, HandController.pinchDist.
  cbn [HandController.at_ nth deepFist HandController.lx HandController.ly
       HandController.lz].
  replace ((0.3 - 0.3) * (0.3 - 0.3) + (0.4 - 0.4) * (0.4 - 0.4)
           + (-2 - -2) * (-2 - -2))
    with 0 by ring.
  rewrite sqrt_0. unfold HandController.normalizePinch, Rmin, Rmax.
  destruct (Rle_dec ((0 - 0.02) / 0.15) 0); destruct (Rle_dec _ 1); lra.
Qed.

(** The finger loop leaves the depth out: for the fist held towards the
    camera every fingertip is, in three dimensions, farther from the wrist
    than 0.9 times its finger base, and all four fingers still count as
    curled. *)
Lemma deepFist_not_curled_in_depth :
  Forall (fun f =>
            0.9 * euclid3 (HandController.at_ deepFist (snd f))
                    (HandController.at_ deepFist 0)
            < euclid3 (HandController.at_ deepFist (fst f))
                (HandController.at_ deepFist 0))
         nonThumbFingers
  /\ curledCount deepFist = 4%nat.
Proof.
  split; [| exact deepFist_curledCount].
  assert (Hbase : euclid3 (HandController.mkLandmark 0 1 0)
                    HandController.origin = 1).
  { unfold euclid3; cbn.
    replace ((0 - 0) * ((0 - 0) * 1) + (1 - 0) * ((1 - 0) * 1)
             + (0 - 0) * ((0 - 0) * 1)) with (1 * 1) by field.
    apply sqrt_square; lra. }
  assert (Htip : 2 <= euclid3 (HandController.mkLandmark 0.3 0.4 (-2))
                        HandController.origin).
  { unfold euclid3; cbn.
    rewrite <- (sqrt_square 2) at 1 by lra.
    apply sqrt_le_1_alt. lra. }
  unfold nonThumbFingers.
  repeat (apply Forall_cons;
          [cbn [fst snd HandController.at_ nth deepFist];
           rewrite Hbase; lra |]).
  apply Forall_nil.
Qed.

Lemma fist_iff_three_curled_and_pinch_closed_witness :
  length deepFist = 21%nat /\ blast (HandController.extract deepFist) = 1.
Proof.
  split; [reflexivity |].
  apply (fist_iff_three_curled_and_pinch_closed deepFist eq_refl).
  - exact deepFist_curledCount.
  - rewrite deepFist_pinch; lra.
Defined.

Lemma pinchDist_euclid3 (a b : HandController.Landmark) :
  HandController.pinchDist a b = euclid3 a b.
Proof.
  unfold HandController.pinchDist, euclid3. f_equal. ring.
Qed.

Lemma normalizePinch_range (d : R) :
  0 <= HandController.normalizePinch d <= 1.
Proof.
  unfold HandController.normalizePinch, Rmin, Rmax.
  destruct (Rle_dec ((d - 0.02) / 0.15) 0); destruct (Rle_dec _ 1); lra.
Qed.

Lemma normalizePinch_cases (d : R) :
  (d <= 0.02 -> HandController.normalizePinch d = 0)
  /\ (0.17 <= d -> HandController.normalizePinch d = 1)
  /\ (0.02 <= d <= 0.17 ->
      HandController.normalizePinch d = (d - 0.02) / (0.17 - 0.02)).
Proof.
  unfold HandController.normalizePinch, Rmin, Rmax.
  destruct (Rle_dec ((d - 0.02) / 0.15) 0) as [H0 | H0];
    destruct (Rle_dec _ 1) as [H1 | H1];
    repeat split; intros; try lra.
Qed.

(** C7: the pinch strength of a frame is the 3D Euclidean distance between
    the thumb tip (landmark 4) and the index tip (landmark 8), remapped
    linearly from 0.02 (touching) to 0.17 (open) and clamped to [0,1]: it is
    0 at or below 0.02, 1 at or above 0.17, and always within [0,1]. *)
Theorem pinch_strength_remap_clamped
    (landmarks : list HandController.Landmark) :
  let thumbTip := HandController.at_ landmarks 4 in
  let indexTip := HandController.at_ landmarks 8 in
  let d := euclid3 thumbTip indexTip in
  let p := pinch (HandController.extract landmarks) in
  0 <= p <= 1
  /\ (d <= 0.02 -> p = 0)
  /\ (0.17 <= d -> p = 1)
  /\ (0.02 <= d <= 0.17 -> p = (d - 0.02) / (0.17 - 0.02)).
Proof.
  intros thumbTip indexTip d p.
  assert (Hp : p = HandController.normalizePinch d).
  { subst p d thumbTip indexTip.
    cbn [pinch HandController.extract]. unfold HandController.pinchStrength.
    now rewrite pinchDist_euclid3. }
  rewrite Hp. split.
  - apply normalizePinch_range.
  - apply normalizePinch_cases.
Qed.

Lemma pinch_strength_remap_clamped_witness :
  euclid3 (HandController.at_ fistHand 4) (HandController.at_ fistHand 8) <= 0.02
  /\ pinch (HandController.extract fistHand) = 0.
Proof.
  assert (Hd : euclid3 (HandController.at_ fistHand 4)
                       (HandController.at_ fistHand 8) <= 0.02).
  { unfold euclid3.
    cbn [HandController.at_ nth fistHand HandController.lx HandController.ly
         HandController.lz].
    replace ((0 - 0) ^ 2 + (0.5 - 0.5) ^ 2 + (0 - 0) ^ 2) with 0 by ring.
    rewrite sqrt_0; lra. }
  split; [exact Hd |].
  exact (proj1 (proj2 (pinch_strength_remap_clamped fistHand)) Hd).
Defined.

(** C8: a sample without a detected hand (an empty or absent landmark list)
    overwrites only the [detected] flag of the shared state, to false; the
    pinch point, palm center, pinch strength, rotation, fingertips and blast
    keep their previous values. *)
Theorem no_hand_only_clears_detected
    (cur : HandState) (videoWidth : Z)
    (results : option (list (list HandController.Landmark)))
    (Hvideo : (0 < videoWidth)%Z)
    (Hnone : results = None \/ results = Some []) :
  let s := HandController.predictWebcam true videoWidth results cur in
  detected s = false
  /\ hx s = hx cur /\ hy s = hy cur
  /\ palmX s = palmX cur /\ palmY s = palmY cur
  /\ pinch s = pinch cur
  /\ rotation s = rotation cur
  /\ fingerTips s = fingerTips cur
  /\ blast s = blast cur.
Proof.
  intros s; subst s. unfold HandController.predictWebcam.
  cbn [negb]. apply Z.ltb_lt in Hvideo; rewrite Hvideo.
  destruct Hnone as [-> | ->]; cbn; repeat split; reflexivity.
Qed.

Lemma no_hand_only_clears_detected_witness :
  let s := HandController.predictWebcam true 320 (Some []) trackedState in
  detected trackedState = true
  /\ detected s = false /\ pinch s = 0.25 /\ blast s = 1.0.
Proof.
  intros s.
  destruct (no_hand_only_clears_detected trackedState 320 (Some [])
              eq_refl (or_intror eq_refl))
    as (Hd & _ & _ & _ & _ & Hp & _ & _ & Hb).
  split; [reflexivity |].
  split; [exact Hd |].
  split; [exact Hp | exact Hb].
Defined.

(** ** Signal smoother *)

Lemma threeSmoothstep_range (x lo hi : R) :
  lo < hi -> 0 <= MathUtils.smoothstep x lo hi <= 1.
Proof.
  intros Hlh. unfold MathUtils.smoothstep.
  destruct (Rle_dec x lo) as [Hl | Hl]; [lra |].
  destruct (Rle_dec hi x) as [Hh | Hh]; [lra |].
  apply hermite_range. split.
  - apply Rlt_le, Rdiv_lt_0_compat; lra.
  - apply (Rmult_le_reg_r (hi - lo)); [lra |].
    unfold Rdiv; rewrite Rmult_assoc, Rinv_l by lra. lra.
Qed.

Lemma lerp_between (x y t : R) :
  0 <= t <= 1 -> 0 <= x <= 1 -> 0 <= y <= 1 -> 0 <= MathUtils.lerp x y t <= 1.
Proof. intros Ht Hx Hy; unfold MathUtils.lerp; split; nra. Qed.

Lemma magicValue_range (hand : option HandState) :
  0 <= Smoother.magicValue (Smoother.targets hand) <= 1.
Proof.
  unfold Smoother.targets.
  destruct hand as [h |]; [destruct (detected h) |]; cbn [Smoother.magicValue];
    try lra.
  apply threeSmoothstep_range; lra.
Qed.

(** The magic uniform never leaves the unit interval, whatever the hand does. *)
Lemma uMagic_frame_range (hand : option HandState) (u : Smoother.Uniforms) :
  0 <= Smoother.uMagic u <= 1 ->
  0 <= Smoother.uMagic (Smoother.frame hand u) <= 1.
Proof.
  intros Hu. cbn [Smoother.frame Smoother.uMagic].
  apply lerp_between; [lra | assumption | apply magicValue_range].
Qed.

Lemma uMagic_run_range (hands : list (option HandState)) :
  forall u, 0 <= Smoother.uMagic u <= 1 ->
            0 <= Smoother.uMagic (Smoother.run hands u) <= 1.
Proof.
  unfold Smoother.run.
  induction hands as [| h hands IH]; intros u Hu; cbn [fold_left].
  - exact Hu.
  - apply IH, uMagic_frame_range, Hu.
Qed.

(** From the initial uniforms, every sequence of frames keeps the magic
    uniform within [0,1]: the range the blend stage is read on. *)
Lemma uMagic_reachable_range (hands : list (option HandState)) :
  0 <= Smoother.uMagic (Smoother.run hands Smoother.initialUniforms) <= 1.
Proof.
  apply uMagic_run_range. cbn [Smoother.uMagic Smoother.initialUniforms]. lra.
Qed.

(** C4: what the blast smoothing does.  With the trigger active the blast
    amount moves toward 1.0 by the fraction 0.08 of the remaining gap, with
    the trigger inactive it moves toward 0.0 by the fraction 0.06; the decay
    rate of the code is strictly smaller than its onset rate, where the
    claim (and the comments in the code) ask for a strictly greater one. *)
Theorem blast_decay_rate_below_onset_rate (currentBlast : R) :
  Smoother.stepBlast 1 currentBlast = currentBlast + 0.08 * (1 - currentBlast)
  /\ Smoother.stepBlast 0 currentBlast = currentBlast + 0.06 * (0 - currentBlast)
  /\ Smoother.blastDecayRate < Smoother.blastOnsetRate
  /\ 1 - Smoother.stepBlast 1 0 = 0.92 /\ Smoother.stepBlast 0 1 = 0.94.
Proof.
  unfold Smoother.stepBlast, Smoother.blastDecayRate, Smoother.blastOnsetRate.
  destruct (Rlt_dec 0.5 1) as [_ | H]; [| exfalso; lra].
  destruct (Rlt_dec 0.5 0) as [H | _]; [exfalso; lra |].
  unfold MathUtils.lerp. repeat split; lra.
Qed.

Lemma frame_undetected (h : HandState) (u : Smoother.Uniforms) :
  detected h = false ->
  Smoother.frame (Some h) u
  = Smoother.mkUniforms (0.9 * Smoother.uVisible u)
                        (Smoother.uPinch u + 0.12 * (1 - Smoother.uPinch u))
                        (0.92 * Smoother.uMagic u)
                        (0.9 * Smoother.uRotation u)
                        (0.94 * Smoother.uBlast u).
Proof.
  intros Hd. unfold Smoother.frame, Smoother.targets. rewrite Hd.
  cbn [Smoother.visibleTarget Smoother.pinchValue Smoother.magicValue
       Smoother.rotationTarget Smoother.blastTarget].
  unfold Smoother.stepBlast, Smoother.blastDecayRate.
  destruct (Rlt_dec 0.5 0) as [H | _]; [exfalso; lra |].
  unfold MathUtils.lerp. f_equal; lra.
Qed.

Lemma run_undetected (h : HandState) (n : nat) :
  detected h = false ->
  forall u,
    Smoother.uMagic (Smoother.run (repeat (Some h) n) u)
    = 0.92 ^ n * Smoother.uMagic u
    /\ Smoother.uVisible (Smoother.run (repeat (Some h) n) u)
       = 0.9 ^ n * Smoother.uVisible u.
Proof.
  intros Hd. unfold Smoother.run.
  induction n as [| n IH]; intros u; cbn [repeat fold_left].
  - split; simpl; ring.
  - destruct (IH (Smoother.frame (Some h) u)) as [IHm IHv].
    rewrite IHm, IHv, (frame_undetected h u Hd).
    cbn [Smoother.uMagic Smoother.uVisible]. split; simpl; ring.
Qed.

(** C10: with [detected] false the smoothing targets are visibility 0,
    pinch 1.0, magic 0, rotation 0 and blast 0.  The magic target is 0 and
    not the smoothstep of the default pinch (which is 1 at pinch 1.0), so
    each such frame multiplies the magic uniform by 0.92 and the visibility
    by 0.9: a magic value in [0,1] decays toward 0 (structure A), never
    rises, and the particles fade out. *)
Theorem undetected_targets_rest (h : HandState) (u : Smoother.Uniforms)
    (Hd : detected h = false) :
  Smoother.targets (Some h) = Smoother.mkTargets 0 1.0 0 0 0
  /\ MathUtils.smoothstep 1.0 0.3 0.8 = 1
  /\ Smoother.uMagic (Smoother.frame (Some h) u) = 0.92 * Smoother.uMagic u
  /\ Smoother.uVisible (Smoother.frame (Some h) u) = 0.9 * Smoother.uVisible u
  /\ (0 <= Smoother.uMagic u ->
      0 <= Smoother.uMagic (Smoother.frame (Some h) u) <= Smoother.uMagic u)
  /\ (forall n : nat,
        Smoother.uMagic (Smoother.run (repeat (Some h) n) u)
        = 0.92 ^ n * Smoother.uMagic u
        /\ Smoother.uVisible (Smoother.run (repeat (Some h) n) u)
           = 0.9 ^ n * Smoother.uVisible u).
Proof.
  split.
  { unfold Smoother.targets; rewrite Hd; f_equal; lra. }
  split.
  { unfold MathUtils.smoothstep.
    destruct (Rle_dec 1.0 0.3) as [H | _]; [exfalso; lra |].
    destruct (Rle_dec 0.8 1.0) as [_ | H]; [reflexivity | exfalso; lra]. }
  rewrite (frame_undetected h u Hd).
  cbn [Smoother.uMagic Smoother.uVisible].
  repeat split; try lra.
  - apply (run_undetected h n Hd u).
  - apply (run_undetected h n Hd u).
Qed.

Lemma undetected_targets_rest_witness :
  detected initialHandState = false
  /\ Smoother.targets (Some initialHandState) = Smoother.mkTargets 0 1.0 0 0 0
  /\ Smoother.uMagic
       (Smoother.frame (Some initialHandState)
          (Smoother.mkUniforms 1 0.5 1 0 0)) = 0.92 * 1.
Proof.
  split; [reflexivity |].
  destruct (undetected_targets_rest initialHandState
              (Smoother.mkUniforms 1 0.5 1 0 0) eq_refl)
    as (Ht & _ & Hm & _).
  split; [exact Ht | exact Hm].
Defined.

(** ** Vertex shader: structure-A size factor *)

Lemma orbScale_mix (uPinch : R) :
  Shader.orbScale uPinch = 0.3 + 0.7 * Glsl.smoothstep 0.2 0.7 uPinch.
Proof.
  unfold Shader.orbScale, Shader.shrinkFactor, Shader.minSize, Glsl.mix. lra.
Qed.

(** C5 as stated fails: the factor grows, not shrinks, toward the open hand.
    At pinch 0 (touching) it is the floor 0.3, at pinch 1 (fully open) it is
    the full size 1. *)
Lemma orbScale_open_larger_than_closed :
  Shader.orbScale 0 = 0.3 /\ Shader.orbScale 1 = 1
  /\ ~ (Shader.orbScale 1 <= Shader.orbScale 0).
Proof.
  rewrite !orbScale_mix.
  rewrite (smoothstep_low 0.2 0.7 0) by lra.
  rewrite (smoothstep_high 0.2 0.7 1) by lra.
  repeat split; lra.
Qed.

(** C5, amended: the size factor applied to the structure-A position is
    [mix(0.3, 1, smoothstep(0.2, 0.7, pinch))] of the smoothed pinch signal.
    It never decreases with the pinch signal, is the full size 1 from pinch
    0.7 up to fully open, and shrinks as the fingers close, down to the
    floor of 30% of full size at pinch 0.2 and below. *)
Theorem orbScale_shrinks_as_fingers_close
    (uTime aProgress : R) (orbPos : vec3) (p q : R) (Hpq : p <= q) :
  Shader.orbScale p <= Shader.orbScale q
  /\ 0.3 <= Shader.orbScale p <= 1
  /\ (p <= 0.2 -> Shader.orbScale p = 0.3)
  /\ (0.7 <= p -> Shader.orbScale p = 1)
  /\ Shader.orbScale p = Glsl.mix 0.3 1 (Glsl.smoothstep 0.2 0.7 p)
  /\ Shader.butterflyPos uTime p aProgress orbPos
     = vscale (vscale (Shader.rotated uTime aProgress orbPos)
                      (Shader.pulse uTime))
              (Shader.orbScale p).
Proof.
  assert (Hpos : Shader.butterflyPos uTime p aProgress orbPos
                 = vscale (vscale (Shader.rotated uTime aProgress orbPos)
                                  (Shader.pulse uTime))
                          (Shader.orbScale p)) by reflexivity.
  revert Hpos. generalize (Shader.butterflyPos uTime p aProgress orbPos).
  intros bp Hpos.
  rewrite !orbScale_mix. rewrite orbScale_mix in Hpos.
  pose proof (smoothstep_range 0.2 0.7 p) as Hr.
  pose proof (smoothstep_mono 0.2 0.7 p q ltac:(lra) Hpq) as Hm.
  repeat split; try lra; try exact Hpos.
  - intros H; rewrite smoothstep_low by lra; lra.
  - intros H; rewrite smoothstep_high by lra; lra.
  - unfold Glsl.mix; lra.
Qed.

Lemma orbScale_shrinks_as_fingers_close_witness :
  0.1 <= 0.9 /\ Shader.orbScale 0.1 <= Shader.orbScale 0.9
  /\ Shader.orbScale 0.1 = 0.3.
Proof.
  assert (H : 0.1 <= 0.9) by lra.
  destruct (orbScale_shrinks_as_fingers_close 0 0 (Vec3 1 0 0) 0.1 0.9 H)
    as (Hm & _ & Hlo & _).
  split; [exact H |]. split; [exact Hm |].
  apply Hlo; lra.
Defined.

(** ** Vertex shader: blast stage *)

Lemma blastStage_off (aProgress uBlast : R) (finalPos : vec3) :
  uBlast <= 0.01 -> Shader.blastStage aProgress uBlast finalPos = (finalPos, 1).
Proof.
  intros H. unfold Shader.blastStage.
  destruct (Rlt_dec 0.01 uBlast) as [H' | _]; [exfalso; lra |].
  f_equal; lra.
Qed.

Lemma blastAlpha_on (aProgress uBlast : R) (finalPos : vec3) :
  0.01 < uBlast ->
  Shader.vBlastAlpha aProgress uBlast finalPos
  = 1 - Glsl.smoothstep 0.4 1 uBlast.
Proof.
  intros H. unfold Shader.vBlastAlpha, Shader.blastStage.
  destruct (Rlt_dec 0.01 uBlast) as [_ | H']; [| exfalso; lra].
  cbn [snd]. replace 1.0 with 1 by lra. reflexivity.
Qed.

Lemma hermite_strict (s t : R) :
  0 <= s -> s < t -> t <= 1 -> Glsl.hermite s < Glsl.hermite t.
Proof.
  intros Hs Hst Ht. unfold Glsl.hermite.
  assert (E : t * t * (3 - 2 * t) - s * s * (3 - 2 * s)
              = (t - s) * (t * (3 - 2 * t) + s * (3 - 2 * s) - 2 * t * s))
    by ring.
  assert (H1 : t <= t * (3 - 2 * t)) by nra.
  assert (H2 : s <= s * (3 - 2 * s)) by nra.
  assert (H3 : 0 < t + s - 2 * t * s).
  { replace (t + s - 2 * t * s) with (t * (1 - s) + s * (1 - t)) by ring.
    assert (0 < t * (1 - s)) by (apply Rmult_lt_0_compat; lra).
    assert (0 <= s * (1 - t)) by (apply Rmult_le_pos; lra).
    lra. }
  assert (0 < (t - s) * (t * (3 - 2 * t) + s * (3 - 2 * s) - 2 * t * s))
    by (apply Rmult_lt_0_compat; lra).
  lra.
Qed.

(** The fade of the blast alpha written out: the Hermite polynomial of the
    part of the blast progress that lies beyond 40%. *)
Lemma blastAlpha_fade (aProgress b : R) (finalPos : vec3) :
  0.4 <= b <= 1 ->
  Shader.vBlastAlpha aProgress b finalPos
  = 1 - Glsl.hermite ((b - 0.4) / 0.6).
Proof.
  intros Hb. rewrite blastAlpha_on by lra.
  rewrite smoothstep_hermite.
  replace (1 - 0.4) with 0.6 by lra.
  rewrite clamp_mid; [reflexivity |].
  split; unfold Rdiv; nra.
Qed.

(** C9: at blast amount 0 the blast stage leaves the position of every
    particle as it is (zero displacement) and the blast alpha multiplier is
    1; at blast amount 1 the multiplier is 0.  The multiplier is still 1 up
    to 40% of the blast progress and fades from there: for a blast amount
    [b] between 0.4 and 1 it is [1 - s * s * (3 - 2 * s)] with
    [s = (b - 0.4) / 0.6], the smoothstep from 0.4 to 1.0, so it is below 1
    as soon as the blast amount exceeds 0.4, one half at 0.7, strictly
    decreasing up to 1 and 0 from 1 on; it always lies within [0,1]. *)
Theorem blast_alpha_endpoints (aProgress : R) (finalPos : vec3) :
  Shader.blastDisplacement aProgress 0 finalPos = Vec3 0 0 0
  /\ fst (Shader.blastStage aProgress 0 finalPos) = finalPos
  /\ Shader.vBlastAlpha aProgress 0 finalPos = 1
  /\ Shader.vBlastAlpha aProgress 1 finalPos = 0
  /\ (forall b, b <= 0.4 -> Shader.vBlastAlpha aProgress b finalPos = 1)
  /\ (forall b, 0 <= Shader.vBlastAlpha aProgress b finalPos <= 1)
  /\ (forall b c, 0.01 < b -> b <= c ->
        Shader.vBlastAlpha aProgress c finalPos
        <= Shader.vBlastAlpha aProgress b finalPos)
  /\ (forall b, 0.4 <= b <= 1 ->
        let s := (b - 0.4) / 0.6 in
        Shader.vBlastAlpha aProgress b finalPos = 1 - s * s * (3 - 2 * s))
  /\ (forall b, 0.4 < b -> Shader.vBlastAlpha aProgress b finalPos < 1)
  /\ Shader.vBlastAlpha aProgress 0.7 finalPos = 0.5
  /\ (forall b c, 0.4 <= b -> b < c -> c <= 1 ->
        Shader.vBlastAlpha aProgress c finalPos
        < Shader.vBlastAlpha aProgress b finalPos)
  /\ (forall b, 1 <= b -> Shader.vBlastAlpha aProgress b finalPos = 0).
Proof.
  assert (Hoff : forall b, b <= 0.01 ->
                   Shader.vBlastAlpha aProgress b finalPos = 1).
  { intros b Hb. unfold Shader.vBlastAlpha.
    now rewrite blastStage_off. }
  split.
  { unfold Shader.blastDisplacement.
    rewrite blastStage_off by lra. cbn [fst]. f_equal; ring. }
  split.
  { rewrite blastStage_off by lra. reflexivity. }
  split; [apply Hoff; lra |].
  split.
  { rewrite blastAlpha_on by lra.
    rewrite smoothstep_high by lra. lra. }
  split.
  { intros b Hb. destruct (Rle_dec b 0.01) as [Hs | Hs].
    - now apply Hoff.
    - rewrite blastAlpha_on by lra.
      rewrite smoothstep_low by lra. lra. }
  split.
  { intros b. destruct (Rle_dec b 0.01) as [Hs | Hs].
    - rewrite Hoff by assumption. lra.
    - rewrite blastAlpha_on by lra.
      pose proof (smoothstep_range 0.4 1 b). lra. }
  split.
  { intros b c Hb Hbc.
    rewrite !blastAlpha_on by lra.
    pose proof (smoothstep_mono 0.4 1 b c ltac:(lra) Hbc). lra. }
  assert (Hstrict : forall b c, 0.4 <= b -> b < c -> c <= 1 ->
            Shader.vBlastAlpha aProgress c finalPos
            < Shader.vBlastAlpha aProgress b finalPos).
  { intros b c Hb Hbc Hc.
    rewrite !blastAlpha_fade by lra.
    assert (Hh : Glsl.hermite ((b - 0.4) / 0.6)
                 < Glsl.hermite ((c - 0.4) / 0.6)).
    { apply hermite_strict; unfold Rdiv; nra. }
    lra. }
  split.
  { intros b Hb s. subst s. rewrite blastAlpha_fade by exact Hb.
    reflexivity. }
  split.
  { intros b Hb. destruct (Rle_dec b 1) as [Hb1 | Hb1].
    - pose proof (Hstrict 0.4 b ltac:(lra) Hb Hb1) as Hlt.
      rewrite (blastAlpha_fade aProgress 0.4) in Hlt by lra.
      replace ((0.4 - 0.4) / 0.6) with 0 in Hlt by lra.
      unfold Glsl.hermite in Hlt. lra.
    - rewrite blastAlpha_on by lra.
      rewrite smoothstep_high by lra. lra. }
  split.
  { rewrite blastAlpha_fade by lra.
    replace ((0.7 - 0.4) / 0.6) with 0.5 by lra.
    unfold Glsl.hermite. lra. }
  split; [exact Hstrict |].
  intros b Hb. rewrite blastAlpha_on by lra.
  rewrite smoothstep_high by lra. lra.
Qed.

Lemma blast_alpha_endpoints_witness :
  0.2 <= 0.4 /\ Shader.vBlastAlpha 0.5 0.2 (Vec3 1 2 3) = 1
  /\ Shader.vBlastAlpha 0.5 1 (Vec3 1 2 3) = 0.
Proof.
  assert (H : 0.2 <= 0.4) by lra.
  destruct (blast_alpha_endpoints 0.5 (Vec3 1 2 3))
    as (_ & _ & _ & H1 & Hlow & _).
  split; [exact H |]. split; [exact (Hlow 0.2 H) | exact H1].
Defined.

(** ** Vertex shader: blend stage *)




Lemma hash_range (n : R) : 0 <= Shader.hash n < 1.
Proof.
  unfold Shader.hash, Glsl.fract, Glsl.floor.
  destruct (base_fp (sin n * 43758.5453123)) as [H0 H1].
  unfold frac_part in H0, H1. lra.
Qed.



Lemma easeMagic_0 : Shader.easeMagic 0 = 0.
Proof. unfold Shader.easeMagic. apply smoothstep_low; lra. Qed.


Lemma rotateXY_0 (p : vec3) : Shader.rotateXY p 0 = p.
Proof.
  unfold Shader.rotateXY. rewrite cos_0, sin_0.
  destruct p as [x y z]; cbn [vx vy vz]. f_equal; ring.
Qed.

Lemma noiseAmp_0 : Shader.noiseAmp 0 = 0.
Proof. unfold Shader.noiseAmp. rewrite Rmult_0_l, sin_0. ring. Qed.


Lemma blend_at_magic_0 (aProgress : R) (butterflyPos magicPos : vec3) :
  Shader.blend aProgress 0 butterflyPos magicPos = butterflyPos.
Proof.
  unfold Shader.blend, Shader.noise, Shader.rotatedButterfly.
  rewrite noiseAmp_0, easeMagic_0, Rmult_0_l, rotateXY_0.
  destruct butterflyPos as [x y z]; destruct magicPos as [x' y' z'].
  unfold vadd, vscale, Glsl.vmix, Glsl.mix; cbn [vx vy vz]. f_equal; ring.
Qed.






(** ** Particle generator *)

Lemma for_S {S : Type} (n : nat) (body : nat -> S -> S) (s : S) :
  for_ (Datatypes.S n) body s = body n (for_ n body s).
Proof.
  unfold for_. rewrite seq_S, fold_left_app. reflexivity.
Qed.

Lemma for_made (tag : Generator.Structure) (k : nat)
      (body : nat -> Generator.Buffers -> Generator.Buffers) :
  (forall i b, Generator.made (body i b) = Generator.made b ++ repeat tag k) ->
  forall n b,
    Generator.made (for_ n body b) = Generator.made b ++ repeat tag (n * k).
Proof.
  intros Hbody n b. induction n as [| n IH].
  - cbn. now rewrite app_nil_r.
  - rewrite for_S, Hbody, IH, <- app_assoc, <- repeat_app.
    do 2 f_equal. lia.
Qed.

Lemma for_wellIndexed (numPoints : Z)
      (body : nat -> Generator.Buffers -> Generator.Buffers) :
  (forall i b, wellIndexed numPoints b -> wellIndexed numPoints (body i b)) ->
  forall n b, wellIndexed numPoints b -> wellIndexed numPoints (for_ n body b).
Proof.
  intros Hbody n b Hb. induction n as [| n IH].
  - exact Hb.
  - rewrite for_S. now apply Hbody.
Qed.

Lemma push_wellIndexed (numPoints : Z) (tag : Generator.Structure) (p : vec3)
      (b : Generator.Buffers) :
  wellIndexed numPoints b -> wellIndexed numPoints (Generator.push numPoints tag p b).
Proof.
  intros (Hi & Hp & Hl). unfold wellIndexed, Generator.push.
  cbn [Generator.idx Generator.prog Generator.made Generator.pts].
  rewrite !last_length. repeat split.
  - lia.
  - rewrite seq_S, map_app, <- Hp, Hi. reflexivity.
  - now rewrite Hl.
Qed.

Lemma push_made (numPoints : Z) (tag : Generator.Structure) (p : vec3)
      (b : Generator.Buffers) :
  Generator.made (Generator.push numPoints tag p b)
  = Generator.made b ++ repeat tag 1.
Proof. reflexivity. Qed.

Lemma wellIndexed_empty (numPoints : Z) : wellIndexed numPoints Generator.empty.
Proof. repeat split. Qed.

Section GeneratorFacts.

Variable numPoints : Z.
Variable scale : R.
Variable random : nat -> R.

Lemma icoLoop_made (b : Generator.Buffers) :
  Generator.made (Generator.icoLoop numPoints scale b)
  = Generator.made b ++ repeat Generator.Icosahedron (nIco numPoints).
Proof.
  unfold Generator.icoLoop, nIco.
  rewrite (for_made Generator.Icosahedron
             (Z.to_nat (Generator.pointsPerEdge numPoints))).
  - reflexivity.
  - intros e b'.
    rewrite (for_made Generator.Icosahedron 1).
    + now rewrite Nat.mul_1_r.
    + intros; apply push_made.
Qed.

Lemma ringLoop_made (b : Generator.Buffers) :
  Generator.made (Generator.ringLoop numPoints scale b)
  = Generator.made b ++ repeat Generator.Rings (nRings numPoints).
Proof.
  unfold Generator.ringLoop, nRings.
  rewrite (for_made Generator.Rings
             (Z.to_nat (Generator.pointsPerRing numPoints))).
  - reflexivity.
  - intros e b'.
    rewrite (for_made Generator.Rings 1).
    + now rewrite Nat.mul_1_r.
    + intros; apply push_made.
Qed.

Lemma spiralLoop_made (b : Generator.Buffers) :
  Generator.made (Generator.spiralLoop numPoints scale b)
  = Generator.made b ++ repeat Generator.Spiral (nSpiral numPoints).
Proof.
  unfold Generator.spiralLoop, nSpiral.
  rewrite (for_made Generator.Spiral 1).
  - now rewrite Nat.mul_1_r.
  - intros; apply push_made.
Qed.

Lemma floatLoop_made (b : Generator.Buffers) :
  Generator.made (Generator.floatLoop numPoints scale random b)
  = Generator.made b
    ++ repeat Generator.Floating (Z.to_nat (numPoints - Generator.idx b)).
Proof.
  unfold Generator.floatLoop.
  rewrite (for_made Generator.Floating 1).
  - now rewrite Nat.mul_1_r.
  - intros; apply push_made.
Qed.

Lemma pushLoop_wellIndexed (tag : Generator.Structure) (f : nat -> vec3)
      (n : nat) (b : Generator.Buffers) :
  wellIndexed numPoints b ->
  wellIndexed numPoints
    (for_ n (fun i b => Generator.push numPoints tag (f i) b) b).
Proof.
  apply for_wellIndexed. intros i b' Hb'. now apply push_wellIndexed.
Qed.

Lemma icoLoop_wellIndexed (b : Generator.Buffers) :
  wellIndexed numPoints b ->
  wellIndexed numPoints (Generator.icoLoop numPoints scale b).
Proof.
  apply for_wellIndexed. intros e b' Hb'. now apply pushLoop_wellIndexed.
Qed.

Lemma ringLoop_wellIndexed (b : Generator.Buffers) :
  wellIndexed numPoints b ->
  wellIndexed numPoints (Generator.ringLoop numPoints scale b).
Proof.
  apply for_wellIndexed. intros e b' Hb'. now apply pushLoop_wellIndexed.
Qed.

Lemma spiralLoop_wellIndexed (b : Generator.Buffers) :
  wellIndexed numPoints b ->
  wellIndexed numPoints (Generator.spiralLoop numPoints scale b).
Proof. apply pushLoop_wellIndexed. Qed.

Lemma floatLoop_wellIndexed (b : Generator.Buffers) :
  wellIndexed numPoints b ->
  wellIndexed numPoints (Generator.floatLoop numPoints scale random b).
Proof. apply pushLoop_wellIndexed. Qed.

Lemma generate_wellIndexed :
  wellIndexed numPoints (Generator.generate numPoints scale random).
Proof.
  apply floatLoop_wellIndexed, spiralLoop_wellIndexed, ringLoop_wellIndexed,
    icoLoop_wellIndexed, wellIndexed_empty.
Qed.

(** The ghost array of the generator: four runs, in generation order. *)
Lemma generate_made :
  Generator.made (Generator.generate numPoints scale random)
  = repeat Generator.Icosahedron (nIco numPoints)
    ++ repeat Generator.Rings (nRings numPoints)
    ++ repeat Generator.Spiral (nSpiral numPoints)
    ++ repeat Generator.Floating (nFloat numPoints).
Proof.
  unfold Generator.generate.
  set (b3 := Generator.spiralLoop numPoints scale
               (Generator.ringLoop numPoints scale
                  (Generator.icoLoop numPoints scale Generator.empty))).
  assert (Hm : Generator.made b3
               = repeat Generator.Icosahedron (nIco numPoints)
                 ++ repeat Generator.Rings (nRings numPoints)
                 ++ repeat Generator.Spiral (nSpiral numPoints)).
  { subst b3. rewrite spiralLoop_made, ringLoop_made, icoLoop_made.
    cbn [Generator.made Generator.empty app]. now rewrite <- app_assoc. }
  assert (Hw : wellIndexed numPoints b3).
  { subst b3.
    apply spiralLoop_wellIndexed, ringLoop_wellIndexed, icoLoop_wellIndexed,
      wellIndexed_empty. }
  rewrite floatLoop_made, Hm.
  destruct Hw as (Hi & _ & _). rewrite Hi, Hm.
  rewrite !length_app, !repeat_length.
  unfold nFloat. rewrite <- !app_assoc.
  do 4 f_equal. lia.
Qed.

Lemma countOf_generate :
  let b := Generator.generate numPoints scale random in
  Generator.countOf Generator.Icosahedron b = (nIco numPoints)
  /\ Generator.countOf Generator.Rings b = (nRings numPoints)
  /\ Generator.countOf Generator.Spiral b = (nSpiral numPoints)
  /\ Generator.countOf Generator.Floating b = (nFloat numPoints).
Proof.
  intros b; subst b. unfold Generator.countOf. rewrite generate_made.
  rewrite !count_occ_app.
  repeat split;
    repeat (first [ rewrite count_occ_repeat_eq by reflexivity
                  | rewrite count_occ_repeat_neq by discriminate ]);
    lia.
Qed.

(** Integer bounds on the four counts. *)
Lemma counts_bounds :
  (0 <= numPoints)%Z ->
  (5 * Z.of_nat (nIco numPoints) <= numPoints < 5 * Z.of_nat (nIco numPoints) + 150)%Z
  /\ (10 * Z.of_nat (nRings numPoints) <= 3 * numPoints < 10 * Z.of_nat (nRings numPoints) + 30)%Z
  /\ (10 * Z.of_nat (nSpiral numPoints) <= 3 * numPoints < 10 * Z.of_nat (nSpiral numPoints) + 10)%Z
  /\ (Z.of_nat ((nIco numPoints) + (nRings numPoints) + (nSpiral numPoints) + (nFloat numPoints)) = numPoints)%Z.
Proof.
  intros HN.
  unfold nFloat, nIco, nRings, nSpiral,
    Generator.pointsPerEdge, Generator.icoPoints, Generator.pointsPerRing,
    Generator.ringPoints, Generator.spiralPoints, Generator.floorMul.
  change (Z.of_nat (length Generator.icoEdges)) with 30%Z.
  set (x := (numPoints * 2 / 10)%Z).
  set (y := (numPoints * 3 / 10)%Z).
  assert (Hx : (10 * x <= numPoints * 2 < 10 * x + 10)%Z).
  { subst x. pose proof (Z.div_mod (numPoints * 2) 10 ltac:(lia)).
    pose proof (Z.mod_pos_bound (numPoints * 2) 10 ltac:(lia)). lia. }
  assert (Hy : (10 * y <= numPoints * 3 < 10 * y + 10)%Z).
  { subst y. pose proof (Z.div_mod (numPoints * 3) 10 ltac:(lia)).
    pose proof (Z.mod_pos_bound (numPoints * 3) 10 ltac:(lia)). lia. }
  assert (Ha : (30 * (x / 30) <= x < 30 * (x / 30) + 30)%Z).
  { pose proof (Z.div_mod x 30 ltac:(lia)).
    pose proof (Z.mod_pos_bound x 30 ltac:(lia)). lia. }
  assert (Hr : (3 * (y / 3) <= y < 3 * (y / 3) + 3)%Z).
  { pose proof (Z.div_mod y 3 ltac:(lia)).
    pose proof (Z.mod_pos_bound y 3 ltac:(lia)). lia. }
  assert (0 <= x / 30)%Z by (apply Z.div_pos; lia).
  assert (0 <= y / 3)%Z by (apply Z.div_pos; lia).
  lia.
Qed.

End GeneratorFacts.

Lemma nth_run (A : Type) (a d : A) (m k : nat) (l : list A) :
  nth k (repeat a m ++ l) d = if (k <? m)%nat then a else nth (k - m) l d.
Proof.
  destruct (Nat.ltb_spec k m) as [Hlt | Hge].
  - rewrite app_nth1 by (now rewrite repeat_length).
    now apply nth_repeat_lt.
  - rewrite app_nth2 by (rewrite repeat_length; lia).
    now rewrite repeat_length.
Qed.

(** The loop that pushed the [k]-th particle, from the loop bounds. *)
Lemma madeAt_generate (numPoints : Z) (scale : R) (random : nat -> R) (k : nat) :
  (k < nIco numPoints + nRings numPoints + nSpiral numPoints
       + nFloat numPoints)%nat ->
  madeAt (Generator.generate numPoints scale random) k
  = if (k <? nIco numPoints)%nat then Generator.Icosahedron
    else if (k <? nIco numPoints + nRings numPoints)%nat then Generator.Rings
    else if (k <? nIco numPoints + nRings numPoints + nSpiral numPoints)%nat
         then Generator.Spiral
    else Generator.Floating.
Proof.
  intros Hk. unfold madeAt. rewrite generate_made, !nth_run.
  destruct (Nat.ltb_spec k (nIco numPoints)) as [H1 | H1]; [reflexivity |].
  destruct (Nat.ltb_spec k (nIco numPoints + nRings numPoints)) as [H2 | H2].
  { destruct (Nat.ltb_spec (k - nIco numPoints) (nRings numPoints));
      [reflexivity | lia]. }
  destruct (Nat.ltb_spec (k - nIco numPoints) (nRings numPoints)); [lia |].
  destruct (Nat.ltb_spec k (nIco numPoints + nRings numPoints
                            + nSpiral numPoints)) as [H3 | H3].
  { destruct (Nat.ltb_spec (k - nIco numPoints - nRings numPoints)
                           (nSpiral numPoints)); [reflexivity | lia]. }
  destruct (Nat.ltb_spec (k - nIco numPoints - nRings numPoints)
                         (nSpiral numPoints)); [lia |].
  rewrite app_nil_r || idtac.
  apply nth_repeat_lt. lia.
Qed.

Lemma generate_length (numPoints : Z) (scale : R) (random : nat -> R) :
  (0 <= numPoints)%Z ->
  let b := Generator.generate numPoints scale random in
  length (Generator.made b) = Z.to_nat numPoints
  /\ length (Generator.prog b) = Z.to_nat numPoints
  /\ length (Generator.pts b) = Z.to_nat numPoints.
Proof.
  intros HN b.
  assert (Hm : length (Generator.made b) = Z.to_nat numPoints).
  { subst b. rewrite generate_made, !length_app, !repeat_length.
    pose proof (counts_bounds numPoints HN) as (_ & _ & _ & Hsum). lia. }
  destruct (generate_wellIndexed numPoints scale random) as (_ & Hp & Hl).
  fold b in Hp, Hl.
  repeat split; [exact Hm | | lia].
  rewrite Hp, length_map, length_seq. exact Hm.
Qed.

Lemma nth_map_seq0 (A : Type) (f : nat -> A) (d : A) (n k : nat) :
  (k < n)%nat -> nth k (map f (seq 0 n)) d = f k.
Proof.
  intros Hk.
  rewrite (nth_indep _ d (f 0%nat)) by (now rewrite length_map, length_seq).
  rewrite (map_nth f), seq_nth by assumption. reflexivity.
Qed.

(** [prog[k] = k / numPoints]. *)
Lemma progressAt_generate (numPoints : Z) (scale : R) (random : nat -> R)
      (k : nat) :
  (0 <= numPoints)%Z -> (k < Z.to_nat numPoints)%nat ->
  progressAt (Generator.generate numPoints scale random) k
  = IZR (Z.of_nat k) / IZR numPoints.
Proof.
  intros HN Hk. unfold progressAt.
  destruct (generate_length numPoints scale random HN) as (Hm & _ & _).
  destruct (generate_wellIndexed numPoints scale random) as (_ & Hp & _).
  rewrite Hp, Hm. now apply nth_map_seq0.
Qed.

Lemma progress_unit (numPoints : Z) (k : nat) :
  (k < Z.to_nat numPoints)%nat ->
  0 <= IZR (Z.of_nat k) / IZR numPoints < 1.
Proof.
  intros Hk.
  assert (HN : (0 < numPoints)%Z) by lia.
  assert (HNr : 0 < IZR numPoints) by (now apply IZR_lt).
  assert (Hk0 : 0 <= IZR (Z.of_nat k)) by (apply IZR_le; lia).
  assert (HkN : IZR (Z.of_nat k) < IZR numPoints) by (apply IZR_lt; lia).
  split.
  - apply Rmult_le_pos; [assumption | left; now apply Rinv_0_lt_compat].
  - apply (Rmult_lt_reg_r (IZR numPoints)); [assumption |].
    unfold Rdiv. rewrite Rmult_assoc, Rinv_l by lra. lra.
Qed.

Lemma progress_increasing (numPoints : Z) (j k : nat) :
  (0 < numPoints)%Z -> (j < k)%nat ->
  IZR (Z.of_nat j) / IZR numPoints < IZR (Z.of_nat k) / IZR numPoints.
Proof.
  intros HN Hjk.
  assert (HNr : 0 < IZR numPoints) by (now apply IZR_lt).
  unfold Rdiv. apply Rmult_lt_compat_r.
  - now apply Rinv_0_lt_compat.
  - apply IZR_lt; lia.
Qed.

(** [floorMul] is the floor of the real product, for the two literals of the
    generator. *)
Lemma floorMul_real (n num : Z) :
  IZR (Generator.floorMul n num 10) = Glsl.floor (IZR n * (IZR num / 10)).
Proof.
  unfold Generator.floorMul, Glsl.floor. f_equal.
  apply Int_part_spec.
  pose proof (Z.div_mod (n * num) 10 ltac:(lia)) as Hd.
  pose proof (Z.mod_pos_bound (n * num) 10 ltac:(lia)) as Hm.
  assert (H1 : (10 * (n * num / 10) <= n * num)%Z) by lia.
  assert (H2 : (n * num < 10 * (n * num / 10) + 10)%Z) by lia.
  apply IZR_le in H1. apply IZR_lt in H2.
  repeat rewrite ?plus_IZR, ?mult_IZR in H1.
  repeat rewrite ?plus_IZR, ?mult_IZR in H2.
  split; lra.
Qed.

Lemma icoPoints_real (numPoints : Z) :
  IZR (Generator.icoPoints numPoints) = Glsl.floor (IZR numPoints * 0.2).
Proof.
  unfold Generator.icoPoints. rewrite floorMul_real.
  f_equal; lra.
Qed.

Lemma ringPoints_real (numPoints : Z) :
  IZR (Generator.ringPoints numPoints) = Glsl.floor (IZR numPoints * 0.3).
Proof.
  unfold Generator.ringPoints. rewrite floorMul_real.
  f_equal; lra.
Qed.

Lemma counts_real_bounds (numPoints : Z) :
  (0 <= numPoints)%Z ->
  (0.2 * IZR numPoints - 30 < INR (nIco numPoints) <= 0.2 * IZR numPoints)
  /\ (0.3 * IZR numPoints - 3 < INR (nRings numPoints) <= 0.3 * IZR numPoints)
  /\ (0.3 * IZR numPoints - 1 < INR (nSpiral numPoints) <= 0.3 * IZR numPoints)
  /\ (0.2 * IZR numPoints <= INR (nFloat numPoints) < 0.2 * IZR numPoints + 34).
Proof.
  intros HN.
  destruct (counts_bounds numPoints HN) as ([Ha1 Ha2] & [Hr1 Hr2] & [Hs1 Hs2] & Hsum).
  rewrite !INR_IZR_INZ.
  set (a := Z.of_nat (nIco numPoints)) in *.
  set (r := Z.of_nat (nRings numPoints)) in *.
  set (s := Z.of_nat (nSpiral numPoints)) in *.
  assert (Hf : (Z.of_nat (nFloat numPoints) = numPoints - a - r - s)%Z)
    by (subst a r s; lia).
  rewrite Hf, !minus_IZR.
  apply IZR_le in Ha1, Hr1, Hs1. apply IZR_lt in Ha2, Hr2, Hs2.
  rewrite ?plus_IZR, ?mult_IZR in *.
  repeat split; lra.
Qed.

(** C3 at its failing input, the source's 40000 particles: the four counts
    are 7980, 12000, 12000 and 8020.  The icosahedron loop pushes 30 edges of
    floor(8000 / 30) = 266 points and drops the remainder of 20, which the
    floating loop picks up; both counts are 20 away from their target of
    8000 (20% of 40000), not within rounding of it. *)
Theorem icosahedron_count_off_target :
  Z.of_nat (Generator.countOf Generator.Icosahedron generated) = 7980%Z
  /\ Z.of_nat (Generator.countOf Generator.Rings generated) = 12000%Z
  /\ Z.of_nat (Generator.countOf Generator.Spiral generated) = 12000%Z
  /\ Z.of_nat (Generator.countOf Generator.Floating generated) = 8020%Z
  /\ ~ withinRounding (Generator.countOf Generator.Icosahedron generated)
                      0.2 Generator.numPoints_src
  /\ ~ withinRounding (Generator.countOf Generator.Floating generated)
                      0.2 Generator.numPoints_src.
Proof.
  unfold generated.
  destruct (countOf_generate Generator.numPoints_src scale_src sampleRandom)
    as (HI & HR & HS & HF).
  assert (EI : Z.of_nat (nIco Generator.numPoints_src) = 7980%Z)
    by (vm_compute; reflexivity).
  assert (ER : Z.of_nat (nRings Generator.numPoints_src) = 12000%Z)
    by (vm_compute; reflexivity).
  assert (ES : Z.of_nat (nSpiral Generator.numPoints_src) = 12000%Z)
    by (vm_compute; reflexivity).
  assert (EF : Z.of_nat (nFloat Generator.numPoints_src) = 8020%Z)
    by (vm_compute; reflexivity).
  rewrite HI, HR, HS, HF.
  split; [exact EI |]. split; [exact ER |]. split; [exact ES |].
  split; [exact EF |].
  unfold withinRounding. rewrite !INR_IZR_INZ, EI, EF.
  unfold Generator.numPoints_src.
  split; unfold Rabs; destruct (Rcase_abs _); lra.
Qed.

(** What the generator does guarantee, for any particle count N >= 0: the
    four counts sum to exactly N; the icosahedron count is at most 20% of N
    and less than 30 below it, the ring count at most 30% of N and less than
    3 below it, the spiral count is 30% of N rounded down, and the floating
    count takes the rest, at least 20% of N and less than 34 above it; every
    progress value lies in [0,1) and the values increase strictly in
    generation order. *)
Lemma generator_counts_and_progress
    (numPoints : Z) (scale : R) (random : nat -> R)
    (HN : (0 <= numPoints)%Z) :
  let b := Generator.generate numPoints scale random in
  let cI := Generator.countOf Generator.Icosahedron b in
  let cR := Generator.countOf Generator.Rings b in
  let cS := Generator.countOf Generator.Spiral b in
  let cF := Generator.countOf Generator.Floating b in
  Z.of_nat (cI + cR + cS + cF) = numPoints
  /\ length (Generator.prog b) = Z.to_nat numPoints
  /\ (0.2 * IZR numPoints - 30 < INR cI <= 0.2 * IZR numPoints)
  /\ (0.3 * IZR numPoints - 3 < INR cR <= 0.3 * IZR numPoints)
  /\ (0.3 * IZR numPoints - 1 < INR cS <= 0.3 * IZR numPoints)
  /\ (0.2 * IZR numPoints <= INR cF < 0.2 * IZR numPoints + 34)
  /\ (forall k, (k < Z.to_nat numPoints)%nat -> 0 <= progressAt b k < 1)
  /\ (forall j k, (j < k)%nat -> (k < Z.to_nat numPoints)%nat ->
        progressAt b j < progressAt b k)
  /\ (forall j k, (j <= k)%nat -> (k < Z.to_nat numPoints)%nat ->
        progressAt b j <= progressAt b k).
Proof.
  intros b cI cR cS cF.
  destruct (countOf_generate numPoints scale random) as (HI & HR & HS & HF).
  fold b in HI, HR, HS, HF. fold cI in HI. fold cR in HR. fold cS in HS.
  fold cF in HF. rewrite HI, HR, HS, HF.
  destruct (counts_bounds numPoints HN) as (_ & _ & _ & Hsum).
  destruct (counts_real_bounds numPoints HN) as (Ba & Br & Bs & Bf).
  destruct (generate_length numPoints scale random HN) as (_ & Hlen & _).
  fold b in Hlen.
  assert (Hstrict : forall j k, (j < k)%nat -> (k < Z.to_nat numPoints)%nat ->
                      progressAt b j < progressAt b k).
  { intros j k Hjk Hk. subst b.
    rewrite !progressAt_generate by (assumption || lia).
    apply progress_increasing; lia. }
  repeat split; try assumption; try lra.
  - subst b. rewrite progressAt_generate by assumption.
    now apply progress_unit.
  - subst b. rewrite progressAt_generate by assumption.
    now apply progress_unit.
  - intros j k Hjk Hk.
    destruct (Nat.eq_dec j k) as [-> | Hne]; [lra |].
    left. apply Hstrict; lia.
Qed.

Lemma generated_counts_sum :
  (0 <= Generator.numPoints_src)%Z
  /\ Z.of_nat (Generator.countOf Generator.Icosahedron generated
               + Generator.countOf Generator.Rings generated
               + Generator.countOf Generator.Spiral generated
               + Generator.countOf Generator.Floating generated)
     = Generator.numPoints_src
  /\ length (Generator.prog generated) = Z.to_nat Generator.numPoints_src.
Proof.
  assert (HN : (0 <= Generator.numPoints_src)%Z) by (unfold Generator.numPoints_src; lia).
  destruct (generator_counts_and_progress Generator.numPoints_src scale_src
              sampleRandom HN) as (Hsum & Hlen & _).
  split; [exact HN |]. split; [exact Hsum | exact Hlen].
Defined.

(** ** Generator against the shader's thresholds *)

Lemma structureTag_thresholds (p : R) :
  Shader.structureTag p
  = if Rlt_dec p 0.2 then Generator.Icosahedron
    else if Rlt_dec p 0.5 then Generator.Rings
    else if Rlt_dec p 0.8 then Generator.Spiral
    else Generator.Floating.
Proof.
  unfold Shader.structureTag, Shader.structure.
  destruct (Rlt_dec p 0.2); [| destruct (Rlt_dec p 0.5);
                               [| destruct (Rlt_dec p 0.8)]];
    repeat match goal with
    | |- context [Rlt_dec ?a ?b] => destruct (Rlt_dec a b); try (exfalso; lra)
    end; reflexivity.
Qed.

Lemma generated_counts :
  nIco Generator.numPoints_src = Z.to_nat 7980
  /\ nRings Generator.numPoints_src = Z.to_nat 12000
  /\ nSpiral Generator.numPoints_src = Z.to_nat 12000
  /\ nFloat Generator.numPoints_src = Z.to_nat 8020.
Proof. repeat split; vm_compute; reflexivity. Qed.

Lemma generated_progress (k : nat) :
  (k < Z.to_nat 40000)%nat ->
  progressAt generated k = IZR (Z.of_nat k) / 40000.
Proof.
  intros Hk. unfold generated.
  rewrite progressAt_generate; unfold Generator.numPoints_src; [reflexivity | lia | exact Hk].
Qed.

(** Which loop pushed a particle of the source's buffers, and which branch
    the shader takes for it, both by the particle's index. *)
Lemma generated_made_and_tag (k : nat) :
  (k < Z.to_nat 40000)%nat ->
  madeAt generated k
  = (if (Z.of_nat k <? 7980)%Z then Generator.Icosahedron
     else if (Z.of_nat k <? 19980)%Z then Generator.Rings
     else if (Z.of_nat k <? 31980)%Z then Generator.Spiral
     else Generator.Floating)
  /\ Shader.structureTag (progressAt generated k)
     = (if (Z.of_nat k <? 8000)%Z then Generator.Icosahedron
        else if (Z.of_nat k <? 20000)%Z then Generator.Rings
        else if (Z.of_nat k <? 32000)%Z then Generator.Spiral
        else Generator.Floating).
Proof.
  intros Hk. split.
  - unfold generated. destruct generated_counts as (EI & ER & ES & EF).
    rewrite madeAt_generate by (rewrite EI, ER, ES, EF; lia).
    rewrite EI, ER, ES.
    repeat match goal with
    | |- context [(?a <? ?b)%nat] => destruct (Nat.ltb_spec a b)
    | |- context [(?a <? ?b)%Z] => destruct (Z.ltb_spec a b)
    end; try reflexivity; exfalso; lia.
  - rewrite structureTag_thresholds, generated_progress by exact Hk.
    set (z := Z.of_nat k).
    assert (Hz : forall m : Z, IZR z < IZR m <-> (z < m)%Z).
    { intros m; split; [apply lt_IZR | apply IZR_lt]. }
    pose proof (Hz 8000%Z) as H1. pose proof (Hz 20000%Z) as H2.
    pose proof (Hz 32000%Z) as H3.
    repeat match goal with
    | |- context [Rlt_dec ?a ?b] => destruct (Rlt_dec a b)
    | |- context [(?a <? ?b)%Z] => destruct (Z.ltb_spec a b)
    end; try reflexivity; exfalso;
      repeat match goal with
      | H : (_ < _)%Z |- _ => apply IZR_lt in H
      | H : (_ <= _)%Z |- _ => apply IZR_le in H
      end; lra.
Qed.

(** The generated and the thresholded sub-structure agree for all particles
    but 60: the first 20 pushed by each of the ring, spiral and floating
    loops. *)
Lemma generated_agrees_except_sixty (k : nat) :
  (k < Z.to_nat 40000)%nat ->
  madeAt generated k = Shader.structureTag (progressAt generated k)
  <-> ~ ((7980 <= Z.of_nat k < 8000)%Z
         \/ (19980 <= Z.of_nat k < 20000)%Z
         \/ (31980 <= Z.of_nat k < 32000)%Z).
Proof.
  intros Hk. destruct (generated_made_and_tag k Hk) as [-> ->].
  repeat match goal with
  | |- context [(?a <? ?b)%Z] => destruct (Z.ltb_spec a b)
  end; split; intros; try lia; try discriminate; try reflexivity;
    exfalso; lia.
Qed.

(** C2 at its failing input: particle 7980 of the source's 40000 is the
    first point of the first ring, its progress is 7980/40000 = 0.1995, and
    the shader's threshold [aProgress < 0.2] selects the icosahedron for it;
    the sub-structure it was generated in is not the one its progress
    selects. *)
Theorem ring_particle_read_as_icosahedron :
  let k := Z.to_nat 7980 in
  madeAt generated k = Generator.Rings
  /\ progressAt generated k = 0.1995
  /\ Shader.structure (progressAt generated k) = 0
  /\ Shader.structureTag (progressAt generated k) = Generator.Icosahedron
  /\ madeAt generated k <> Shader.structureTag (progressAt generated k).
Proof.
  intros k.
  assert (Hk : (k < Z.to_nat 40000)%nat) by (subst k; lia).
  destruct (generated_made_and_tag k Hk) as [Hm Ht].
  assert (Hz : Z.of_nat k = 7980%Z) by (subst k; lia).
  rewrite Hz in Hm, Ht.
  change (7980 <? 7980)%Z with false in Hm.
  change (7980 <? 19980)%Z with true in Hm.
  change (7980 <? 8000)%Z with true in Ht.
  cbv iota in Hm, Ht.
  assert (Hp : progressAt generated k = 0.1995).
  { rewrite generated_progress by exact Hk. rewrite Hz. lra. }
  split; [exact Hm |]. split; [exact Hp |].
  split; [| split; [exact Ht |]].
  - rewrite Hp. unfold Shader.structure.
    destruct (Rlt_dec 0.1995 0.2); [lra | exfalso; lra].
  - rewrite Hm, Ht. discriminate.
Qed.

(** * Further properties of the code *)

(** ** Gesture extractor: fingertips, positions, finger counts, roll *)

Lemma fingerTipOf_direction (landmarks : list HandController.Landmark)
      (idx : nat) :
  let ft := HandController.fingerTipOf landmarks idx in
  (dirX ft * dirX ft + dirY ft * dirY ft = 1)
  \/ (dirX ft = 0 /\ dirY ft = 0).
Proof.
  unfold HandController.fingerTipOf. cbn [dirX dirY].
  set (dX := HandController.lx (HandController.at_ landmarks idx)
             - HandController.palmCenterX landmarks).
  set (dY := HandController.ly (HandController.at_ landmarks idx)
             - HandController.palmCenterY landmarks).
  set (len := sqrt (dX * dX + dY * dY)).
  destruct (Rlt_dec 0.001 len) as [Hl | Hl]; [left | right; split; reflexivity].
  assert (Hsq : len * len = dX * dX + dY * dY).
  { apply sqrt_sqrt. nra. }
  assert (Hne : len <> 0) by lra.
  replace (- dX / len * (- dX / len) + dY / len * (dY / len))
    with ((dX * dX + dY * dY) / (len * len)) by (field; exact Hne).
  rewrite <- Hsq. field. exact Hne.
Qed.

Lemma palmCentre_code (landmarks : list HandController.Landmark) :
  palmCentre landmarks
  = (HandController.palmCenterX landmarks,
     HandController.palmCenterY landmarks).
Proof.
  unfold palmCentre, mean, palmLandmarks, HandController.palmCenterX,
    HandController.palmCenterY.
  cbn [map fold_right length].
  replace (INR 6) with 6 by (cbn; lra).
  f_equal; lra.
Qed.

(** X1: for a frame of 21 landmarks the extracted state carries exactly five
    fingertips, thumb to pinky.  Entry [k] is made from the tip landmark of
    finger [k]: its position is the landmark's, mirrored in x, and its
    direction is the unit vector from the palm center (the mean of the wrist
    and the five finger bases) to the tip, mirrored in x, when the tip is
    more than 0.001 away from the palm center in the image, and the zero
    vector otherwise. *)
Theorem fingertips_point_away_from_palm
    (landmarks : list HandController.Landmark)
    (H21 : length landmarks = 21%nat) :
  let hs := HandController.extract landmarks in
  let c := palmCentre landmarks in
  length (fingerTips hs) = 5%nat
  /\ forall k idx,
       nth_error tipLandmarks k = Some idx ->
       exists tip ft,
         nth_error landmarks idx = Some tip
         /\ nth_error (fingerTips hs) k = Some ft
         /\ tipX ft = 1 - HandController.lx tip
         /\ tipY ft = HandController.ly tip
         /\ let ux := HandController.lx tip - fst c in
            let uy := HandController.ly tip - snd c in
            let d := sqrt (ux * ux + uy * uy) in
            (0.001 < d ->
             dirX ft = - (ux / d) /\ dirY ft = uy / d
             /\ dirX ft * dirX ft + dirY ft * dirY ft = 1)
            /\ (d <= 0.001 -> dirX ft = 0 /\ dirY ft = 0).
Proof.
  intros hs c. subst hs c. rewrite palmCentre_code. cbn [fst snd].
  split; [reflexivity |].
  intros k idx Hk.
  assert (Hidx : (idx < length landmarks)%nat
                 /\ nth_error (fingerTips (HandController.extract landmarks)) k
                    = Some (HandController.fingerTipOf landmarks idx)).
  { unfold tipLandmarks in Hk. rewrite H21.
    cbn [fingerTips HandController.extract HandController.fingerTipIndices map].
    do 5 (destruct k as [| k];
          [cbn in Hk; injection Hk as <-; split; [lia | reflexivity] |]).
    destruct k; discriminate. }
  destruct Hidx as [Hlt Hft].
  exists (HandController.at_ landmarks idx),
         (HandController.fingerTipOf landmarks idx).
  split; [unfold HandController.at_; now apply nth_error_nth' |].
  split; [exact Hft |].
  unfold HandController.fingerTipOf. cbn [tipX tipY dirX dirY]. cbv zeta.
  set (ux := HandController.lx (HandController.at_ landmarks idx)
             - HandController.palmCenterX landmarks).
  set (uy := HandController.ly (HandController.at_ landmarks idx)
             - HandController.palmCenterY landmarks).
  set (d := sqrt (ux * ux + uy * uy)).
  split; [lra |]. split; [reflexivity |].
  destruct (Rlt_dec 0.001 d) as [Hd | Hd].
  - split; [| intros; exfalso; lra].
    intros _.
    assert (Hne : d <> 0) by lra.
    assert (Hsq : d * d = ux * ux + uy * uy) by (apply sqrt_sqrt; nra).
    split; [field; exact Hne |]. split; [reflexivity |].
    replace (- ux / d * (- ux / d) + uy / d * (uy / d))
      with ((ux * ux + uy * uy) / (d * d)) by (field; exact Hne).
    rewrite <- Hsq. field. exact Hne.
  - split; [intros; exfalso; lra |]. intros _. split; reflexivity.
Qed.

Lemma fingertips_point_away_from_palm_witness :
  length deepFist = 21%nat
  /\ exists tip ft,
       nth_error deepFist 8 = Some tip
       /\ nth_error (fingerTips (HandController.extract deepFist)) 1 = Some ft
       /\ tipX ft = 1 - HandController.lx tip.
Proof.
  split; [reflexivity |].
  destruct (proj2 (fingertips_point_away_from_palm deepFist eq_refl) 1%nat
              8%nat eq_refl) as (tip & ft & H1 & H2 & H3 & _).
  exists tip, ft. repeat split; assumption.
Defined.

Lemma at_inFrame (landmarks : list HandController.Landmark) (i : nat) :
  Forall inFrame landmarks -> inFrame (HandController.at_ landmarks i).
Proof.
  intros Hall. unfold HandController.at_.
  destruct (Nat.lt_ge_cases i (length landmarks)) as [Hi | Hi].
  - rewrite Forall_forall in Hall. apply Hall, nth_In, Hi.
  - rewrite nth_overflow by exact Hi.
    unfold inFrame, HandController.origin; cbn. lra.
Qed.

(** X2: when all 21 landmarks of a frame lie inside the camera frame
    ([0,1] in x and y), so do the mirrored pinch point, the mirrored palm
    center and every mirrored fingertip position of the extracted state. *)
Theorem extract_stays_in_frame
    (landmarks : list HandController.Landmark)
    (H21 : length landmarks = 21%nat)
    (Hin : Forall inFrame landmarks) :
  let hs := HandController.extract landmarks in
  unit (hx hs) /\ unit (hy hs) /\ unit (palmX hs) /\ unit (palmY hs)
  /\ Forall (fun ft => unit (tipX ft) /\ unit (tipY ft)) (fingerTips hs).
Proof.
  intros hs; subst hs.
  cbn [hx hy palmX palmY fingerTips HandController.extract].
  unfold HandController.palmCenterX, HandController.palmCenterY, unit.
  pose proof (at_inFrame landmarks 0 Hin) as [? ?].
  pose proof (at_inFrame landmarks 1 Hin) as [? ?].
  pose proof (at_inFrame landmarks 4 Hin) as [? ?].
  pose proof (at_inFrame landmarks 5 Hin) as [? ?].
  pose proof (at_inFrame landmarks 8 Hin) as [? ?].
  pose proof (at_inFrame landmarks 9 Hin) as [? ?].
  pose proof (at_inFrame landmarks 13 Hin) as [? ?].
  pose proof (at_inFrame landmarks 17 Hin) as [? ?].
  repeat split; try lra.
  unfold HandController.fingerTipIndices. cbn [map].
  repeat (apply Forall_cons;
          [unfold HandController.fingerTipOf; cbn [tipX tipY];
           match goal with
           | |- context [HandController.at_ landmarks ?i] =>
               pose proof (at_inFrame landmarks i Hin) as [? ?]
           end; lra |]).
  apply Forall_nil.
Qed.

Lemma fistHand_inFrame : Forall inFrame fistHand.
Proof.
  unfold fistHand.
  repeat (apply Forall_cons; [unfold inFrame; cbn; lra |]).
  apply Forall_nil.
Qed.

Lemma extract_stays_in_frame_witness :
  length fistHand = 21%nat
  /\ unit (hx (HandController.extract fistHand))
  /\ unit (palmY (HandController.extract fistHand)).
Proof.
  destruct (extract_stays_in_frame fistHand eq_refl fistHand_inFrame)
    as (Hx & _ & _ & Hp & _).
  split; [reflexivity |]. split; [exact Hx | exact Hp].
Defined.

Lemma countFinger_extended (landmarks : list HandController.Landmark)
      (acc : nat * nat) (i : nat) :
  fst (HandController.countFinger landmarks acc i)
  = (fst acc
     + if extended landmarks (nth i HandController.fingerTipIndices 0%nat,
                              nth i HandController.fingerMCPIndices 0%nat)
       then 1 else 0)%nat.
Proof.
  destruct acc as [ext cur].
  unfold HandController.countFinger, extended, Rltb; cbn [fst snd].
  rewrite !distToWrist_planeDist.
  destruct (Rlt_dec _ _); [cbn [fst]; lia |].
  destruct (Rlt_dec _ _); cbn [fst]; lia.
Qed.

Lemma extended_not_curled (landmarks : list HandController.Landmark)
      (f : nat * nat) :
  extended landmarks f = true -> curled landmarks f = false.
Proof.
  unfold extended, curled. intros He.
  apply Rltb_true in He. apply Rltb_false.
  pose proof (planeDist_nonneg
                (HandController.at_ landmarks (snd f))
                (HandController.at_ landmarks 0)).
  lra.
Qed.

(** X3: for a frame of 21 landmarks the finger loop counts, over the four
    non-thumb fingers, the extended ones (tip farther from the wrist than
    1.2 times the finger base) and the curled ones (tip nearer than 0.9
    times the finger base), both by distances in the image ([planeDist]: x
    and y only, the depth is left out); no finger is counted as both, so the
    two counters never add up to more than 4. *)
Theorem finger_counts_exclusive (landmarks : list HandController.Landmark)
    (H21 : length landmarks = 21%nat) :
  let '(fingersExtended, fingersCurled) :=
    HandController.countFingers landmarks in
  fingersExtended = length (filter (extended landmarks) nonThumbFingers)
  /\ fingersCurled = length (filter (curled landmarks) nonThumbFingers)
  /\ (fingersExtended + fingersCurled <= 4)%nat
  /\ (forall f, extended landmarks f = true -> curled landmarks f = false).
Proof.
  pose proof (countFingers_curledCount landmarks) as Hc.
  assert (He : fst (HandController.countFingers landmarks)
               = length (filter (extended landmarks) nonThumbFingers)).
  { unfold HandController.countFingers, nonThumbFingers. cbn [fold_left].
    rewrite !countFinger_extended.
    cbn [fst nth HandController.fingerTipIndices
         HandController.fingerMCPIndices filter].
    repeat match goal with
    | |- context [extended landmarks ?f] => destruct (extended landmarks f)
    end; cbn [length]; lia. }
  destruct (HandController.countFingers landmarks) as [fe fc].
  cbn [fst snd] in *. unfold curledCount in Hc.
  split; [exact He |]. split; [exact Hc |].
  split; [| apply extended_not_curled].
  rewrite He, Hc. unfold nonThumbFingers. cbn [filter].
  repeat match goal with
  | |- context [extended landmarks ?f] =>
      let E := fresh "E" in
      destruct (extended landmarks f) eqn:E;
      [rewrite (extended_not_curled landmarks f E) |]
  end;
  repeat match goal with
  | |- context [curled landmarks ?f] => destruct (curled landmarks f)
  end; cbn [length]; lia.
Qed.

Lemma finger_counts_exclusive_witness :
  length deepFist = 21%nat
  /\ snd (HandController.countFingers deepFist) = 4%nat
  /\ fst (HandController.countFingers deepFist) = 0%nat.
Proof.
  split; [reflexivity |].
  pose proof (finger_counts_exclusive deepFist eq_refl) as H.
  destruct (HandController.countFingers deepFist) as [fe fc].
  destruct H as (_ & Hc & Hsum & _). cbn [fst snd].
  change (length (filter (curled deepFist) nonThumbFingers))
    with (curledCount deepFist) in Hc.
  rewrite deepFist_curledCount in Hc. lia.
Defined.

Lemma atan2_range (y x : R) :
  - PI < HandController.atan2 y x <= PI.
Proof.
  pose proof PI_RGT_0 as Hpi.
  unfold HandController.atan2.
  destruct (Rlt_dec 0 x) as [Hx | Hx].
  { pose proof (atan_bound (y / x)). lra. }
  destruct (Rlt_dec x 0) as [Hx' | Hx'].
  - pose proof (atan_bound (y / x)) as Hb.
    assert (Hinv : / x < 0) by (now apply Rinv_lt_0_compat).
    destruct (Rle_dec 0 y) as [Hy | Hy].
    + assert (Hq : y / x <= 0) by (unfold Rdiv; nra).
      assert (atan (y / x) <= 0).
      { destruct Hq as [Hq | Hq].
        - left. rewrite <- atan_0. now apply atan_increasing.
        - rewrite Hq, atan_0. lra. }
      lra.
    + assert (Hq : 0 < y / x) by (unfold Rdiv; nra).
      assert (0 < atan (y / x)).
      { rewrite <- atan_0. now apply atan_increasing. }
      lra.
  - destruct (Rlt_dec 0 y); [lra |].
    destruct (Rlt_dec y 0); lra.
Qed.

(** X4: the roll reported for a tracked hand always lies in the half-open
    turn from -PI/2 (excluded) to 3*PI/2 (included).  It is 0 for an upright
    hand (middle-finger base straight above the wrist in the image, that is
    smaller y) and PI/2 when the middle-finger base is straight to the right
    of the wrist. *)
Theorem hand_roll_range (landmarks : list HandController.Landmark) :
  let wrist := HandController.at_ landmarks 0 in
  let middleMCP := HandController.at_ landmarks 9 in
  let roll := rotation (HandController.extract landmarks) in
  - (PI / 2) < roll <= 3 * (PI / 2)
  /\ (HandController.lx middleMCP = HandController.lx wrist ->
      HandController.ly middleMCP < HandController.ly wrist -> roll = 0)
  /\ (HandController.ly middleMCP = HandController.ly wrist ->
      HandController.lx wrist < HandController.lx middleMCP -> roll = PI / 2).
Proof.
  intros wrist middleMCP roll. subst roll.
  cbn [rotation HandController.extract]. unfold HandController.rotationRad.
  fold wrist middleMCP.
  set (vecX := HandController.lx middleMCP - HandController.lx wrist).
  set (vecY := HandController.ly middleMCP - HandController.ly wrist).
  pose proof (atan2_range vecY vecX) as Hr.
  split; [lra |]. split.
  - intros Hx Hy. unfold HandController.atan2.
    destruct (Rlt_dec 0 vecX); [subst vecX; lra |].
    destruct (Rlt_dec vecX 0); [subst vecX; lra |].
    destruct (Rlt_dec 0 vecY); [subst vecY; lra |].
    destruct (Rlt_dec vecY 0); [lra | subst vecY; lra].
  - intros Hy Hx. unfold HandController.atan2.
    destruct (Rlt_dec 0 vecX); [| subst vecX; lra].
    replace vecY with 0 by (subst vecY; lra).
    unfold Rdiv. rewrite Rmult_0_l, atan_0. lra.
Qed.

Lemma hand_roll_range_witness :
  rotation (HandController.extract openHand) = 0.
Proof.
  apply (hand_roll_range openHand);
    cbn [HandController.at_ nth openHand HandController.lx HandController.ly];
    lra.
Defined.

Lemma pinch_extract_unit (landmarks : list HandController.Landmark) :
  unit (pinch (HandController.extract landmarks)).
Proof.
  cbn [pinch HandController.extract]. unfold HandController.pinchStrength.
  apply normalizePinch_range.
Qed.

(** X5: whenever the extractor reports a fist (blast = 1) the frame loop
    reads it as: visible, blast target 1 and magic target 0.  The fist needs
    a pinch strength below 0.3, the lower edge of the magic band, so a blast
    always goes together with the morph heading for structure A. *)
Theorem fist_sends_magic_to_zero (landmarks : list HandController.Landmark)
    (Hfist : blast (HandController.extract landmarks) = 1) :
  let t := Smoother.targets (Some (HandController.extract landmarks)) in
  Smoother.visibleTarget t = 1
  /\ Smoother.blastTarget t = 1
  /\ Smoother.magicValue t = 0
  /\ Smoother.pinchValue t < 0.3.
Proof.
  assert (Hp : pinch (HandController.extract landmarks) < 0.3).
  { rewrite blast_extract in Hfist.
    destruct (3 <=? curledCount landmarks)%nat; cbn [andb] in Hfist;
      [| exfalso; lra].
    destruct (Rltb _ 0.3) eqn:E; [now apply Rltb_true in E | exfalso; lra]. }
  intros t; subst t. unfold Smoother.targets.
  change (detected (HandController.extract landmarks)) with true.
  cbn [Smoother.visibleTarget Smoother.blastTarget Smoother.magicValue
       Smoother.pinchValue].
  rewrite Hfist. unfold Smoother.orZero, MathUtils.smoothstep.
  destruct (Req_dec_T 1 0) as [H | _]; [exfalso; lra |].
  destruct (Rle_dec _ 0.3) as [_ | H]; [| exfalso; lra].
  repeat split; lra.
Qed.

Lemma fistHand_blast : blast (HandController.extract fistHand) = 1.
Proof.
  rewrite blast_extract, fistHand_curledCount, fistHand_pinch.
  cbn [Nat.leb andb].
  destruct (Rltb 0 0.3) eqn:E; [reflexivity |].
  apply Rltb_false in E. exfalso; lra.
Qed.

Lemma fist_sends_magic_to_zero_witness :
  Smoother.magicValue
    (Smoother.targets (Some (HandController.extract fistHand))) = 0.
Proof.
  apply (fist_sends_magic_to_zero fistHand fistHand_blast).
Defined.

(** ** Signal smoother: ranges, closed forms, magic target *)

Lemma frame_unitUniforms (hand : option HandState) (u : Smoother.Uniforms) :
  pinchInRange hand -> unitUniforms u -> unitUniforms (Smoother.frame hand u).
Proof.
  intros Hh (Hv & Hp & Hm & Hb). unfold unitUniforms, unit in *.
  split; [| split; [| split]].
  - cbn [Smoother.frame Smoother.uVisible].
    apply lerp_between; [lra | assumption |].
    unfold Smoother.targets.
    destruct hand as [h |]; [destruct (detected h) |];
      cbn [Smoother.visibleTarget]; lra.
  - cbn [Smoother.frame Smoother.uPinch].
    apply lerp_between; [lra | assumption |].
    unfold Smoother.targets.
    destruct hand as [h |]; [destruct (detected h) |];
      cbn [Smoother.pinchValue]; try lra.
    exact Hh.
  - now apply uMagic_frame_range.
  - cbn [Smoother.frame Smoother.uBlast]. unfold Smoother.stepBlast.
    destruct (Rlt_dec 0.5 _);
      (apply lerp_between;
       [unfold Smoother.blastOnsetRate, Smoother.blastDecayRate; lra
       | assumption | lra]).
Qed.

(** X6: started from the initial uniforms and fed readings whose pinch
    strength is within [0,1], the frame loop keeps visibility, pinch, magic
    and blast within [0,1] after any number of frames, detected or not. *)
Theorem uniforms_stay_unit (hands : list (option HandState))
    (Hhands : Forall pinchInRange hands) :
  unitUniforms (Smoother.run hands Smoother.initialUniforms).
Proof.
  assert (H0 : unitUniforms Smoother.initialUniforms).
  { unfold unitUniforms, unit; cbn. lra. }
  revert H0. generalize Smoother.initialUniforms.
  unfold Smoother.run.
  induction Hhands as [| h hands Hh _ IH]; intros u Hu; cbn [fold_left].
  - exact Hu.
  - apply IH. now apply frame_unitUniforms.
Qed.

Lemma uniforms_stay_unit_witness :
  unitUniforms
    (Smoother.run [ Some (HandController.extract fistHand); None;
                    Some (HandController.extract openHand) ]
                  Smoother.initialUniforms).
Proof.
  apply uniforms_stay_unit.
  repeat (apply Forall_cons;
          [first [ apply pinch_extract_unit | exact I ] |]).
  apply Forall_nil.
Defined.

Lemma stepBlast_on (h : HandState) (u : Smoother.Uniforms) :
  detected h = true -> 0.5 < blast h ->
  Smoother.uBlast (Smoother.frame (Some h) u)
  = 1 - 0.92 * (1 - Smoother.uBlast u).
Proof.
  intros Hd Hb. cbn [Smoother.frame Smoother.uBlast].
  unfold Smoother.targets. rewrite Hd. cbn [Smoother.blastTarget].
  unfold Smoother.orZero, Smoother.stepBlast.
  destruct (Req_dec_T (blast h) 0) as [H | _]; [exfalso; lra |].
  destruct (Rlt_dec 0.5 (blast h)) as [_ | H]; [| exfalso; lra].
  unfold MathUtils.lerp, Smoother.blastOnsetRate. lra.
Qed.

Lemma stepBlast_off (h : HandState) (u : Smoother.Uniforms) :
  detected h = false \/ blast h <= 0.5 ->
  Smoother.uBlast (Smoother.frame (Some h) u) = 0.94 * Smoother.uBlast u.
Proof.
  intros Hoff. cbn [Smoother.frame Smoother.uBlast].
  assert (Ht : Smoother.blastTarget (Smoother.targets (Some h)) <= 0.5).
  { unfold Smoother.targets.
    destruct (detected h); cbn [Smoother.blastTarget]; [| lra].
    destruct Hoff as [Hd | Hb]; [discriminate |].
    unfold Smoother.orZero. destruct (Req_dec_T (blast h) 0); lra. }
  unfold Smoother.stepBlast.
  destruct (Rlt_dec 0.5 _) as [H | _]; [exfalso; lra |].
  unfold MathUtils.lerp, Smoother.blastDecayRate. lra.
Qed.

(** X7: the blast amount follows a geometric law.  After [n] frames of a
    detected fist (blast reading above 0.5) the gap to 1 has shrunk by the
    factor 0.92^n; after [n] frames without a fist (hand lost, or blast
    reading at most 0.5) the amount itself has shrunk by 0.94^n.  From a
    blast amount below 1 it therefore never reaches 1, and from rest one
    fist frame gives 0.08, which already passes the shader's guard
    [uBlast > 0.01]. *)
Theorem blast_geometric (h : HandState) (n : nat) (u : Smoother.Uniforms) :
  (detected h = true -> 0.5 < blast h ->
     1 - Smoother.uBlast (Smoother.run (repeat (Some h) n) u)
     = 0.92 ^ n * (1 - Smoother.uBlast u))
  /\ (detected h = false \/ blast h <= 0.5 ->
     Smoother.uBlast (Smoother.run (repeat (Some h) n) u)
     = 0.94 ^ n * Smoother.uBlast u)
  /\ (detected h = true -> 0.5 < blast h -> Smoother.uBlast u < 1 ->
     Smoother.uBlast (Smoother.run (repeat (Some h) n) u) < 1)
  /\ (detected h = true -> 0.5 < blast h ->
     Smoother.uBlast (Smoother.frame (Some h) Smoother.initialUniforms) = 0.08
     /\ 0.01 < Smoother.uBlast
                 (Smoother.frame (Some h) Smoother.initialUniforms)).
Proof.
  assert (Hon : detected h = true -> 0.5 < blast h -> forall m v,
            1 - Smoother.uBlast (Smoother.run (repeat (Some h) m) v)
            = 0.92 ^ m * (1 - Smoother.uBlast v)).
  { intros Hd Hb. unfold Smoother.run.
    induction m as [| m IH]; intros v; cbn [repeat fold_left].
    - simpl; ring.
    - rewrite IH, (stepBlast_on h v Hd Hb). simpl; ring. }
  split; [intros Hd Hb; now apply Hon |].
  split.
  { intros Hoff. revert u. unfold Smoother.run.
    induction n as [| n IH]; intros u; cbn [repeat fold_left].
    - simpl; ring.
    - rewrite IH, (stepBlast_off h u Hoff). simpl; ring. }
  split.
  { intros Hd Hb Hu. pose proof (Hon Hd Hb n u) as E.
    assert (0 < 0.92 ^ n) by (apply pow_lt; lra).
    assert (0 < 0.92 ^ n * (1 - Smoother.uBlast u))
      by (apply Rmult_lt_0_compat; lra).
    lra. }
  intros Hd Hb.
  rewrite (stepBlast_on h _ Hd Hb).
  cbn [Smoother.uBlast Smoother.initialUniforms]. split; lra.
Qed.

Lemma blast_geometric_witness :
  detected trackedState = true /\ 0.5 < blast trackedState
  /\ 1 - Smoother.uBlast
           (Smoother.run (repeat (Some trackedState) 2) Smoother.initialUniforms)
     = 0.92 ^ 2 * (1 - Smoother.uBlast Smoother.initialUniforms).
Proof.
  assert (Hb : 0.5 < blast trackedState) by (cbn; lra).
  split; [reflexivity |]. split; [exact Hb |].
  exact (proj1 (blast_geometric trackedState 2 Smoother.initialUniforms)
               eq_refl Hb).
Defined.

Lemma threeSmoothstep_mono (x y lo hi : R) :
  lo < hi -> x <= y ->
  MathUtils.smoothstep x lo hi <= MathUtils.smoothstep y lo hi.
Proof.
  intros Hlh Hxy.
  pose proof (threeSmoothstep_range y lo hi Hlh) as Hy.
  pose proof (threeSmoothstep_range x lo hi Hlh) as Hx.
  unfold MathUtils.smoothstep in *.
  destruct (Rle_dec x lo) as [Hxl | Hxl]; [lra |].
  destruct (Rle_dec y lo) as [Hyl | Hyl]; [exfalso; lra |].
  destruct (Rle_dec hi y) as [Hyh | Hyh]; [lra |].
  destruct (Rle_dec hi x) as [Hxh | Hxh]; [exfalso; lra |].
  assert (Hd : 0 < / (hi - lo)) by (apply Rinv_0_lt_compat; lra).
  apply hermite_mono.
  - unfold Rdiv; nra.
  - now apply ratio_mono.
  - apply (Rmult_le_reg_r (hi - lo)); [lra |].
    unfold Rdiv; rewrite Rmult_assoc, Rinv_l by lra. lra.
Qed.

Lemma threeSmoothstep_inside (x lo hi : R) :
  lo < x < hi -> 0 < MathUtils.smoothstep x lo hi < 1.
Proof.
  intros [Hl Hh]. unfold MathUtils.smoothstep.
  destruct (Rle_dec x lo) as [H | _]; [exfalso; lra |].
  destruct (Rle_dec hi x) as [H | _]; [exfalso; lra |].
  set (t := (x - lo) / (hi - lo)).
  assert (Ht : 0 < t < 1).
  { subst t. split.
    - apply Rdiv_lt_0_compat; lra.
    - apply (Rmult_lt_reg_r (hi - lo)); [lra |].
      unfold Rdiv; rewrite Rmult_assoc, Rinv_l by lra. lra. }
  split.
  - apply Rmult_lt_0_compat; [apply Rmult_lt_0_compat |]; lra.
  - assert (E : 1 - t * t * (3 - 2 * t) = (1 - t) * (1 - t) * (1 + 2 * t))
      by ring.
    assert (0 < (1 - t) * (1 - t) * (1 + 2 * t)).
    { apply Rmult_lt_0_compat; [apply Rmult_lt_0_compat |]; lra. }
    lra.
Qed.

(** X8: for a detected hand the magic target is a non-decreasing function
    of the pinch strength with values in [0,1]: it is 0 up to pinch 0.3
    (fingers close: structure A), 1 from pinch 0.8 on (hand open: the
    mandala), and strictly between 0 and 1 inside the band. *)
Theorem magic_target_follows_pinch (h1 h2 : HandState)
    (Hd1 : detected h1 = true) (Hd2 : detected h2 = true)
    (Hle : pinch h1 <= pinch h2) :
  let m1 := Smoother.magicValue (Smoother.targets (Some h1)) in
  let m2 := Smoother.magicValue (Smoother.targets (Some h2)) in
  m1 <= m2
  /\ unit m1
  /\ (pinch h1 <= 0.3 -> m1 = 0)
  /\ (0.8 <= pinch h1 -> m1 = 1)
  /\ (0.3 < pinch h1 < 0.8 -> 0 < m1 < 1).
Proof.
  intros m1 m2. subst m1 m2. unfold Smoother.targets.
  rewrite Hd1, Hd2. cbn [Smoother.magicValue].
  split; [apply threeSmoothstep_mono; lra |].
  split; [apply threeSmoothstep_range; lra |].
  split; [| split].
  - intros H. unfold MathUtils.smoothstep.
    destruct (Rle_dec (pinch h1) 0.3); [reflexivity | exfalso; lra].
  - intros H. unfold MathUtils.smoothstep.
    destruct (Rle_dec (pinch h1) 0.3); [exfalso; lra |].
    destruct (Rle_dec 0.8 (pinch h1)); [reflexivity | exfalso; lra].
  - apply threeSmoothstep_inside.
Qed.

Lemma magic_target_follows_pinch_witness :
  Smoother.magicValue
    (Smoother.targets (Some (HandController.extract fistHand)))
  <= Smoother.magicValue
       (Smoother.targets (Some (HandController.extract openHand))).
Proof.
  apply (magic_target_follows_pinch (HandController.extract fistHand)
           (HandController.extract openHand) eq_refl eq_refl).
  rewrite fistHand_pinch. apply pinch_extract_unit.
Defined.

(** ** Vertex shader: structure A keeps its radius, the noise is bounded *)

Lemma sin_cos_sq (a : R) : sin a * sin a + cos a * cos a = 1.
Proof. pose proof (sin2_cos2 a) as H. unfold Rsqr in H. exact H. Qed.

Lemma plane_rotation_norm (a b c s : R) :
  s * s + c * c = 1 ->
  (a * c - b * s) * (a * c - b * s) + (a * s + b * c) * (a * s + b * c)
  = a * a + b * b.
Proof.
  intros H.
  replace ((a * c - b * s) * (a * c - b * s) + (a * s + b * c) * (a * s + b * c))
    with ((a * a + b * b) * (s * s + c * c)) by ring.
  rewrite H. ring.
Qed.

Lemma rotated_norm (uTime aProgress : R) (orbPos : vec3) :
  (aProgress < 0.8 ->
   normSq (Shader.rotated uTime aProgress orbPos) = normSq orbPos)
  /\ (0.8 <= aProgress ->
      Shader.rotated uTime aProgress orbPos
      = vscale orbPos (1.0 + sin (uTime * 3.0 + aProgress * 50.0) * 0.05)).
Proof.
  destruct orbPos as [x y z].
  unfold Shader.rotated, Shader.structure, normSq.
  split; intros Hp.
  - destruct (Rlt_dec aProgress 0.2);
      [| destruct (Rlt_dec aProgress 0.5);
         [| destruct (Rlt_dec aProgress 0.8); [| exfalso; lra]]];
      repeat match goal with
      | |- context [Rlt_dec ?a ?b] =>
          lazymatch a with
          | context [Glsl.floor] => fail
          | context [Glsl.mod_] => fail
          | _ => destruct (Rlt_dec a b); try (exfalso; lra)
          end
      end.
    + cbn [vx vy vz].
      pose proof (sin_cos_sq (uTime * 0.3)) as HY.
      pose proof (sin_cos_sq (uTime * 0.2)) as HX.
      set (cY := cos (uTime * 0.3)) in *. set (sY := sin (uTime * 0.3)) in *.
      set (cX := cos (uTime * 0.2)) in *. set (sX := sin (uTime * 0.2)) in *.
      pose proof (plane_rotation_norm y (x * sY + z * cY) cX sX HX) as E1.
      pose proof (plane_rotation_norm x z cY sY HY) as E2.
      lra.
    + set (ringIdx := Glsl.floor ((aProgress - 0.2) / 0.1)).
      set (rot := uTime * (0.4 + ringIdx * 0.2)
                  * (if Rlt_dec (Glsl.mod_ ringIdx 2.0) 1.0 then 1.0 else -1.0)).
      pose proof (sin_cos_sq rot) as H.
      pose proof (plane_rotation_norm x y _ _ H) as Exy.
      pose proof (plane_rotation_norm x z _ _ H) as Exz.
      pose proof (plane_rotation_norm y z _ _ H) as Eyz.
      destruct (Rlt_dec ringIdx 1.0); [| destruct (Rlt_dec ringIdx 2.0)];
        cbn [vx vy vz]; lra.
    + cbn [vx vy vz].
      pose proof (sin_cos_sq (uTime * 0.5)) as H.
      pose proof (plane_rotation_norm x z _ _ H) as Exz.
      lra.
  - destruct (Rlt_dec aProgress 0.2); [exfalso; lra |].
    destruct (Rlt_dec aProgress 0.5); [exfalso; lra |].
    destruct (Rlt_dec aProgress 0.8); [exfalso; lra |].
    destruct (Rlt_dec 3.0 0.5); [exfalso; lra |].
    destruct (Rlt_dec 3.0 1.5); [exfalso; lra |].
    destruct (Rlt_dec 3.0 2.5); [exfalso; lra |].
    reflexivity.
Qed.

Lemma normSq_vscale (p : vec3) (k : R) :
  normSq (vscale p k) = k * k * normSq p.
Proof. unfold normSq, vscale; cbn [vx vy vz]. ring. Qed.

Lemma orbScale_shrinks_scale (uPinch : R) :
  0.3 <= Shader.orbScale uPinch /\ Shader.orbScale uPinch <= 1.
Proof.
  rewrite orbScale_mix. pose proof (smoothstep_range 0.2 0.7 uPinch). lra.
Qed.

Lemma structureA_radius_bound (uTime uPinch aProgress : R) (orbPos : vec3) :
  exists k : R,
    0.27645 <= k <= 1.0815
    /\ normSq (Shader.butterflyPos uTime uPinch aProgress orbPos)
       = k * k * normSq orbPos.
Proof.
  destruct (rotated_norm uTime aProgress orbPos) as [Hrot Hshim].
  unfold Shader.butterflyPos. rewrite !normSq_vscale.
  assert (Hpulse : 0.97 <= Shader.pulse uTime <= 1.03).
  { unfold Shader.pulse. pose proof (SIN_bound (uTime * 1.5)). lra. }
  destruct (orbScale_shrinks_scale uPinch) as [Hs0 Hs1].
  destruct (Rlt_dec aProgress 0.8) as [Hp | Hp].
  - exists (Shader.pulse uTime * Shader.orbScale uPinch).
    split; [split; nra |].
    rewrite (Hrot Hp). ring.
  - set (sh := 1.0 + sin (uTime * 3.0 + aProgress * 50.0) * 0.05).
    assert (Hsh : 0.95 <= sh <= 1.05).
    { subst sh. pose proof (SIN_bound (uTime * 3.0 + aProgress * 50.0)). lra. }
    exists (sh * Shader.pulse uTime * Shader.orbScale uPinch).
    split.
    + assert (0.9215 <= sh * Shader.pulse uTime <= 1.0815) by nra.
      split; nra.
    + rewrite Hshim by lra. fold sh. rewrite normSq_vscale. ring.
Qed.

(** X9: the structure-A stage only turns and scales.  For the icosahedron,
    ring and spiral particles (progress below 0.8) the time-dependent motion
    is a rotation, which keeps the distance to the center; the floating
    particles are scaled by a shimmer within 5%.  With the breathing pulse
    (within 3%) and the pinch size factor (0.3 to 1), the structure-A
    position of every particle is its generated position multiplied in
    length by a factor between 0.27645 and 1.0815, at any time and pinch. *)
Theorem structureA_radius_factor (uTime uPinch aProgress : R) (orbPos : vec3) :
  (aProgress < 0.8 ->
   normSq (Shader.rotated uTime aProgress orbPos) = normSq orbPos)
  /\ exists k : R,
       0.27645 <= k <= 1.0815
       /\ normSq (Shader.butterflyPos uTime uPinch aProgress orbPos)
          = k * k * normSq orbPos.
Proof.
  split.
  - apply (rotated_norm uTime aProgress orbPos).
  - apply structureA_radius_bound.
Qed.

(** ** Structure B: built-ins *)

Lemma floor_bounds (x : R) : Glsl.floor x <= x < Glsl.floor x + 1.
Proof.
  unfold Glsl.floor. destruct (base_Int_part x) as [H1 H2]. lra.
Qed.

Lemma fract_range (x : R) : 0 <= Glsl.fract x < 1.
Proof. unfold Glsl.fract. pose proof (floor_bounds x). lra. Qed.

Lemma floor_IZR_iff (x : R) (k : Z) :
  Glsl.floor x = IZR k <-> IZR k <= x < IZR k + 1.
Proof.
  split.
  - intros H. pose proof (floor_bounds x). lra.
  - intros [H1 H2]. unfold Glsl.floor. f_equal. symmetry.
    apply Int_part_spec. lra.
Qed.

Lemma mod_range (x y : R) : 0 < y -> 0 <= Glsl.mod_ x y < y.
Proof.
  intros Hy. unfold Glsl.mod_.
  pose proof (floor_bounds (x / y)) as [H1 H2].
  assert (E : x = y * (x / y)) by (field; lra).
  split.
  - assert (y * Glsl.floor (x / y) <= y * (x / y))
      by (apply Rmult_le_compat_l; lra).
    lra.
  - assert (y * (x / y) < y * (Glsl.floor (x / y) + 1))
      by (apply Rmult_lt_compat_l; lra).
    lra.
Qed.

Lemma cos_lower (x m : R) :
  - m <= x <= m -> m <= 2 -> 1 - m * m / 2 <= cos x.
Proof.
  intros [Hl Hu] Hm.
  pose proof (pre_cos_bound x 0 ltac:(lra) ltac:(lra)) as [Hlo _].
  unfold cos_approx, cos_term in Hlo. simpl in Hlo.
  assert (x * x <= m * m) by nra.
  lra.
Qed.

(** The rounded-polygon radius cannot diverge: the wrapped angle stays
    within [m] of the center of the wrap, where the cosine is at least
    [1 - m^2/2]. *)
Lemma roundedPolygon_bounds (k angle offset period center m : R) :
  0 <= k -> 0 < period ->
  center <= m -> period - center <= m -> m * m < 2 -> 0 <= m ->
  k <= MagicCircle.roundedPolygon k angle offset period center
       <= k / (1 - m * m / 2).
Proof.
  intros Hk Hp Hc1 Hc2 Hm2 Hm0.
  unfold MagicCircle.roundedPolygon.
  pose proof (mod_range (angle + offset) period Hp) as Hmod.
  set (w := Glsl.mod_ (angle + offset) period - center) in *.
  assert (Hm : m <= 2) by nra.
  assert (Hw : - m <= w <= m) by (unfold w; lra).
  pose proof (cos_lower w m Hw Hm) as Hcos.
  pose proof (COS_bound w) as [_ Hc1'].
  assert (Hd : 0 < 1 - m * m / 2) by lra.
  assert (Hcw : 0 < cos w) by lra.
  split.
  - apply (Rmult_le_reg_r (cos w)); [exact Hcw |].
    unfold Rdiv. rewrite Rmult_assoc, Rinv_l by lra. nra.
  - unfold Rdiv. apply Rmult_le_compat_l; [exact Hk |].
    apply Rinv_le_contravar; assumption.
Qed.

Lemma length2_nonneg (x y : R) : 0 <= MagicCircle.length2 x y.
Proof. unfold MagicCircle.length2. apply sqrt_pos. Qed.

Lemma length2_le (x y b : R) :
  0 <= b -> x * x + y * y <= b * b -> MagicCircle.length2 x y <= b.
Proof.
  intros Hb H. unfold MagicCircle.length2.
  rewrite <- (sqrt_square b Hb). apply sqrt_le_1_alt. exact H.
Qed.

(** Two circular motions added: the distance to the center is at most the
    sum of the two radii. *)
Lemma two_circles_le (a b p q : R) :
  0 <= p -> 0 <= q ->
  MagicCircle.length2 (cos a * p + cos b * q) (sin a * p + sin b * q) <= p + q.
Proof.
  intros Hp Hq. apply length2_le; [lra |].
  pose proof (sin_cos_sq a) as Ha. pose proof (sin_cos_sq b) as Hb.
  assert (E : (cos a * p + cos b * q) * (cos a * p + cos b * q)
              + (sin a * p + sin b * q) * (sin a * p + sin b * q)
              = p * p * (sin a * sin a + cos a * cos a)
                + q * q * (sin b * sin b + cos b * cos b)
                + 2 * p * q * (cos a * cos b + sin a * sin b)) by ring.
  rewrite E, Ha, Hb, <- cos_minus.
  pose proof (COS_bound (a - b)) as [_ Hc].
  assert (0 <= p * q) by (apply Rmult_le_pos; assumption).
  nra.
Qed.

Lemma two_circles_le' (a b p q : R) :
  0 <= p -> 0 <= q ->
  MagicCircle.length2 (p * cos a + q * cos b) (p * sin a + q * sin b) <= p + q.
Proof.
  intros Hp Hq.
  replace (p * cos a + q * cos b) with (cos a * p + cos b * q) by ring.
  replace (p * sin a + q * sin b) with (sin a * p + sin b * q) by ring.
  now apply two_circles_le.
Qed.

Lemma hexagon_bounds (k angle : R) :
  0 <= k ->
  k <= MagicCircle.roundedPolygon k angle 0.523 1.047 0.523 <= k * 1.16.
Proof.
  intros Hk.
  pose proof (roundedPolygon_bounds k angle 0.523 1.047 0.523 0.524 Hk
                ltac:(lra) ltac:(lra) ltac:(lra) ltac:(lra) ltac:(lra)) as [H1 H2].
  split; [exact H1 |].
  apply Rle_trans with (1 := H2).
  unfold Rdiv. apply Rmult_le_compat_l; [exact Hk | lra].
Qed.

Lemma triangle_bounds (k angle offset : R) :
  0 <= k ->
  k <= MagicCircle.roundedPolygon k angle offset 2.094 1.047 <= k * 2.22.
Proof.
  intros Hk.
  pose proof (roundedPolygon_bounds k angle offset 2.094 1.047 1.047 Hk
                ltac:(lra) ltac:(lra) ltac:(lra) ltac:(lra) ltac:(lra)) as [H1 H2].
  split; [exact H1 |].
  apply Rle_trans with (1 := H2).
  unfold Rdiv. apply Rmult_le_compat_l; [exact Hk | lra].
Qed.

Lemma square_bounds (k angle : R) :
  0 <= k ->
  k <= MagicCircle.roundedPolygon k angle 0.7854 1.5708 0.7854 <= k * 1.45.
Proof.
  intros Hk.
  pose proof (roundedPolygon_bounds k angle 0.7854 1.5708 0.7854 0.7854 Hk
                ltac:(lra) ltac:(lra) ltac:(lra) ltac:(lra) ltac:(lra)) as [H1 H2].
  split; [exact H1 |].
  apply Rle_trans with (1 := H2).
  unfold Rdiv. apply Rmult_le_compat_l; [exact Hk | lra].
Qed.

Lemma dodecagon_bounds (k angle : R) :
  0 <= k ->
  k <= MagicCircle.roundedPolygon k angle 0.2618 0.5236 0.2618 <= k * 1.04.
Proof.
  intros Hk.
  pose proof (roundedPolygon_bounds k angle 0.2618 0.5236 0.2618 0.2618 Hk
                ltac:(lra) ltac:(lra) ltac:(lra) ltac:(lra) ltac:(lra)) as [H1 H2].
  split; [exact H1 |].
  apply Rle_trans with (1 := H2).
  unfold Rdiv. apply Rmult_le_compat_l; [exact Hk | lra].
Qed.

(** X10: band 0 (the hexagonal core) never diverges and its four layers
    are nested: whatever the time, the inner hexagon stays within radius
    1.6 to 1.86, the second hexagon within 2.4 to 2.79, the tick-marked
    circle is at 3.0 or 3.3, and the outer hexagon within 3.6 to 4.18; the
    band is flat (z = 0) and its size multiplier is between 1 and 2.5. *)
Theorem band0_layers_nested (segmentProgress t : R) :
  let p := MagicCircle.band0 segmentProgress t in
  (segmentProgress < 0.25 -> 1.6 <= MagicCircle.r p <= 1.86)
  /\ (0.25 <= segmentProgress < 0.5 -> 2.4 <= MagicCircle.r p <= 2.79)
  /\ (0.5 <= segmentProgress < 0.7 ->
      MagicCircle.r p = 3.0 \/ MagicCircle.r p = 3.3)
  /\ (0.7 <= segmentProgress -> 3.6 <= MagicCircle.r p <= 4.18)
  /\ MagicCircle.z p = 0
  /\ 1 <= MagicCircle.sizeMult p <= 2.5.
Proof.
  intros p; subst p. unfold MagicCircle.band0.
  destruct (Rlt_dec segmentProgress 0.25) as [H1 | H1];
    [| destruct (Rlt_dec segmentProgress 0.5) as [H2 | H2];
       [| destruct (Rlt_dec segmentProgress 0.7) as [H3 | H3]]].
  - cbn [MagicCircle.r MagicCircle.z MagicCircle.sizeMult].
    pose proof (hexagon_bounds 1.6 (segmentProgress / 0.25 * 6.28)
                  ltac:(lra)) as Hb.
    repeat split; intros; try lra;
      destruct (_ || _)%bool; lra.
  - cbn [MagicCircle.r MagicCircle.z MagicCircle.sizeMult].
    pose proof (hexagon_bounds 2.4 ((segmentProgress - 0.25) / 0.25 * 6.28)
                  ltac:(lra)) as Hb.
    repeat split; intros; try lra;
      destruct (_ || _)%bool; lra.
  - destruct (Rlt_dec _ 0.08);
      cbn [MagicCircle.r MagicCircle.z MagicCircle.sizeMult];
      repeat split; intros; try lra; auto.
  - cbn [MagicCircle.r MagicCircle.z MagicCircle.sizeMult].
    pose proof (hexagon_bounds 3.6 ((segmentProgress - 0.7) / 0.3 * 6.28)
                  ltac:(lra)) as Hb.
    repeat split; intros; lra.
Qed.

Lemma band0_layers_nested_witness :
  1.6 <= MagicCircle.r (MagicCircle.band0 0.1 2) <= 1.86
  /\ 3.6 <= MagicCircle.r (MagicCircle.band0 0.9 2) <= 4.18.
Proof.
  split.
  - apply (band0_layers_nested 0.1 2). lra.
  - apply (band0_layers_nested 0.9 2). lra.
Defined.

Lemma mix_0 (a b : R) : Glsl.mix a b 0.0 = a.
Proof. unfold Glsl.mix; lra. Qed.

Lemma mix_1 (a b : R) : Glsl.mix a b 1.0 = b.
Proof. unfold Glsl.mix; lra. Qed.

Lemma band1_bounds (segmentProgress t : R) :
  let p := MagicCircle.band1 segmentProgress t in
  0 <= MagicCircle.r p <= 4.4 /\ MagicCircle.z p = 0
  /\ 0.3 <= MagicCircle.sizeMult p <= 0.5.
Proof.
  intros p; subst p. unfold MagicCircle.band1.
  destruct (Rlt_dec segmentProgress 0.5);
    [| destruct (Rlt_dec segmentProgress 0.75)];
    cbn [MagicCircle.r MagicCircle.z MagicCircle.sizeMult].
  - split; [split; [apply length2_nonneg |] | split; lra].
    eapply Rle_trans; [apply two_circles_le; lra | lra].
  - split; [split; [apply length2_nonneg |] | split; lra].
    eapply Rle_trans; [apply two_circles_le; lra | lra].
  - pose proof (fract_range ((segmentProgress - 0.75) / 0.25 * 12.0)).
    repeat split; lra.
Qed.

Lemma step_cases (edge x : R) :
  MagicCircle.step edge x = 0.0 \/ MagicCircle.step edge x = 1.0.
Proof. unfold MagicCircle.step. destruct (Rlt_dec x edge); auto. Qed.

Lemma band2_bounds (segmentProgress t : R) :
  let p := MagicCircle.band2 segmentProgress t in
  0 <= MagicCircle.r p <= 9.33 /\ MagicCircle.z p = 0
  /\ 0.5 <= MagicCircle.sizeMult p <= 0.9.
Proof.
  intros p; subst p. unfold MagicCircle.band2.
  destruct (Rlt_dec segmentProgress 0.3);
    [| destruct (Rlt_dec segmentProgress 0.5);
       [| destruct (Rlt_dec segmentProgress 0.75)]];
    cbn [MagicCircle.r MagicCircle.z MagicCircle.sizeMult].
  - set (a1 := segmentProgress / 0.3 * 6.28 + t * 0.35).
    set (a2 := segmentProgress / 0.3 * 6.28 - t * 0.35 + 0.7854).
    pose proof (square_bounds 5.2 a1 ltac:(lra)).
    pose proof (square_bounds 5.2 a2 ltac:(lra)).
    destruct (step_cases 0.5 (Glsl.fract (segmentProgress / 0.3 * 2.0)))
      as [-> | ->]; rewrite ?mix_0, ?mix_1; repeat split; lra.
  - set (a := (segmentProgress - 0.3) / 0.2 * 6.28 - t * 0.55).
    pose proof (triangle_bounds 4.2 a 0.523 ltac:(lra)).
    pose proof (triangle_bounds 4.2 (a + 0.523) 1.047 ltac:(lra)).
    destruct (step_cases 0.5 (Glsl.fract ((segmentProgress - 0.3) / 0.2 * 2.0)))
      as [-> | ->]; rewrite ?mix_0, ?mix_1; repeat split; lra.
  - set (a := (segmentProgress - 0.5) / 0.25 * 6.28 * 3.0 + t * 0.6).
    pose proof (length2_nonneg
                  ((5.8 - 1.2) * cos a + 1.2 * cos (a * 7.0))
                  ((5.8 - 1.2) * sin a + 1.2 * sin (a * 7.0))).
    pose proof (two_circles_le' a (a * 7.0) (5.8 - 1.2) 1.2
                  ltac:(lra) ltac:(lra)).
    repeat split; lra.
  - set (tp := Glsl.fract _).
    pose proof (fract_range
                  (((segmentProgress - 0.75) / 0.25 * 6.28 + t * 0.15) * 16.0
                   / 6.28 + t * 0.3)) as Hf.
    fold tp in Hf.
    assert (Ha : 0 <= Rabs (tp - 0.5) <= 0.5).
    { split; [apply Rabs_pos |]. unfold Rabs. destruct (Rcase_abs _); lra. }
    repeat split; lra.
Qed.

Lemma piDigits_range (n : nat) : 0 <= nth n MagicCircle.piDigits 0 <= 9.
Proof.
  unfold MagicCircle.piDigits.
  do 11 (destruct n as [| n]; [cbn; lra |]). cbn. destruct n; lra.
Qed.

Lemma band3_bounds (segmentProgress t : R) :
  let p := MagicCircle.band3 segmentProgress t in
  0 <= MagicCircle.r p <= 8.87 /\ MagicCircle.z p = 0
  /\ 0.4 <= MagicCircle.sizeMult p <= 2.0.
Proof.
  intros p; subst p. unfold MagicCircle.band3.
  destruct (Rlt_dec segmentProgress 0.25);
    [| destruct (Rlt_dec segmentProgress 0.45);
       [| destruct (Rlt_dec segmentProgress 0.65);
          [| destruct (Rlt_dec segmentProgress 0.8)]]].
  - cbn [MagicCircle.r MagicCircle.z MagicCircle.sizeMult].
    pose proof (dodecagon_bounds 8.0 (segmentProgress / 0.25 * 6.28 + t * 0.15)
                  ltac:(lra)).
    destruct (_ || _)%bool; destruct (_ || _)%bool; repeat split; lra.
  - cbn [MagicCircle.r MagicCircle.z MagicCircle.sizeMult].
    set (k := (segmentProgress - 0.25) / 0.2 * 6.0).
    set (ta := Glsl.floor k / 6.0 * 6.28 + t * 0.75).
    set (va := Glsl.fract k * 6.28).
    pose proof (triangle_bounds 0.7 va 0.523 ltac:(lra)) as Hv.
    set (vr := MagicCircle.roundedPolygon 0.7 va 0.523 2.094 1.047) in *.
    pose proof (length2_nonneg (cos ta * 1.6 + cos (va + ta) * vr)
                               (sin ta * 1.6 + sin (va + ta) * vr)).
    pose proof (two_circles_le ta (va + ta) 1.6 vr ltac:(lra) ltac:(lra)).
    repeat split; lra.
  - destruct (_ && _)%bool;
      cbn [MagicCircle.r MagicCircle.z MagicCircle.sizeMult].
    + pose proof (mod_range
                    (Glsl.floor ((segmentProgress - 0.45) / 0.2 * 8.0)) 3.0
                    ltac:(lra)).
      repeat split; lra.
    + repeat split; lra.
  - cbn [MagicCircle.r MagicCircle.z MagicCircle.sizeMult].
    match goal with
    | |- context [nth ?n MagicCircle.piDigits 0] =>
        pose proof (piDigits_range n)
    end.
    repeat split; lra.
  - cbn [MagicCircle.r MagicCircle.z MagicCircle.sizeMult].
    set (ma := (segmentProgress - 0.8) / 0.2 * 6.28 * 2.0 - t * 0.6).
    pose proof (SIN_bound (ma * 8.0)). pose proof (SIN_bound (ma * 16.0 + t)).
    repeat split; lra.
Qed.

Lemma sqrt_below (x b : R) : 0 <= b -> x <= b * b -> 0 <= sqrt x <= b.
Proof.
  intros Hb Hx. split; [apply sqrt_pos |].
  rewrite <- (sqrt_square b Hb). now apply sqrt_le_1_alt.
Qed.

Lemma exp_le (x y : R) : x <= y -> exp x <= exp y.
Proof.
  intros [H | H]; [left; now apply exp_increasing | right; now subst].
Qed.

Lemma exp_nat_bounds (n : nat) : 2 ^ n <= exp (INR n) <= 3 ^ n.
Proof.
  induction n as [| n [IH1 IH2]].
  - cbn [pow INR]. rewrite exp_0. lra.
  - rewrite S_INR, exp_plus. cbn [pow].
    pose proof (exp_ineq1_le 1) as H2. pose proof exp_le_3 as H3.
    pose proof (exp_pos (INR n)) as Hp.
    assert (0 < 2 ^ n) by (apply pow_lt; lra).
    split; nra.
Qed.

(** In the first 290 seconds [logR] stays below 2^24 for every particle of
    the logarithmic spiral; from 578 seconds on it has passed 2^24 for all
    of them. *)
Lemma logSpiral_small (segmentProgress t : R) :
  segmentProgress < 0.8 -> t <= 290 ->
  logSpiralR segmentProgress t < MagicCircle.float32Whole.
Proof.
  intros Hs Ht. unfold logSpiralR, MagicCircle.float32Whole.
  set (e := 0.15 * ((segmentProgress - 0.6) / 0.2 * 6.28 * 2.0 + t * 0.3)).
  assert (He : e <= INR 15).
  { replace (INR 15) with 15 by (cbn; lra). unfold e. lra. }
  pose proof (exp_le _ _ He) as H1.
  pose proof (proj2 (exp_nat_bounds 15)) as H2.
  assert (E : 3 ^ 15 = 14348907) by (cbn [pow]; lra).
  lra.
Qed.

Lemma logSpiral_large (segmentProgress t : R) :
  0.6 <= segmentProgress -> 578 <= t ->
  MagicCircle.float32Whole <= logSpiralR segmentProgress t.
Proof.
  intros Hs Ht. unfold logSpiralR, MagicCircle.float32Whole.
  set (e := 0.15 * ((segmentProgress - 0.6) / 0.2 * 6.28 * 2.0 + t * 0.3)).
  assert (He : INR 26 <= e).
  { replace (INR 26) with 26 by (cbn; lra). unfold e. lra. }
  pose proof (exp_le _ _ He) as H1.
  pose proof (proj1 (exp_nat_bounds 26)) as H2.
  assert (E : 2 ^ 26 = 67108864) by (cbn [pow]; lra).
  lra.
Qed.

Lemma band4_None (aProgress segmentProgress t uMagic : R) :
  MagicCircle.band4 aProgress segmentProgress t uMagic = None
  <-> 0.6 <= segmentProgress < 0.8
      /\ MagicCircle.float32Whole <= logSpiralR segmentProgress t.
Proof.
  unfold MagicCircle.band4. cbv zeta. fold (logSpiralR segmentProgress t).
  destruct (Rlt_dec segmentProgress 0.6) as [H1 | H1];
    [| destruct (Rlt_dec segmentProgress 0.8) as [H2 | H2];
       [destruct (Rlt_dec _ MagicCircle.float32Whole) as [H3 | H3] |]].
  - split; [discriminate | intros; exfalso; lra].
  - split; [discriminate | intros; exfalso; lra].
  - split; [intros _; lra | reflexivity].
  - split; [discriminate | intros; exfalso; lra].
Qed.

Lemma band4_bounds (aProgress segmentProgress t uMagic : R)
      (p : MagicCircle.Polar) :
  MagicCircle.band4 aProgress segmentProgress t uMagic = Some p ->
  0 <= MagicCircle.r p <= 8.75
  /\ Rabs (MagicCircle.z p) <= 2 * Rabs uMagic
  /\ 0.3 <= MagicCircle.sizeMult p <= 0.9.
Proof.
  unfold MagicCircle.band4.
  pose proof (Rabs_pos uMagic) as Hu.
  destruct (Rlt_dec segmentProgress 0.6) as [H1 | H1];
    [| destruct (Rlt_dec segmentProgress 0.8) as [H2 | H2]]; cbv zeta.
  - intros E. injection E as <-.
    cbn [MagicCircle.r MagicCircle.z MagicCircle.sizeMult].
    set (fibIdx := segmentProgress / 0.6 * 144.0).
    pose proof (sqrt_below fibIdx 12 ltac:(lra) ltac:(unfold fibIdx; lra)).
    pose proof (SIN_bound (fibIdx * 0.3 + t * 3.0)).
    pose proof (SIN_bound (fibIdx * 0.2 + t)) as Hs.
    pose proof (SIN_bound (fibIdx * 0.4)).
    split; [lra |]. split; [| lra].
    rewrite Rabs_mult.
    assert (Rabs (sin (fibIdx * 0.2 + t) * 2.0) <= 2).
    { unfold Rabs. destruct (Rcase_abs _); lra. }
    nra.
  - destruct (Rlt_dec _ MagicCircle.float32Whole); [| discriminate].
    intros E. injection E as <-.
    cbn [MagicCircle.r MagicCircle.z MagicCircle.sizeMult].
    pose proof (mod_range (0.5 * exp (0.15 * ((segmentProgress - 0.6) / 0.2
                                              * 6.28 * 2.0 + t * 0.3)))
                          5.0 ltac:(lra)).
    pose proof (hash_range (aProgress * 1.5)) as Hh.
    split; [lra |]. split; [| lra].
    rewrite Rabs_mult.
    assert (Rabs ((Shader.hash (aProgress * 1.5) - 0.5) * 3.0) <= 2).
    { unfold Rabs. destruct (Rcase_abs _); lra. }
    nra.
  - intros E. injection E as <-.
    cbn [MagicCircle.r MagicCircle.z MagicCircle.sizeMult].
    set (fermatIdx := (segmentProgress - 0.8) / 0.2 * 50.0).
    pose proof (mod_range (sqrt fermatIdx * 0.9 + 3.0 - 3.0) 4.5 ltac:(lra)).
    pose proof (COS_bound (fermatIdx * 0.3)).
    split; [lra |]. split; [| lra].
    rewrite Rabs_mult.
    assert (Rabs (cos (fermatIdx * 0.3) * 1.5) <= 2).
    { unfold Rabs. destruct (Rcase_abs _); lra. }
    nra.
Qed.

Lemma band5_bounds (segmentProgress t uRotation : R) :
  let p := MagicCircle.band5 segmentProgress t uRotation in
  0 <= MagicCircle.r p <= 12.15
  /\ Rabs (MagicCircle.z p) <= 1.5
  /\ 0.8 <= MagicCircle.sizeMult p <= 1.43
  /\ 0 <= MagicCircle.vOrbTrail p <= 1.
Proof.
  intros p; subst p. unfold MagicCircle.band5. cbv zeta.
  cbn [MagicCircle.r MagicCircle.z MagicCircle.sizeMult MagicCircle.vOrbTrail].
  set (orbIdx := Glsl.floor (segmentProgress * 7.0)).
  set (op := Glsl.fract (segmentProgress * 7.0)).
  pose proof (fract_range (segmentProgress * 7.0)) as Hop. fold op in Hop.
  set (dir := if Rlt_dec (Glsl.mod_ orbIdx 2.0) 1.0 then 1.0 else -1.0).
  set (speed := Rabs (sin (t * 0.5 + uRotation * 2.0 * 0.3))).
  assert (Hspeed : 0 <= speed <= 1).
  { subst speed. split; [apply Rabs_pos |].
    pose proof (SIN_bound (t * 0.5 + uRotation * 2.0 * 0.3)).
    unfold Rabs. destruct (Rcase_abs _); lra. }
  pose proof (SIN_bound (t * 1.5 + orbIdx)) as Hs1.
  set (dynamicR := 10.0 + speed * 0.8 + sin (t * 1.5 + orbIdx) * 0.5).
  assert (HdR : 9.5 <= dynamicR <= 11.3) by (subst dynamicR; lra).
  pose proof (SIN_bound (t * 8.0 + orbIdx * 0.5)) as Hs2.
  unfold MagicCircle.step.
  destruct (Rlt_dec 0.85 op) as [Hhead | Htrail].
  - (* the orb body *)
    replace (1.0 - 0.0) with 1.0 by lra. rewrite !mix_1.
    destruct (Rlt_dec 0.0 0.5) as [_ | H]; [| exfalso; lra].
    cbn [vadd vx vy vz].
    set (c2 := 1.0 - 2.0 * Shader.hash ((op - 0.85) / (1.0 - 0.85) * 7.0 + orbIdx)).
    pose proof (hash_range ((op - 0.85) / (1.0 - 0.85) * 7.0 + orbIdx)) as Hh.
    assert (Hc2 : -1 <= c2 <= 1) by (subst c2; lra).
    assert (Hsq : 0 <= 1.0 - c2 * c2 <= 1 * 1) by nra.
    pose proof (sqrt_below (1.0 - c2 * c2) 1 ltac:(lra) ltac:(lra)) as Hs.
    set (s2 := sqrt (1.0 - c2 * c2)) in *.
    replace ((0.5 - 0.5) * 2.0 * 0.0) with 0 by lra.
    match goal with
    | |- context [Shader.hash (op * 13.0 + orbIdx)] =>
        replace ((Shader.hash (op * 13.0 + orbIdx) - 0.5) * 2.0 * 0.0)
          with 0 by lra
    end.
    rewrite Rplus_0_r.
    set (ang := _ - 0.0 * dir).
    pose proof (length2_nonneg
                  (dynamicR * cos ang
                   + 0.6 * s2 * cos ((op - 0.85) / (1.0 - 0.85) * 6.28318 * 3.0))
                  (dynamicR * sin ang
                   + 0.6 * s2 * sin ((op - 0.85) / (1.0 - 0.85) * 6.28318 * 3.0))).
    pose proof (two_circles_le' ang
                  ((op - 0.85) / (1.0 - 0.85) * 6.28318 * 3.0)
                  dynamicR (0.6 * s2) ltac:(lra) ltac:(lra)).
    pose proof (SIN_bound (t * 2.0 + orbIdx * 1.2)).
    pose proof (COS_bound (uRotation * 2.0 + orbIdx)).
    split; [lra |]. split; [| split; lra].
    unfold Rabs. destruct (Rcase_abs _); lra.
  - (* the trail *)
    replace (1.0 - 1.0) with 0.0 by lra. rewrite !mix_0.
    destruct (Rlt_dec 1.0 0.5) as [H | _]; [exfalso; lra |].
    cbn [vadd vx vy vz].
    set (tp := op / 0.85).
    assert (Htp : 0 <= tp <= 1) by (subst tp; lra).
    pose proof (hash_range (op * 13.0 + orbIdx)) as Hh.
    set (ribbon := (Shader.hash (op * 13.0 + orbIdx) - 0.5) * 2.0
                   * (0.25 * tp * tp)).
    assert (Hrib : -0.25 <= ribbon <= 0.25) by (subst ribbon; nra).
    set (cr := dynamicR + ribbon).
    assert (Hcr : 9.25 <= cr <= 11.55) by (subst cr; lra).
    set (ang := _ - _ * dir).
    replace (cr * cos ang + 0.0) with (cr * cos ang) by lra.
    replace (cr * sin ang + 0.0) with (cr * sin ang) by lra.
    pose proof (length2_nonneg (cr * cos ang) (cr * sin ang)).
    assert (MagicCircle.length2 (cr * cos ang) (cr * sin ang) <= 11.55).
    { apply length2_le; [lra |].
      pose proof (sin_cos_sq ang).
      replace (cr * cos ang * (cr * cos ang) + cr * sin ang * (cr * sin ang))
        with (cr * cr * (sin ang * sin ang + cos ang * cos ang)) by ring.
      nra. }
    split; [lra |]. split; [| split; lra].
    replace (0.0 + 0.0) with 0 by lra. rewrite Rabs_R0. lra.
Qed.

Lemma band0_bounds_all (segmentProgress t : R) :
  let p := MagicCircle.band0 segmentProgress t in
  0 <= MagicCircle.r p <= 4.18 /\ MagicCircle.z p = 0
  /\ 1 <= MagicCircle.sizeMult p <= 2.5.
Proof.
  intros p; subst p. unfold MagicCircle.band0.
  destruct (Rlt_dec segmentProgress 0.25) as [H1 | H1];
    [| destruct (Rlt_dec segmentProgress 0.5) as [H2 | H2];
       [| destruct (Rlt_dec segmentProgress 0.7) as [H3 | H3]]].
  - cbn [MagicCircle.r MagicCircle.z MagicCircle.sizeMult].
    pose proof (hexagon_bounds 1.6 (segmentProgress / 0.25 * 6.28)
                  ltac:(lra)) as Hb.
    destruct (_ || _)%bool; repeat split; lra.
  - cbn [MagicCircle.r MagicCircle.z MagicCircle.sizeMult].
    pose proof (hexagon_bounds 2.4 ((segmentProgress - 0.25) / 0.25 * 6.28)
                  ltac:(lra)) as Hb.
    destruct (_ || _)%bool; repeat split; lra.
  - destruct (Rlt_dec _ 0.08);
      cbn [MagicCircle.r MagicCircle.z MagicCircle.sizeMult];
      repeat split; lra.
  - cbn [MagicCircle.r MagicCircle.z MagicCircle.sizeMult].
    pose proof (hexagon_bounds 3.6 ((segmentProgress - 0.7) / 0.3 * 6.28)
                  ltac:(lra)) as Hb.
    repeat split; lra.
Qed.

Lemma polar_bounds (aProgress t uMagic uRotation : R)
      (p : MagicCircle.Polar) :
  MagicCircle.polar aProgress t uMagic uRotation = Some p ->
  0 <= MagicCircle.r p <= 12.15
  /\ (Rabs (MagicCircle.z p) <= 1.5
      \/ Rabs (MagicCircle.z p) <= 2 * Rabs uMagic)
  /\ 0.3 <= MagicCircle.sizeMult p <= 2.5.
Proof.
  unfold MagicCircle.polar. cbv zeta.
  assert (Hz0 : forall q, MagicCircle.z q = 0 -> Rabs (MagicCircle.z q) <= 1.5).
  { intros q ->. rewrite Rabs_R0. lra. }
  destruct (Req_dec_T _ 0.0).
  { intros E. injection E as <-.
    destruct (band0_bounds_all (MagicCircle.segmentProgress aProgress) t)
      as (Hr & Hz & Hs).
    split; [lra |]. split; [left; now apply Hz0 | lra]. }
  destruct (Req_dec_T _ 1.0).
  { intros E. injection E as <-.
    destruct (band1_bounds (MagicCircle.segmentProgress aProgress) t)
      as (Hr & Hz & Hs).
    split; [lra |]. split; [left; now apply Hz0 | lra]. }
  destruct (Req_dec_T _ 2.0).
  { intros E. injection E as <-.
    destruct (band2_bounds (MagicCircle.segmentProgress aProgress) t)
      as (Hr & Hz & Hs).
    split; [lra |]. split; [left; now apply Hz0 | lra]. }
  destruct (Req_dec_T _ 3.0).
  { intros E. injection E as <-.
    destruct (band3_bounds (MagicCircle.segmentProgress aProgress) t)
      as (Hr & Hz & Hs).
    split; [lra |]. split; [left; now apply Hz0 | lra]. }
  destruct (Req_dec_T _ 4.0).
  { intros E.
    destruct (band4_bounds aProgress (MagicCircle.segmentProgress aProgress)
                t uMagic p E) as (Hr & Hz & Hs).
    split; [lra |]. split; [right; exact Hz | lra]. }
  intros E. injection E as <-.
  destruct (band5_bounds (MagicCircle.segmentProgress aProgress) t uRotation)
    as (Hr & Hz & Hs & _).
  split; [lra |]. split; [left; exact Hz | lra].
Qed.

Lemma polar_None (aProgress t uMagic uRotation : R) :
  MagicCircle.polar aProgress t uMagic uRotation = None
  <-> MagicCircle.ringID aProgress = 4
      /\ 0.6 <= MagicCircle.segmentProgress aProgress < 0.8
      /\ MagicCircle.float32Whole
         <= logSpiralR (MagicCircle.segmentProgress aProgress) t.
Proof.
  unfold MagicCircle.polar. cbv zeta.
  destruct (Req_dec_T _ 0.0) as [E0 | E0];
    [split; [discriminate | intros [H _]; exfalso; lra] |].
  destruct (Req_dec_T _ 1.0) as [E1 | E1];
    [split; [discriminate | intros [H _]; exfalso; lra] |].
  destruct (Req_dec_T _ 2.0) as [E2 | E2];
    [split; [discriminate | intros [H _]; exfalso; lra] |].
  destruct (Req_dec_T _ 3.0) as [E3 | E3];
    [split; [discriminate | intros [H _]; exfalso; lra] |].
  destruct (Req_dec_T _ 4.0) as [E4 | E4].
  - rewrite band4_None. split; [intros H; split; [lra | exact H] | tauto].
  - split; [discriminate | intros [H _]; exfalso; lra].
Qed.

(** X11: structure B stays bounded wherever the shader's floats follow the
    real reading.  For every particle, time, hand rotation and a magic
    signal in [0,1], a polar triple of the magic circle has its radius
    between 0 and 12.15, a depth of at most 2 in absolute value and a size
    multiplier between 0.3 and 2.5, and its position lies within distance
    sqrt(151.63) of the center; no polygon formula [k / cos(...)] comes
    near a zero of the cosine.  The one exception is the logarithmic spiral
    of band 4, whose [logR] grows without bound with the elapsed time:
    there is no dependable value exactly for its particles once [logR] has
    reached 2^24.  This never happens in the first 290 seconds and has
    happened to every particle of that spiral after 578 seconds. *)
Theorem mandala_bounded (aProgress t uMagic uRotation : R)
    (Hmagic : 0 <= uMagic <= 1) :
  (forall p, MagicCircle.polar aProgress t uMagic uRotation = Some p ->
     0 <= MagicCircle.r p <= 12.15
     /\ Rabs (MagicCircle.z p) <= 2
     /\ 0.3 <= MagicCircle.sizeMult p <= 2.5
     /\ MagicCircle.magicPos aProgress t uMagic uRotation
        = Some (cartesian p)
     /\ normSq (cartesian p) <= 151.63)
  /\ (MagicCircle.polar aProgress t uMagic uRotation = None
      <-> MagicCircle.ringID aProgress = 4
          /\ 0.6 <= MagicCircle.segmentProgress aProgress < 0.8
          /\ MagicCircle.float32Whole
             <= logSpiralR (MagicCircle.segmentProgress aProgress) t)
  /\ (t <= 290 -> MagicCircle.polar aProgress t uMagic uRotation <> None)
  /\ (578 <= t -> MagicCircle.ringID aProgress = 4 ->
      0.6 <= MagicCircle.segmentProgress aProgress < 0.8 ->
      MagicCircle.polar aProgress t uMagic uRotation = None).
Proof.
  split; [| split; [apply polar_None | split]].
  - intros p Hp.
    destruct (polar_bounds aProgress t uMagic uRotation p Hp)
      as (Hr & Hz & Hs).
    assert (Hz2 : Rabs (MagicCircle.z p) <= 2).
    { destruct Hz as [Hz | Hz]; [lra |].
      assert (Rabs uMagic <= 1) by (unfold Rabs; destruct (Rcase_abs _); lra).
      lra. }
    split; [exact Hr |]. split; [exact Hz2 |]. split; [exact Hs |].
    split; [unfold MagicCircle.magicPos; rewrite Hp; reflexivity |].
    unfold cartesian, normSq. cbn [vx vy vz].
    pose proof (sin_cos_sq (MagicCircle.theta p)) as Hsc.
    assert (Hzz : MagicCircle.z p * MagicCircle.z p <= 4).
    { assert (- 2 <= MagicCircle.z p <= 2).
      { revert Hz2. unfold Rabs. destruct (Rcase_abs _); lra. }
      nra. }
    replace (MagicCircle.r p * cos (MagicCircle.theta p)
             * (MagicCircle.r p * cos (MagicCircle.theta p))
             + MagicCircle.r p * sin (MagicCircle.theta p)
               * (MagicCircle.r p * sin (MagicCircle.theta p)))
      with (MagicCircle.r p * MagicCircle.r p
            * (sin (MagicCircle.theta p) * sin (MagicCircle.theta p)
               + cos (MagicCircle.theta p) * cos (MagicCircle.theta p)))
      by ring.
    rewrite Hsc. nra.
  - intros Ht Hnone. apply polar_None in Hnone.
    destruct Hnone as (_ & Hs & Hbig).
    pose proof (logSpiral_small (MagicCircle.segmentProgress aProgress) t
                  ltac:(lra) Ht).
    lra.
  - intros Ht Hband Hs. apply polar_None.
    split; [exact Hband |]. split; [exact Hs |].
    apply logSpiral_large; lra.
Qed.

Lemma mandala_bounded_witness :
  0 <= 1 <= 1
  /\ 3 <= 290
  /\ MagicCircle.polar 0.9 3 1 0.5 <> None.
Proof.
  assert (H : 0 <= 1 <= 1) by lra.
  assert (Ht : 3 <= 290) by lra.
  split; [exact H |]. split; [exact Ht |].
  exact (proj1 (proj2 (proj2 (mandala_bounded 0.9 3 1 0.5 H))) Ht).
Defined.

(** X12: the band of a particle.  [ringID] is the integer [k] exactly on
    the progress interval from k/6 (included) to (k+1)/6 (excluded), the
    position within the band lies in [0,1), and the two recover the
    progress: 6 * progress = ringID + segmentProgress.  A progress in [0,1)
    always selects one of the six bands 0..5. *)
Theorem band_selection (aProgress : R) (k : Z) :
  (MagicCircle.ringID aProgress = IZR k
   <-> IZR k / 6 <= aProgress < (IZR k + 1) / 6)
  /\ 0 <= MagicCircle.segmentProgress aProgress < 1
  /\ aProgress * 6
     = MagicCircle.ringID aProgress + MagicCircle.segmentProgress aProgress
  /\ (0 <= aProgress < 1 ->
      exists j : Z, (0 <= j <= 5)%Z /\ MagicCircle.ringID aProgress = IZR j).
Proof.
  unfold MagicCircle.ringID, MagicCircle.segmentProgress,
    MagicCircle.totalSegments.
  replace 6.0 with 6 by lra.
  split; [| split; [| split]].
  - rewrite floor_IZR_iff. split; intros [H1 H2]; split; lra.
  - apply fract_range.
  - unfold Glsl.fract. ring.
  - intros [H0 H1]. exists (Int_part (aProgress * 6)).
    split; [| reflexivity].
    pose proof (floor_bounds (aProgress * 6)) as [Hf1 Hf2].
    unfold Glsl.floor in Hf1, Hf2.
    split.
    + assert (-1 < Int_part (aProgress * 6))%Z by (apply lt_IZR; lra).
      lia.
    + assert (IZR (Int_part (aProgress * 6)) < 6) by lra.
      assert (Int_part (aProgress * 6) < 6)%Z by (apply lt_IZR; lra).
      lia.
Qed.

Lemma band_selection_witness :
  0 <= 0.7 < 1 /\ MagicCircle.ringID 0.7 = IZR 4.
Proof.
  assert (H : IZR 4 / 6 <= 0.7 < (IZR 4 + 1) / 6) by lra.
  split; [lra |].
  apply (proj1 (band_selection 0.7 4)). exact H.
Defined.

Lemma length2_factor (x y : R) :
  x <> 0 ->
  MagicCircle.length2 x y = Rabs x * sqrt (1 + (y / x)²).
Proof.
  intros Hx. unfold MagicCircle.length2.
  assert (H1 : 0 <= 1 + (y / x)²) by (unfold Rsqr; nra).
  pose proof (sqrt_sqrt _ H1) as Hs.
  pose proof (sqrt_pos (1 + (y / x)²)) as Hs0.
  apply sqrt_lem_1.
  - nra.
  - apply Rmult_le_pos; [apply Rabs_pos | exact Hs0].
  - replace (Rabs x * sqrt (1 + (y / x)²) * (Rabs x * sqrt (1 + (y / x)²)))
      with (Rabs x * Rabs x
            * (sqrt (1 + (y / x)²) * sqrt (1 + (y / x)²))) by ring.
    rewrite Hs.
    replace (Rabs x * Rabs x) with (x * x)
      by (unfold Rabs; destruct (Rcase_abs x); ring).
    unfold Rsqr. field. exact Hx.
Qed.

Lemma polar_back (x y : R) :
  MagicCircle.length2 x y * cos (MagicCircle.atan_yx y x) = x
  /\ MagicCircle.length2 x y * sin (MagicCircle.atan_yx y x) = y.
Proof.
  unfold MagicCircle.atan_yx, HandController.atan2.
  destruct (Rlt_dec 0 x) as [Hx | Hx];
    [| destruct (Rlt_dec x 0) as [Hx' | Hx']].
  - rewrite (length2_factor x y) by lra.
    rewrite cos_atan, sin_atan, (Rabs_right x) by lra.
    assert (Hs : 0 < sqrt (1 + (y / x)²)).
    { apply sqrt_lt_R0. unfold Rsqr. nra. }
    split; field; lra.
  - rewrite (length2_factor x y) by lra.
    rewrite (Rabs_left x) by lra.
    assert (Hs : 0 < sqrt (1 + (y / x)²)).
    { apply sqrt_lt_R0. unfold Rsqr. nra. }
    destruct (Rle_dec 0 y).
    + rewrite neg_cos, neg_sin, cos_atan, sin_atan. split; field; lra.
    + unfold Rminus. rewrite <- (Ropp_involutive (atan (y / x) + - PI)).
      rewrite cos_neg, sin_neg.
      replace (- (atan (y / x) + - PI)) with (- atan (y / x) + PI) by ring.
      rewrite neg_cos, neg_sin, cos_neg, sin_neg, cos_atan, sin_atan.
      split; field; lra.
  - assert (E : x = 0) by lra. subst x.
    assert (Hl : MagicCircle.length2 0 y = Rabs y).
    { unfold MagicCircle.length2.
      replace (0 * 0 + y * y) with (y * y) by ring.
      unfold Rabs. destruct (Rcase_abs y).
      - replace (y * y) with (- y * - y) by ring. apply sqrt_square. lra.
      - apply sqrt_square. lra. }
    rewrite Hl.
    destruct (Rlt_dec 0 y); [| destruct (Rlt_dec y 0)].
    + rewrite cos_PI2, sin_PI2, Rabs_right by lra. split; ring.
    + rewrite cos_neg, sin_neg, cos_PI2, sin_PI2, Rabs_left by lra.
      split; ring.
    + assert (y = 0) by lra. subst y. rewrite Rabs_R0. split; ring.
Qed.

Lemma circle_point_radius (cx cy a rad : R) :
  let px := cx + cos a * rad in
  let py := cy + sin a * rad in
  (px - cx) * (px - cx) + (py - cy) * (py - cy) = rad * rad.
Proof.
  cbv zeta. pose proof (sin_cos_sq a) as H.
  replace ((cx + cos a * rad - cx) * (cx + cos a * rad - cx)
           + (cy + sin a * rad - cy) * (cy + sin a * rad - cy))
    with (rad * rad * (sin a * sin a + cos a * cos a)) by ring.
  rewrite H. ring.
Qed.

Lemma two_circles_sq (a b p q : R) :
  let px := cos a * p + cos b * q in
  let py := sin a * p + sin b * q in
  px * px + py * py = p * p + q * q + 2 * p * q * cos (a - b).
Proof.
  cbv zeta. rewrite cos_minus.
  pose proof (sin_cos_sq a) as Ha. pose proof (sin_cos_sq b) as Hb.
  replace ((cos a * p + cos b * q) * (cos a * p + cos b * q)
           + (sin a * p + sin b * q) * (sin a * p + sin b * q))
    with (p * p * (sin a * sin a + cos a * cos a)
          + q * q * (sin b * sin b + cos b * cos b)
          + 2 * p * q * (cos a * cos b + sin a * sin b)) by ring.
  rewrite Ha, Hb. ring.
Qed.

(** X13: the flower of life of band 1.  In its first half the band draws
    six circles of radius 1.8 whose centers lie at distance 1.8 from the
    middle, so that every circle passes through the middle: a particle
    that is not at the middle itself (there the angle the shader takes is
    not defined) lies exactly on the circle of its petal, after the detour
    through [length] and [atan] and back through cosine and sine.  In the
    third quarter it draws twelve circles of radius 0.6 around centers at
    distance 3.8; these stay between 3.2 and 4.4 from the middle, and every
    particle lies exactly on its circle.  The last quarter draws radial
    lines from 1.5 to 4.3. *)
Theorem flower_circles (segmentProgress t : R) :
  let p := MagicCircle.band1 segmentProgress t in
  (segmentProgress < 0.5 ->
     let k := Glsl.floor (segmentProgress / 0.5 * 6) in
     let c := circleCentre k 6 1.8 (- (t * 0.35)) in
     normSq c = 1.8 * 1.8
     /\ (MagicCircle.r p <> 0 ->
         normSq (vsub (cartesian p) c) = 1.8 * 1.8)
     /\ 0 <= MagicCircle.r p <= 3.6)
  /\ (0.5 <= segmentProgress < 0.75 ->
     let k := Glsl.floor ((segmentProgress - 0.5) / 0.25 * 12) in
     let c := circleCentre k 12 3.8 (t * 0.5) in
     normSq (vsub (cartesian p) c) = 0.6 * 0.6
     /\ 3.2 <= MagicCircle.r p <= 4.4)
  /\ (0.75 <= segmentProgress ->
     1.5 <= MagicCircle.r p < 4.3 /\ MagicCircle.z p = 0).
Proof.
  intros p. subst p.
  split; [| split].
  - intros Hlt k c. unfold MagicCircle.band1. cbv zeta.
    destruct (Rlt_dec segmentProgress 0.5) as [_ | H]; [| exfalso; lra].
    cbn [MagicCircle.r].
    replace 6.0 with 6 by lra. fold k.
    set (pa := k / 6 * 6.28 - t * 0.35).
    set (la := Glsl.fract (segmentProgress / 0.5 * 6) * 6.28).
    assert (Hc : c = Vec3 (1.8 * cos pa) (1.8 * sin pa) 0).
    { unfold c, circleCentre. cbv zeta.
      replace (k / 6 * 6.28 + - (t * 0.35)) with pa by (unfold pa; ring).
      reflexivity. }
    split; [| split].
    + rewrite Hc. unfold normSq. cbn [vx vy vz].
      pose proof (sin_cos_sq pa). nra.
    + intros _. unfold cartesian. cbn [MagicCircle.r MagicCircle.theta
                                        MagicCircle.z].
      destruct (polar_back (cos pa * 1.8 + cos la * 1.8)
                  (sin pa * 1.8 + sin la * 1.8)) as [Ex Ey].
      rewrite Ex, Ey, Hc. unfold vsub, normSq. cbn [vx vy vz].
      pose proof (circle_point_radius (cos pa * 1.8) (sin pa * 1.8) la 1.8)
        as Hcirc. cbv zeta in Hcirc.
      replace (cos pa * 1.8 + cos la * 1.8 - 1.8 * cos pa)
        with (cos pa * 1.8 + cos la * 1.8 - cos pa * 1.8) by ring.
      replace (sin pa * 1.8 + sin la * 1.8 - 1.8 * sin pa)
        with (sin pa * 1.8 + sin la * 1.8 - sin pa * 1.8) by ring.
      lra.
    + split; [apply length2_nonneg |].
      apply length2_le; [lra |].
      pose proof (two_circles_sq pa la 1.8 1.8) as Hsq. cbv zeta in Hsq.
      rewrite Hsq. pose proof (COS_bound (pa - la)). nra.
  - intros [Hge Hlt] k c. unfold MagicCircle.band1. cbv zeta.
    destruct (Rlt_dec segmentProgress 0.5) as [H | _]; [exfalso; lra |].
    destruct (Rlt_dec segmentProgress 0.75) as [_ | H]; [| exfalso; lra].
    replace 12.0 with 12 by lra. fold k.
    set (sa := k / 12 * 6.28 + t * 0.5).
    set (la := Glsl.fract ((segmentProgress - 0.5) / 0.25 * 12) * 6.28).
    assert (Hc : c = Vec3 (3.8 * cos sa) (3.8 * sin sa) 0) by reflexivity.
    pose proof (two_circles_sq sa la 3.8 0.6) as Hsq. cbv zeta in Hsq.
    pose proof (COS_bound (sa - la)) as Hcos.
    split.
    + unfold cartesian. cbn [MagicCircle.r MagicCircle.theta MagicCircle.z].
      destruct (polar_back (cos sa * 3.8 + cos la * 0.6)
                  (sin sa * 3.8 + sin la * 0.6)) as [Ex Ey].
      rewrite Ex, Ey, Hc. unfold vsub, normSq. cbn [vx vy vz].
      pose proof (circle_point_radius (cos sa * 3.8) (sin sa * 3.8) la 0.6)
        as Hcirc. cbv zeta in Hcirc.
      replace (cos sa * 3.8 + cos la * 0.6 - 3.8 * cos sa)
        with (cos sa * 3.8 + cos la * 0.6 - cos sa * 3.8) by ring.
      replace (sin sa * 3.8 + sin la * 0.6 - 3.8 * sin sa)
        with (sin sa * 3.8 + sin la * 0.6 - sin sa * 3.8) by ring.
      lra.
    + cbn [MagicCircle.r].
      set (px := cos sa * 3.8 + cos la * 0.6) in *.
      set (py := sin sa * 3.8 + sin la * 0.6) in *.
      assert (Hr0 : 0 <= MagicCircle.length2 px py)
        by apply length2_nonneg.
      assert (Hr2 : MagicCircle.length2 px py * MagicCircle.length2 px py
                    = px * px + py * py).
      { unfold MagicCircle.length2. apply sqrt_sqrt. nra. }
      split; nra.
  - intros Hge. unfold MagicCircle.band1. cbv zeta.
    destruct (Rlt_dec segmentProgress 0.5) as [H | _]; [exfalso; lra |].
    destruct (Rlt_dec segmentProgress 0.75) as [H | _]; [exfalso; lra |].
    cbn [MagicCircle.r MagicCircle.z].
    pose proof (fract_range ((segmentProgress - 0.75) / 0.25 * 12.0)) as Hf.
    split; lra.
Qed.

Lemma flower_circles_witness :
  0.5 <= 0.6 < 0.75
  /\ 3.2 <= MagicCircle.r (MagicCircle.band1 0.6 2) <= 4.4.
Proof.
  assert (H : 0.5 <= 0.6 < 0.75) by lra.
  split; [exact H |].
  exact (proj2 (proj1 (proj2 (flower_circles 0.6 2)) H)).
Defined.

(** X14: the seven orbs.  The head particles of an orb (the last 15% of its
    share) lie exactly on a sphere of radius 0.6 around the orb's center and
    have full trail intensity 1; the trail particles lie in the orbit plane
    (z = 0) with an intensity that grows linearly from 0 at the tail to 1
    where the trail meets the head. *)
Theorem orb_head_sphere_and_trail (segmentProgress t uRotation : R) :
  let orbIdx := Glsl.floor (segmentProgress * 7.0) in
  let orbProgress := Glsl.fract (segmentProgress * 7.0) in
  let p := MagicCircle.band5 segmentProgress t uRotation in
  (0.85 < orbProgress ->
     normSq (vsub (cartesian p) (orbCenterOf orbIdx t uRotation)) = 0.36
     /\ MagicCircle.vOrbTrail p = 1)
  /\ (orbProgress <= 0.85 ->
     MagicCircle.z p = 0
     /\ MagicCircle.vOrbTrail p = orbProgress / 0.85
     /\ 0 <= MagicCircle.vOrbTrail p <= 1).
Proof.
  intros orbIdx orbProgress p.
  pose proof (fract_range (segmentProgress * 7.0)) as Hop.
  fold orbProgress in Hop.
  subst p. unfold cartesian, MagicCircle.band5. cbv zeta.
  cbn [MagicCircle.r MagicCircle.z MagicCircle.theta MagicCircle.vOrbTrail].
  fold orbIdx orbProgress. unfold MagicCircle.step.
  split; intros Hcase.
  - destruct (Rlt_dec 0.85 orbProgress) as [_ | H]; [| exfalso; lra].
    replace (1.0 - 0.0) with 1.0 by lra. rewrite !mix_1.
    destruct (Rlt_dec 0.0 0.5) as [_ | H]; [| exfalso; lra].
    split; [| lra].
    cbn [vadd vx vy vz].
    match goal with
    | |- context [MagicCircle.length2 ?a ?b] =>
        destruct (polar_back a b) as [Ex Ey]
    end.
    unfold MagicCircle.atan_yx in *. rewrite Ex, Ey. clear Ex Ey.
    unfold orbCenterOf, vsub, normSq. cbv zeta. cbn [vx vy vz].
    set (dir := if Rlt_dec (Glsl.mod_ orbIdx 2.0) 1.0 then 1.0 else -1.0).
    set (c2 := 1.0 - 2.0 * Shader.hash
                             ((orbProgress - 0.85) / (1.0 - 0.85) * 7.0 + orbIdx)).
    pose proof (hash_range ((orbProgress - 0.85) / (1.0 - 0.85) * 7.0 + orbIdx))
      as Hh.
    assert (Hc2 : 0 <= 1.0 - c2 * c2) by (subst c2; nra).
    pose proof (sqrt_sqrt _ Hc2) as Hs.
    set (s2 := sqrt (1.0 - c2 * c2)) in *.
    set (phi := (orbProgress - 0.85) / (1.0 - 0.85) * 6.28318 * 3.0).
    pose proof (sin_cos_sq phi) as Hphi.
    match goal with
    | |- context [Shader.hash (orbProgress * 13.0 + orbIdx)] =>
        replace ((Shader.hash (orbProgress * 13.0 + orbIdx) - 0.5) * 2.0 * 0.0)
          with 0 by lra
    end.
    rewrite Rplus_0_r.
    match goal with
    | |- context [cos (?a - 0.0 * dir)] =>
        replace (a - 0.0 * dir) with a by lra
    end.
    replace 0.36 with (0.6 * 0.6 * ((1.0 - c2 * c2)
                                     * (sin phi * sin phi + cos phi * cos phi)
                                     + c2 * c2))
      by (rewrite Hphi; lra).
    rewrite <- Hs. ring.
  - destruct (Rlt_dec 0.85 orbProgress) as [H | _]; [exfalso; lra |].
    replace (1.0 - 1.0) with 0.0 by lra. rewrite !mix_0.
    destruct (Rlt_dec 1.0 0.5) as [H | _]; [exfalso; lra |].
    cbn [vadd vx vy vz].
    split; [lra |]. split; [reflexivity |].
    split.
    + apply Rmult_le_pos; lra.
    + lra.
Qed.

Lemma orb_head_sphere_and_trail_witness :
  Glsl.fract (0 * 7.0) <= 0.85
  /\ MagicCircle.z (MagicCircle.band5 0 1 0.5) = 0.
Proof.
  assert (H : Glsl.fract (0 * 7.0) <= 0.85).
  { unfold Glsl.fract, Glsl.floor.
    rewrite Rmult_0_l. change (0 - IZR (Int_part 0)) with (frac_part 0).
    rewrite fp_R0. lra. }
  split; [exact H |].
  apply (proj2 (orb_head_sphere_and_trail 0 1 0.5) H).
Defined.

Lemma int_of_mod (x y : R) (n : Z) :
  0 < y -> y = IZR n ->
  (0 <= MagicCircle.int_ (Glsl.mod_ x y) <= n - 1)%Z.
Proof.
  intros Hy Hn. pose proof (mod_range x y Hy) as [H0 H1].
  unfold MagicCircle.int_.
  destruct (Rle_dec 0 (Glsl.mod_ x y)) as [_ | H]; [| exfalso; lra].
  destruct (base_Int_part (Glsl.mod_ x y)) as [Hi1 Hi2].
  split.
  - assert (-1 < Int_part (Glsl.mod_ x y))%Z by (apply lt_IZR; lra). lia.
  - assert (Int_part (Glsl.mod_ x y) < n)%Z by (apply lt_IZR; lra). lia.
Qed.

(** X15: the digits-of-pi layer of band 3 never reads outside its table:
    the index [int(mod(digitIdx, 10.0))] is always between 0 and 9, the
    digit read is one of the ten entries, and the layer's radius
    [7.0 + digit * 0.08] lies between 7.08 and 7.72 with a size multiplier
    between 0.5 and 1.3. *)
Theorem pi_digit_lookup_in_range (segmentProgress t : R)
    (Hlayer : 0.65 <= segmentProgress < 0.8) :
  let localP := (segmentProgress - 0.65) / 0.15 in
  let idx := MagicCircle.int_ (Glsl.mod_ (Glsl.floor (localP * 20.0)) 10.0) in
  let p := MagicCircle.band3 segmentProgress t in
  (0 <= idx <= 9)%Z
  /\ In (nth (Z.to_nat idx) MagicCircle.piDigits 0) MagicCircle.piDigits
  /\ MagicCircle.r p = 7.0 + nth (Z.to_nat idx) MagicCircle.piDigits 0 * 0.08
  /\ 7.08 <= MagicCircle.r p <= 7.72
  /\ 0.5 <= MagicCircle.sizeMult p <= 1.3.
Proof.
  intros localP idx p.
  assert (Hidx : (0 <= idx <= 9)%Z).
  { subst idx. apply (int_of_mod _ 10.0 10); lra. }
  assert (Hin : In (nth (Z.to_nat idx) MagicCircle.piDigits 0)
                   MagicCircle.piDigits).
  { apply nth_In. unfold MagicCircle.piDigits. cbn [length]. lia. }
  assert (Hd : 1 <= nth (Z.to_nat idx) MagicCircle.piDigits 0 <= 9).
  { revert Hin. generalize (nth (Z.to_nat idx) MagicCircle.piDigits 0).
    intros d Hd. unfold MagicCircle.piDigits in Hd. cbn [In] in Hd.
    repeat (destruct Hd as [<- | Hd]; [lra |]). contradiction. }
  subst p. unfold MagicCircle.band3.
  destruct (Rlt_dec segmentProgress 0.25); [exfalso; lra |].
  destruct (Rlt_dec segmentProgress 0.45); [exfalso; lra |].
  destruct (Rlt_dec segmentProgress 0.65); [exfalso; lra |].
  destruct (Rlt_dec segmentProgress 0.8); [| exfalso; lra].
  cbn [MagicCircle.r MagicCircle.sizeMult].
  fold localP. fold idx.
  repeat split; try assumption; try reflexivity; lra || lia.
Qed.

Lemma pi_digit_lookup_in_range_witness :
  0.65 <= 0.7 < 0.8
  /\ 7.08 <= MagicCircle.r (MagicCircle.band3 0.7 0) <= 7.72.
Proof.
  assert (H : 0.65 <= 0.7 < 0.8) by lra.
  split; [exact H |].
  apply (pi_digit_lookup_in_range 0.7 0 H).
Defined.

(** X16: the degenerate-radius guard and the gapped arcs.  For a particle of
    band 3 in the arc layer, the point size is exactly 0 when it falls into
    a gap of its arc (the first or last 15% of the arc), whatever the
    magic value, view depth and base size; outside the gaps the arc radius
    is at least 5.6, the guard stays silent and the size is the attenuated
    base size times [mix(1.0, 0.6, easeMagic)]. *)
Theorem arc_gaps_hidden (uSize mvZ aProgress t uMagic uRotation : R)
    (Hband : MagicCircle.ringID aProgress = 3)
    (Hlayer : 0.45 <= MagicCircle.segmentProgress aProgress < 0.65) :
  let localP := (MagicCircle.segmentProgress aProgress - 0.45) / 0.2 in
  let arcProgress := Glsl.fract (localP * 8.0) in
  let size := MagicCircle.pointSize uSize mvZ aProgress t uMagic uRotation in
  ((arcProgress <= 0.15 \/ 0.85 <= arcProgress) -> size = Some 0)
  /\ (0.15 < arcProgress < 0.85 ->
      size = Some (uSize * (40.0 / - mvZ)
                   * Glsl.mix 1.0 0.6 (Shader.easeMagic uMagic))).
Proof.
  intros localP arcProgress size. subst size.
  unfold MagicCircle.pointSize, MagicCircle.polar. cbv zeta.
  rewrite Hband.
  destruct (Req_dec_T 3 0.0); [exfalso; lra |].
  destruct (Req_dec_T 3 1.0); [exfalso; lra |].
  destruct (Req_dec_T 3 2.0); [exfalso; lra |].
  destruct (Req_dec_T 3 3.0); [| exfalso; lra].
  unfold MagicCircle.band3.
  destruct (Rlt_dec _ 0.25); [exfalso; lra |].
  destruct (Rlt_dec _ 0.45); [exfalso; lra |].
  destruct (Rlt_dec _ 0.65); [| exfalso; lra].
  fold localP. fold arcProgress.
  assert (H3 : Rltb 0.0 3 = true) by (apply Rltb_true; lra).
  split; intros Hcase.
  - assert (Hgap : (Rltb 0.15 arcProgress && Rltb arcProgress 0.85)%bool = false).
    { destruct Hcase as [H | H].
      - replace (Rltb 0.15 arcProgress) with false; [reflexivity |].
        symmetry. apply Rltb_false. lra.
      - replace (Rltb arcProgress 0.85) with false; [apply andb_false_r |].
        symmetry. apply Rltb_false. lra. }
    rewrite Hgap. cbn [MagicCircle.r MagicCircle.sizeMult].
    replace (Rltb 0.001 0.1) with true by (symmetry; apply Rltb_true; lra).
    rewrite H3. cbn [andb]. f_equal. lra.
  - assert (Harc : (Rltb 0.15 arcProgress && Rltb arcProgress 0.85)%bool = true).
    { apply andb_true_intro. split; apply Rltb_true; lra. }
    rewrite Harc. cbn [MagicCircle.r MagicCircle.sizeMult].
    pose proof (mod_range (Glsl.floor (localP * 8.0)) 3.0 ltac:(lra)) as Hm.
    replace (Rltb (6.8 - Glsl.mod_ (Glsl.floor (localP * 8.0)) 3.0 * 0.4) 0.1)
      with false by (symmetry; apply Rltb_false; lra).
    cbn [andb]. reflexivity.
Qed.

Lemma fract_of_floor (x : R) (k : Z) :
  IZR k <= x < IZR k + 1 -> Glsl.fract x = x - IZR k.
Proof.
  intros H. unfold Glsl.fract. apply floor_IZR_iff in H. rewrite H. ring.
Qed.

Lemma arc_gaps_hidden_witness :
  MagicCircle.pointSize 12 (-50) 0.5755 0 1 0 = Some 0.
Proof.
  assert (Hband : MagicCircle.ringID 0.5755 = 3).
  { unfold MagicCircle.ringID, MagicCircle.totalSegments.
    apply (floor_IZR_iff _ 3). lra. }
  assert (Hsp : MagicCircle.segmentProgress 0.5755 = 0.453).
  { unfold MagicCircle.segmentProgress, MagicCircle.totalSegments.
    rewrite (fract_of_floor _ 3); lra. }
  assert (Hlayer : 0.45 <= MagicCircle.segmentProgress 0.5755 < 0.65)
    by (rewrite Hsp; lra).
  apply (proj1 (arc_gaps_hidden 12 (-50) 0.5755 0 1 0 Hband Hlayer)).
  left. rewrite Hsp. rewrite (fract_of_floor _ 0); lra.
Defined.

(** ** The vertex shader as a whole *)

(** X17: with the magic signal at 0 and the blast amount at or below the
    guard 0.01, the position the shader emits for a particle is exactly its
    structure-A position: nothing of the magic circle, of the hand rotation
    or of the blast scatter enters, and the point lies within 1.0815 times
    the distance of its generated position from the center.  This holds
    wherever the magic circle has a dependable value, in particular for
    every particle during the first 290 seconds. *)
Theorem rest_pose_is_structureA (u : Vertex.Uniforms) (position : vec3)
    (aProgress : R)
    (Hmagic : Vertex.uMagic u = 0) (Hblast : Vertex.uBlast u <= 0.01) :
  let rest :=
    Shader.butterflyPos (Vertex.uTime u) (Vertex.uPinch u) aProgress
      position in
  (forall v, Vertex.finalPos u position aProgress = Some v -> v = rest)
  /\ (Vertex.uTime u <= 290 ->
      Vertex.finalPos u position aProgress = Some rest)
  /\ normSq rest <= 1.0815 * 1.0815 * normSq position.
Proof.
  intros rest.
  assert (E : forall mp,
            MagicCircle.magicPos aProgress (Vertex.uTime u) (Vertex.uMagic u)
              (Vertex.uRotation u) = Some mp ->
            Vertex.finalPos u position aProgress = Some rest).
  { intros mp Hmp. unfold Vertex.finalPos. cbv zeta. rewrite Hmp.
    rewrite blastStage_off by exact Hblast. cbn [fst].
    rewrite Hmagic. f_equal. apply blend_at_magic_0. }
  split; [| split].
  - intros v Hv.
    destruct (MagicCircle.magicPos aProgress (Vertex.uTime u)
                (Vertex.uMagic u) (Vertex.uRotation u)) as [mp |] eqn:Hmp.
    + rewrite (E mp eq_refl) in Hv. now injection Hv as <-.
    + unfold Vertex.finalPos in Hv. cbv zeta in Hv. rewrite Hmp in Hv.
      discriminate.
  - intros Ht.
    destruct (MagicCircle.polar aProgress (Vertex.uTime u) (Vertex.uMagic u)
                (Vertex.uRotation u)) as [p |] eqn:Hp.
    + apply (E (cartesian p)). unfold MagicCircle.magicPos. rewrite Hp.
      reflexivity.
    + exfalso. apply polar_None in Hp. destruct Hp as (_ & Hs & Hbig).
      pose proof (logSpiral_small
                    (MagicCircle.segmentProgress aProgress) (Vertex.uTime u)
                    ltac:(lra) Ht).
      lra.
  - destruct (structureA_radius_bound (Vertex.uTime u) (Vertex.uPinch u)
                aProgress position) as (k & Hk & Hn).
    unfold rest. rewrite Hn.
    assert (0 <= normSq position) by (unfold normSq; nra).
    assert (k * k <= 1.0815 * 1.0815) by nra.
    nra.
Qed.

Lemma rest_pose_is_structureA_witness :
  Vertex.uMagic (Vertex.mkUniforms 2 0 1 0.3 0) = 0
  /\ Vertex.uBlast (Vertex.mkUniforms 2 0 1 0.3 0) <= 0.01
  /\ Vertex.finalPos (Vertex.mkUniforms 2 0 1 0.3 0) (Vec3 1 2 3) 0.4
     = Some (Shader.butterflyPos 2 1 0.4 (Vec3 1 2 3)).
Proof.
  assert (Hb : Vertex.uBlast (Vertex.mkUniforms 2 0 1 0.3 0) <= 0.01)
    by (cbn; lra).
  split; [reflexivity |]. split; [exact Hb |].
  apply (proj1 (proj2 (rest_pose_is_structureA
                         (Vertex.mkUniforms 2 0 1 0.3 0) (Vec3 1 2 3) 0.4
                         eq_refl Hb))).
  cbn. lra.
Defined.

Lemma structureA_radius_factor_witness :
  0.3 < 0.8
  /\ normSq (Shader.rotated 5 0.3 (Vec3 1 2 3)) = normSq (Vec3 1 2 3).
Proof.
  assert (H : 0.3 < 0.8) by lra.
  split; [exact H |].
  apply (proj1 (structureA_radius_factor 5 1 0.3 (Vec3 1 2 3)) H).
Defined.

(** ** Fragment shader *)

Lemma trailIntensity_unit (uTime vProgress : R) :
  0 <= Fragment.trailIntensity uTime vProgress <= 1.
Proof.
  unfold Fragment.trailIntensity. cbv zeta.
  destruct (_ && _)%bool; [lra | apply smoothstep_range].
Qed.

Lemma unit_mult (a b : R) : 0 <= a <= 1 -> 0 <= b <= 1 -> 0 <= a * b <= 1.
Proof. intros; split; nra. Qed.

Lemma unit_mix (a b t : R) :
  0 <= a <= 1 -> 0 <= b <= 1 -> 0 <= t <= 1 -> 0 <= Glsl.mix a b t <= 1.
Proof. intros; unfold Glsl.mix; split; nra. Qed.

(** X18: the fragment shader discards a fragment exactly when it lies more
    than 0.5 from the center of the point sprite.  For the others, with
    magic, visibility and blast alpha within [0,1] (as the vertex stage and
    the frame loop deliver them), the alpha written is within [0,1], and
    it is 0 as soon as the visibility or the blast alpha is 0: an undetected
    hand or a finished blast hides the cloud whatever the band and time. *)
Theorem fragment_alpha_unit (uColor : vec3) (uTime uBlast : R)
    (v : Fragment.Varyings) (pcx pcy : R)
    (Hm : unit (Fragment.vMagic v)) (Hv : unit (Fragment.vVisible v))
    (Hb : unit (Fragment.vBlastAlpha v)) :
  match Fragment.main uColor uTime uBlast v pcx pcy with
  | None => 0.5 < MagicCircle.length2 (pcx - 0.5) (pcy - 0.5)
  | Some (_, alpha) =>
      MagicCircle.length2 (pcx - 0.5) (pcy - 0.5) <= 0.5
      /\ 0 <= alpha <= 1
      /\ (Fragment.vVisible v = 0 -> alpha = 0)
      /\ (Fragment.vBlastAlpha v = 0 -> alpha = 0)
  end.
Proof.
  unfold unit in *. unfold Fragment.main. cbv zeta.
  set (dist := MagicCircle.length2 (pcx - 0.5) (pcy - 0.5)).
  pose proof (length2_nonneg (pcx - 0.5) (pcy - 0.5)) as Hd0. fold dist in Hd0.
  destruct (Rlt_dec 0.5 dist) as [Hd | Hd]; [exact Hd |].
  set (glow := (1.0 - dist * 2.0) ^ 3).
  assert (Hg : 0 <= glow <= 1).
  { subst glow.
    assert (Hb1 : 0 <= 1.0 - dist * 2.0 <= 1) by lra.
    split; [apply pow_le; lra |].
    simpl. rewrite Rmult_1_r.
    assert (0 <= (1.0 - dist * 2.0) * (1.0 - dist * 2.0) <= 1)
      by (apply unit_mult; lra).
    apply (unit_mult _ _ Hb1). assumption. }
  pose proof (trailIntensity_unit uTime (Fragment.vProgress v)) as Hti.
  set (ti := Fragment.trailIntensity uTime (Fragment.vProgress v)) in *.
  assert (Hba : 0 <= (0.1 + ti * 0.9) * glow <= 1)
    by (apply unit_mult; lra).
  set (ma := if Req_dec_T (Fragment.vRingID v) 5.0 then _ else _).
  assert (Hma : 0 <= ma <= 1).
  { subst ma.
    assert (H1 : 0 <= (if Req_dec_T (Fragment.vRingID v) 4.0
                       then glow * (0.5 + 0.5 * sin (uTime * 10.0
                                      + Fragment.vProgress v * 100.0))
                       else glow) <= 1).
    { destruct (Req_dec_T _ 4.0); [| exact Hg].
      pose proof (SIN_bound (uTime * 10.0 + Fragment.vProgress v * 100.0)).
      apply unit_mult; lra. }
    destruct (Req_dec_T _ 5.0); [| exact H1].
    apply unit_mult; [exact H1 | apply smoothstep_range]. }
  pose proof (unit_mix _ _ _ Hba Hma Hm) as Ha0.
  set (a0 := Glsl.mix _ ma _) in *.
  split; [lra |].
  split; [apply unit_mult; [apply unit_mult |]; assumption |].
  split; intros ->; ring.
Qed.

Lemma fragment_alpha_unit_witness :
  match Fragment.main (Vec3 0.5 0.4 1) 3 0
          (Fragment.mkVaryings 0.3 1 0 5 0 0.5 1) 0.5 0.5 with
  | None => False
  | Some (_, alpha) => alpha = 0
  end.
Proof.
  pose proof (fragment_alpha_unit (Vec3 0.5 0.4 1) 3 0
                (Fragment.mkVaryings 0.3 1 0 5 0 0.5 1) 0.5 0.5) as H.
  cbn [Fragment.vMagic Fragment.vVisible Fragment.vBlastAlpha] in H.
  specialize (H ltac:(unfold unit; lra) ltac:(unfold unit; lra)
                ltac:(unfold unit; lra)).
  destruct (Fragment.main _ _ _ _ _ _) as [[rgb alpha] |].
  - destruct H as (_ & _ & Hvis & _). apply Hvis. reflexivity.
  - revert H. unfold MagicCircle.length2.
    replace ((0.5 - 0.5) * (0.5 - 0.5) + (0.5 - 0.5) * (0.5 - 0.5)) with 0
      by ring.
    rewrite sqrt_0. lra.
Defined.

(** ** Particle generator: where the particles lie *)

Lemma phi_ico_sq : Generator.phi_ico * Generator.phi_ico = Generator.phi_ico + 1.
Proof.
  unfold Generator.phi_ico.
  pose proof (sqrt_sqrt 5 ltac:(lra)) as H5.
  replace ((1 + sqrt 5) / 2 * ((1 + sqrt 5) / 2))
    with ((1 + 2 * sqrt 5 + sqrt 5 * sqrt 5) / 4) by field.
  rewrite H5. field.
Qed.

Lemma phi_ico_pos : 0 < Generator.phi_ico.
Proof.
  unfold Generator.phi_ico. pose proof (sqrt_pos 5). lra.
Qed.

Lemma icoVertex_norm (v : nat) :
  normSq (nth v Generator.icoVertices Generator.zero3)
  <= 1 + Generator.phi_ico * Generator.phi_ico
  /\ ((v < 12)%nat ->
      normSq (nth v Generator.icoVertices Generator.zero3)
      = 1 + Generator.phi_ico * Generator.phi_ico).
Proof.
  pose proof phi_ico_pos as Hp.
  assert (H0 : 0 <= Generator.phi_ico * Generator.phi_ico) by nra.
  unfold Generator.icoVertices, normSq.
  do 12 (destruct v as [| v];
         [cbn [nth vx vy vz]; split; [| intros _]; lra |]).
  split; [| intros; lia].
  destruct v; cbn [nth Generator.zero3 vx vy vz]; lra.
Qed.

(** X19: the two tables of the generator describe a regular icosahedron:
    12 vertices at the same distance from the center, 30 edges that are
    all different and all of length 2 (squared length 4), and exactly 5
    edges at every vertex. *)
Theorem icosahedron_tables_regular :
  length Generator.icoVertices = 12%nat
  /\ length Generator.icoEdges = 30%nat
  /\ NoDup Generator.icoEdges
  /\ Forall (fun e => (fst e < snd e < 12)%nat) Generator.icoEdges
  /\ Forall (fun e => normSq (edgeVector e) = 4) Generator.icoEdges
  /\ (forall v, (v < 12)%nat ->
        edgeDegree v = 5%nat
        /\ normSq (nth v Generator.icoVertices Generator.zero3)
           = 1 + Generator.phi_ico * Generator.phi_ico).
Proof.
  split; [reflexivity |]. split; [reflexivity |].
  split.
  { unfold Generator.icoEdges.
    repeat (apply NoDup_cons;
            [cbn [In]; intros H;
             repeat (destruct H as [H | H]; [discriminate H |]); exact H |]).
    apply NoDup_nil. }
  split.
  { unfold Generator.icoEdges.
    repeat (apply Forall_cons; [cbn; lia |]). apply Forall_nil. }
  split.
  { pose proof phi_ico_sq as Hphi.
    unfold Generator.icoEdges.
    repeat (apply Forall_cons;
            [unfold edgeVector, vsub, normSq, Generator.icoVertices;
             cbn [fst snd nth vx vy vz]; lra |]).
    apply Forall_nil. }
  intros v Hv. split.
  - do 12 (destruct v as [| v]; [vm_compute; reflexivity |]). lia.
  - apply icoVertex_norm, Hv.
Qed.

Lemma for_invariant {S : Type} (Inv : S -> Prop) (n : nat)
      (body : nat -> S -> S) :
  (forall i s, (i < n)%nat -> Inv s -> Inv (body i s)) ->
  forall s, Inv s -> Inv (for_ n body s).
Proof.
  intros Hbody s Hs.
  assert (H : forall m, (m <= n)%nat -> Inv (for_ m body s)).
  { induction m as [| m IH]; intros Hm.
    - exact Hs.
    - rewrite for_S. apply Hbody; [lia | apply IH; lia]. }
  apply H. lia.
Qed.

Lemma push_shelled (rad : R) (numPoints : Z) (tag : Generator.Structure)
      (p : vec3) (b : Generator.Buffers) :
  onShell rad tag p -> shelled rad b ->
  shelled rad (Generator.push numPoints tag p b).
Proof.
  intros Hp Hb. unfold shelled, Generator.push.
  cbn [Generator.made Generator.pts].
  apply Forall2_app; [exact Hb |]. constructor; [exact Hp | constructor].
Qed.

Lemma sphere_point_norm (rad phi theta : R) :
  normSq (Vec3 (rad * sin phi * cos theta) (rad * sin phi * sin theta)
               (rad * cos phi))
  = rad * rad.
Proof.
  unfold normSq; cbn [vx vy vz].
  pose proof (sin_cos_sq phi) as Hp. pose proof (sin_cos_sq theta) as Ht.
  replace (rad * sin phi * cos theta * (rad * sin phi * cos theta)
           + rad * sin phi * sin theta * (rad * sin phi * sin theta)
           + rad * cos phi * (rad * cos phi))
    with (rad * rad * (sin phi * sin phi
                       * (sin theta * sin theta + cos theta * cos theta)
                       + cos phi * cos phi)) by ring.
  rewrite Ht, Rmult_1_r, Hp. ring.
Qed.

Lemma ringPoint_onShell (numPoints : Z) (scale : R) (ring i : nat) :
  onShell (Generator.orbRadius scale) Generator.Rings
          (Generator.ringPoint numPoints scale ring i).
Proof.
  unfold onShell, Generator.ringPoint. cbv zeta.
  set (theta := INR i / IZR (Generator.pointsPerRing numPoints) * PI * 2).
  set (rr := Generator.orbRadius scale * 0.9).
  pose proof (sin_cos_sq theta) as Ht.
  destruct ring as [| [| ring]]; unfold normSq; cbn [vx vy vz]; nra.
Qed.

Lemma spiralPoint_onShell (numPoints : Z) (scale : R) (i : nat) :
  onShell (Generator.orbRadius scale) Generator.Spiral
          (Generator.spiralPoint numPoints scale i).
Proof.
  unfold onShell, Generator.spiralPoint. cbv zeta.
  apply sphere_point_norm.
Qed.

Lemma floatPoint_onShell (scale : R) (random : nat -> R) (floatPoints : Z)
      (i : nat) :
  0 <= random i < 1 -> 0 <= Generator.orbRadius scale ->
  onShell (Generator.orbRadius scale) Generator.Floating
          (Generator.floatPoint scale random floatPoints i).
Proof.
  intros Hr Hrad. unfold onShell, Generator.floatPoint. cbv zeta.
  rewrite sphere_point_norm.
  set (rad := Generator.orbRadius scale) in *.
  assert (Hrr : 0 <= rad * random i) by (apply Rmult_le_pos; lra).
  assert (Hrr' : rad * random i <= rad) by nra.
  set (a := rad * 0.95). set (c := rad * 1.05).
  set (m := rad * (0.95 + random i * 0.1)).
  assert (Ham : 0 <= a <= m) by (subst a m; lra).
  assert (Hmc : m <= c) by (subst c m; lra).
  split; nra.
Qed.

Lemma icoPoint_onShell (numPoints : Z) (scale : R) (e i : nat) :
  (i < Z.to_nat (Generator.pointsPerEdge numPoints))%nat ->
  onShell (Generator.orbRadius scale) Generator.Icosahedron
          (Generator.icoPoint numPoints scale e i).
Proof.
  intros Hi. unfold onShell, Generator.icoPoint.
  destruct (nth e Generator.icoEdges (0%nat, 0%nat)) as [v1 v2]. cbv zeta.
  pose proof (proj1 (icoVertex_norm v1)) as H1.
  pose proof (proj1 (icoVertex_norm v2)) as H2.
  destruct (nth v1 Generator.icoVertices Generator.zero3) as [sx sy sz].
  destruct (nth v2 Generator.icoVertices Generator.zero3) as [ex ey ez].
  unfold normSq in *. cbn [vx vy vz] in *.
  set (t := INR i / IZR (Generator.pointsPerEdge numPoints)).
  assert (Ht : 0 <= t <= 1).
  { subst t.
    assert (Hp : (0 < Generator.pointsPerEdge numPoints)%Z) by lia.
    assert (HpR : 0 < IZR (Generator.pointsPerEdge numPoints))
      by (now apply IZR_lt).
    assert (Hi0 : 0 <= INR i) by apply pos_INR.
    assert (HiR : INR i <= IZR (Generator.pointsPerEdge numPoints)).
    { rewrite INR_IZR_INZ. apply IZR_le. lia. }
    split.
    - apply Rmult_le_pos; [exact Hi0 | left; now apply Rinv_0_lt_compat].
    - apply (Rmult_le_reg_r (IZR (Generator.pointsPerEdge numPoints)));
        [exact HpR |].
      unfold Rdiv. rewrite Rmult_assoc, Rinv_l by lra. lra. }
  set (c := Generator.orbRadius scale).
  set (V := 1 + Generator.phi_ico * Generator.phi_ico) in *.
  assert (Hconv : (sx + (ex - sx) * t) * (sx + (ex - sx) * t)
                  + (sy + (ey - sy) * t) * (sy + (ey - sy) * t)
                  + (sz + (ez - sz) * t) * (sz + (ez - sz) * t) <= V).
  { assert (E : (sx + (ex - sx) * t) * (sx + (ex - sx) * t)
                + (sy + (ey - sy) * t) * (sy + (ey - sy) * t)
                + (sz + (ez - sz) * t) * (sz + (ez - sz) * t)
                = (1 - t) * (sx * sx + sy * sy + sz * sz)
                  + t * (ex * ex + ey * ey + ez * ez)
                  - t * (1 - t) * ((ex - sx) * (ex - sx) + (ey - sy) * (ey - sy)
                                   + (ez - sz) * (ez - sz))) by ring.
    assert (0 <= t * (1 - t) * ((ex - sx) * (ex - sx) + (ey - sy) * (ey - sy)
                                + (ez - sz) * (ez - sz))).
    { assert (Hsq : forall a : R, 0 <= a * a) by (intros a; nra).
      pose proof (Hsq (ex - sx)). pose proof (Hsq (ey - sy)).
      pose proof (Hsq (ez - sz)).
      apply Rmult_le_pos; [apply Rmult_le_pos; lra | lra]. }
    assert ((1 - t) * (sx * sx + sy * sy + sz * sz) <= (1 - t) * V)
      by (apply Rmult_le_compat_l; lra).
    assert (t * (ex * ex + ey * ey + ez * ez) <= t * V)
      by (apply Rmult_le_compat_l; lra).
    lra. }
  replace ((sx + (ex - sx) * t) * c * 0.35 * ((sx + (ex - sx) * t) * c * 0.35)
           + (sy + (ey - sy) * t) * c * 0.35 * ((sy + (ey - sy) * t) * c * 0.35)
           + (sz + (ez - sz) * t) * c * 0.35 * ((sz + (ez - sz) * t) * c * 0.35))
    with (c * 0.35 * (c * 0.35)
          * ((sx + (ex - sx) * t) * (sx + (ex - sx) * t)
             + (sy + (ey - sy) * t) * (sy + (ey - sy) * t)
             + (sz + (ez - sz) * t) * (sz + (ez - sz) * t))) by ring.
  apply Rmult_le_compat_l; [nra | exact Hconv].
Qed.

(** X20: where the generated particles lie, for any particle count, any
    non-negative scale and any random stream with values in [0,1): every
    ring particle lies exactly on the sphere of radius 0.9 orbRadius, every
    spiral particle on the sphere of radius 0.85 orbRadius, every floating
    particle between 0.95 and 1.05 orbRadius, and every icosahedron particle
    within the sphere through the icosahedron's vertices; the position and
    progress arrays have one entry per particle. *)
Theorem generated_on_shells (numPoints : Z) (scale : R) (random : nat -> R)
    (Hscale : 0 <= scale)
    (Hrandom : forall i, 0 <= random i < 1) :
  let b := Generator.generate numPoints scale random in
  Forall2 (onShell (Generator.orbRadius scale))
          (Generator.made b) (Generator.pts b)
  /\ length (Generator.pts b) = length (Generator.prog b).
Proof.
  intros b. split.
  - assert (Hrad : 0 <= Generator.orbRadius scale)
      by (unfold Generator.orbRadius; lra).
    change (shelled (Generator.orbRadius scale) b). subst b.
    unfold Generator.generate, Generator.floatLoop, Generator.spiralLoop,
      Generator.ringLoop, Generator.icoLoop. cbv zeta.
    apply for_invariant.
    { intros i s _ Hs. apply push_shelled; [| exact Hs].
      now apply floatPoint_onShell. }
    apply for_invariant.
    { intros i s _ Hs. apply push_shelled; [| exact Hs].
      apply spiralPoint_onShell. }
    apply for_invariant.
    { intros ring s _ Hs. apply for_invariant; [| exact Hs].
      intros i s' _ Hs'. apply push_shelled; [| exact Hs'].
      apply ringPoint_onShell. }
    apply for_invariant.
    { intros e s _ Hs. apply for_invariant; [| exact Hs].
      intros i s' Hi Hs'. apply push_shelled; [| exact Hs'].
      now apply icoPoint_onShell. }
    constructor.
  - destruct (generate_wellIndexed numPoints scale random) as (_ & Hp & Hl).
    fold b in Hp, Hl. rewrite Hl, Hp, length_map, length_seq. reflexivity.
Qed.

Lemma generated_on_shells_witness :
  Forall2 (onShell (Generator.orbRadius scale_src))
          (Generator.made generated) (Generator.pts generated).
Proof.
  apply (generated_on_shells Generator.numPoints_src scale_src sampleRandom).
  - unfold scale_src; lra.
  - intros i. unfold sampleRandom. lra.
Defined.

(** ** Scene: the group follows the hand and drifts back when it is lost *)

Lemma lerp_unit_target (x y t : R) :
  unit x -> unit y -> unit t -> unit (MathUtils.lerp x y t).
Proof.
  unfold unit. intros Hx Hy Ht. now apply lerp_between.
Qed.

Lemma Rabs_half (a w : R) : 0 <= a <= 1 -> Rabs ((a - 0.5) * w) <= Rabs w / 2.
Proof.
  intros Ha. rewrite Rabs_mult.
  assert (Rabs (a - 0.5) <= 0.5) by (unfold Rabs; destruct (Rcase_abs _); lra).
  pose proof (Rabs_pos w). nra.
Qed.

(** X21: while the hand is tracked with its pinch point and palm center
    inside the camera frame, the group is placed inside the visible
    rectangle of the plane z = 0 (at most half its width and half its
    height from the center), with no tilt and the hand's roll about z; a
    reading at the frame center puts it at the origin.  With a pinch
    strength in [0,1] the smoothed scale never leaves [0.8, 2.3] once it
    is inside. *)
Theorem group_follows_hand (cam : Camera) (delta : R) (hand : HandState)
    (g : Scene.Group)
    (Hd : detected hand = true)
    (Hx : unit (hx hand)) (Hy : unit (hy hand))
    (Hpx : unit (palmX hand)) (Hpy : unit (palmY hand)) :
  let g' := Scene.frame cam delta hand g in
  Rabs (Scene.posX g') <= Rabs (frustumWidth cam) / 2
  /\ Rabs (Scene.posY g') <= Rabs (frustumHeight cam) / 2
  /\ Scene.posZ g' = 0
  /\ (Scene.rotX g', Scene.rotY g', Scene.rotZ g') = (0, 0, rotation hand)
  /\ (hx hand = 0.5 -> hy hand = 0.5 -> palmX hand = 0.5 -> palmY hand = 0.5 ->
      Scene.posX g' = 0 /\ Scene.posY g' = 0)
  /\ (unit (pinch hand) -> 0.8 <= Scene.currentScale g <= 2.3 ->
      0.8 <= Scene.currentScale g' <= 2.3).
Proof.
  intros g'; subst g'. unfold Scene.frame. rewrite Hd. cbv zeta.
  cbn [Scene.posX Scene.posY Scene.posZ Scene.rotX Scene.rotY Scene.rotZ
       Scene.currentScale].
  pose proof (threeSmoothstep_range (pinch hand) 0.3 0.8 ltac:(lra)) as Hm.
  set (m := MathUtils.smoothstep (pinch hand) 0.3 0.8) in *.
  pose proof (lerp_unit_target _ _ m Hx Hpx Hm) as Htx.
  pose proof (lerp_unit_target _ _ m Hy Hpy Hm) as Hty.
  split; [now apply Rabs_half |].
  split.
  { replace (- (MathUtils.lerp (hy hand) (palmY hand) m - 0.5))
      with (1 - MathUtils.lerp (hy hand) (palmY hand) m - 0.5) by lra.
    apply Rabs_half. unfold unit in Hty. lra. }
  split; [reflexivity |]. split; [reflexivity |].
  split.
  - intros -> -> -> ->. unfold MathUtils.lerp.
    replace ((1 - m) * 0.5 + m * 0.5 - 0.5) with 0 by lra.
    split; ring.
  - unfold unit, MathUtils.lerp. intros Hp Hs. split; nra.
Qed.

Lemma group_follows_hand_witness :
  Scene.posZ (Scene.frame (sceneCamera 1.5) 0.016 trackedState
                Scene.initialGroup) = 0.
Proof.
  apply (group_follows_hand (sceneCamera 1.5) 0.016 trackedState
           Scene.initialGroup eq_refl);
    unfold unit; cbn; lra.
Defined.

Lemma decay_no_growth (k x : R) :
  0 <= k <= 1 -> Rabs ((1 - k) * x) <= Rabs x /\ 0 <= (1 - k) * x * x.
Proof.
  intros Hk. rewrite Rabs_mult.
  pose proof (Rabs_pos x) as Hp.
  assert (Ha : Rabs (1 - k) <= 1)
    by (unfold Rabs; destruct (Rcase_abs _); lra).
  split; [nra |].
  replace ((1 - k) * x * x) with ((1 - k) * (x * x)) by ring.
  apply Rmult_le_pos; [lra | nra].
Qed.

Lemma decay_overshoot (k x : R) :
  2 < k -> x <> 0 -> Rabs x < Rabs ((1 - k) * x).
Proof.
  intros Hk Hx. rewrite Rabs_mult.
  assert (Ha : 1 < Rabs (1 - k))
    by (unfold Rabs; destruct (Rcase_abs _); lra).
  assert (0 < Rabs x) by (now apply Rabs_pos_lt).
  nra.
Qed.

(** X22: when the hand is lost the group drifts back.  One frame multiplies
    each of the three position coordinates by [1 - 3 delta], each of the
    three rotation angles by [1 - 2 delta], and the distance of the scale
    from 1 by [1 - 2 delta].  For a frame time up to 1/3 s no position
    coordinate grows or changes side, and up to 1/2 s no angle and not the
    scale offset.  The frame time is not clamped: after a stall of more
    than 2/3 s every position coordinate off the center ends up farther
    from it than before, and after more than 1 s every angle off zero and
    a scale off 1 do. *)
Theorem group_returns_when_lost (cam : Camera) (delta : R) (hand : HandState)
    (g : Scene.Group) (Hd : detected hand = false) :
  let g' := Scene.frame cam delta hand g in
  let position := [ (Scene.posX g, Scene.posX g');
                    (Scene.posY g, Scene.posY g');
                    (Scene.posZ g, Scene.posZ g') ] in
  let angles := [ (Scene.rotX g, Scene.rotX g');
                  (Scene.rotY g, Scene.rotY g');
                  (Scene.rotZ g, Scene.rotZ g') ] in
  let scaleOff := [ (Scene.currentScale g - 1, Scene.currentScale g' - 1) ] in
  Forall (fun c => snd c = (1 - 3 * delta) * fst c) position
  /\ Forall (fun c => snd c = (1 - 2 * delta) * fst c) (angles ++ scaleOff)
  /\ (0 <= delta <= 1 / 3 ->
      Forall (fun c => Rabs (snd c) <= Rabs (fst c) /\ 0 <= snd c * fst c)
             position)
  /\ (0 <= delta <= 1 / 2 ->
      Forall (fun c => Rabs (snd c) <= Rabs (fst c) /\ 0 <= snd c * fst c)
             (angles ++ scaleOff))
  /\ (2 / 3 < delta ->
      Forall (fun c => fst c <> 0 -> Rabs (fst c) < Rabs (snd c)) position)
  /\ (1 < delta ->
      Forall (fun c => fst c <> 0 -> Rabs (fst c) < Rabs (snd c))
             (angles ++ scaleOff)).
Proof.
  intros g' position angles scaleOff.
  assert (Hpos : Forall (fun c => snd c = (1 - 3 * delta) * fst c) position).
  { subst position g'. unfold Scene.frame. rewrite Hd.
    cbn [Scene.posX Scene.posY Scene.posZ]. unfold MathUtils.lerp.
    repeat (apply Forall_cons; [cbn [fst snd]; ring |]). apply Forall_nil. }
  assert (Hrot : Forall (fun c => snd c = (1 - 2 * delta) * fst c)
                        (angles ++ scaleOff)).
  { subst angles scaleOff g'. unfold Scene.frame. rewrite Hd.
    cbn [Scene.rotX Scene.rotY Scene.rotZ Scene.currentScale app].
    unfold MathUtils.lerp.
    repeat (apply Forall_cons; [cbn [fst snd]; lra |]). apply Forall_nil. }
  split; [exact Hpos |]. split; [exact Hrot |].
  split; [| split; [| split]].
  - intros Hdelta. eapply Forall_impl; [| exact Hpos].
    intros c Hc. rewrite Hc.
    replace (1 - 3 * delta) with (1 - (3 * delta)) by ring.
    apply decay_no_growth. lra.
  - intros Hdelta. eapply Forall_impl; [| exact Hrot].
    intros c Hc. rewrite Hc.
    replace (1 - 2 * delta) with (1 - (2 * delta)) by ring.
    apply decay_no_growth. lra.
  - intros Hdelta. eapply Forall_impl; [| exact Hpos].
    intros c Hc Hne. rewrite Hc.
    replace (1 - 3 * delta) with (1 - (3 * delta)) by ring.
    apply decay_overshoot; [lra | exact Hne].
  - intros Hdelta. eapply Forall_impl; [| exact Hrot].
    intros c Hc Hne. rewrite Hc.
    replace (1 - 2 * delta) with (1 - (2 * delta)) by ring.
    apply decay_overshoot; [lra | exact Hne].
Qed.

Lemma group_returns_when_lost_witness :
  detected initialHandState = false
  /\ Forall (fun c : R * R => snd c = (1 - 3 * 0.1) * fst c)
       (let g := Scene.mkGroup 10 5 0 0 0 1 2 in
        let g' := Scene.frame (sceneCamera 1.5) 0.1 initialHandState g in
        [ (Scene.posX g, Scene.posX g'); (Scene.posY g, Scene.posY g');
          (Scene.posZ g, Scene.posZ g') ]).
Proof.
  split; [reflexivity |].
  exact (proj1 (group_returns_when_lost (sceneCamera 1.5) 0.1
                  initialHandState (Scene.mkGroup 10 5 0 0 0 1 2) eq_refl)).
Defined.

(** ** NumberProjectiles: ids, shapes, clean-up, flight *)

Lemma NoDup_map_filter (A B : Type) (f : A -> B) (g : A -> bool) (l : list A) :
  NoDup (map f l) -> NoDup (map f (filter g l)).
Proof.
  induction l as [| a l IH]; intros H; cbn [filter map] in *; [exact H |].
  inversion H as [| x xs Hnotin Hnd]; subst.
  destruct (g a); cbn [map]; [| now apply IH].
  constructor; [| now apply IH].
  intros Hin. apply Hnotin.
  rewrite in_map_iff in *. destruct Hin as (y & Hy & Hyin).
  exists y. split; [exact Hy |]. apply filter_In in Hyin. tauto.
Qed.

Lemma Forall_filter_keep (A : Type) (P : A -> Prop) (g : A -> bool)
      (l : list A) :
  Forall P l -> Forall P (filter g l).
Proof.
  rewrite !Forall_forall. intros H x Hx. apply H.
  apply filter_In in Hx. tauto.
Qed.

Section SpawnFacts.

Variable random : nat -> R.

Lemma spawnFor_idsFresh (lo : Z) (time spawnInterval cx cy pinch : R)
      (acc : NumberProjectiles.State) (entry : nat * FingerTip) :
  idsFresh lo acc ->
  idsFresh lo (NumberProjectiles.spawnFor random time spawnInterval cx cy
                 pinch acc entry).
Proof.
  intros (Hall & Hnd & Hlo). unfold NumberProjectiles.spawnFor.
  destruct entry as [fi tip].
  destruct (nth_error _ fi); [| repeat split; assumption].
  destruct (Rlt_dec _ _); [| repeat split; assumption].
  cbv zeta. destruct (Rlt_dec 0.4 _); [| repeat split; assumption].
  unfold idsFresh.
  cbn [NumberProjectiles.projectiles NumberProjectiles.nextId].
  split; [| split; [| lia]].
  - apply Forall_app. split.
    + eapply Forall_impl; [| exact Hall]. cbn. intros p Hp. lia.
    + constructor; [cbn [NumberProjectiles.id]; lia | constructor].
  - rewrite map_app. apply NoDup_app; [exact Hnd | |].
    + cbn. constructor; [intros [] | constructor].
    + intros a Ha [Hb | []]. cbn [NumberProjectiles.id] in Hb. subst a.
      rewrite in_map_iff in Ha. destruct Ha as (p & Hp & Hin).
      rewrite Forall_forall in Hall. specialize (Hall p Hin). lia.
Qed.

Lemma fold_spawnFor_idsFresh (lo : Z) (time spawnInterval cx cy pinch : R)
      (entries : list (nat * FingerTip)) :
  forall acc,
    idsFresh lo acc ->
    idsFresh lo (fold_left
                   (NumberProjectiles.spawnFor random time spawnInterval cx cy
                      pinch) entries acc).
Proof.
  induction entries as [| e entries IH]; intros acc Hacc; cbn [fold_left].
  - exact Hacc.
  - apply IH. now apply spawnFor_idsFresh.
Qed.

Lemma frame_idsFresh (cam : Camera) (time : R) (hand : HandState)
      (st : NumberProjectiles.State) :
  idsFresh 0 st -> idsFresh 0 (NumberProjectiles.frame random cam time hand st).
Proof.
  intros (Hall & Hnd & Hlo). unfold NumberProjectiles.frame.
  destruct (negb (detected hand)); [repeat split; assumption |].
  cbv zeta. destruct (Rlt_dec _ 0.5); [repeat split; assumption |].
  match goal with
  | |- context [fold_left
                  (NumberProjectiles.spawnFor _ _ ?si ?cx ?cy ?pp) ?l ?a] =>
      pose proof (fold_spawnFor_idsFresh (NumberProjectiles.nextId st) time
                    si cx cy pp l a) as Hacc;
      set (acc := fold_left
                    (NumberProjectiles.spawnFor random time si cx cy pp) l a)
        in *
  end.
  assert (Hinit : idsFresh (NumberProjectiles.nextId st)
                    (NumberProjectiles.mkState [] (NumberProjectiles.nextId st)
                       (NumberProjectiles.lastSpawnTime st)
                       (NumberProjectiles.randCalls st + 1))).
  { repeat split; cbn; [constructor | constructor | lia]. }
  destruct (Hacc Hinit) as (Hnew & Hndnew & Hge).
  assert (Happ : Forall (fun p => (0 <= NumberProjectiles.id p
                                   < NumberProjectiles.nextId acc)%Z)
                        (NumberProjectiles.projectiles st
                         ++ NumberProjectiles.projectiles acc)
                 /\ NoDup (map NumberProjectiles.id
                             (NumberProjectiles.projectiles st
                              ++ NumberProjectiles.projectiles acc))).
  { split.
    - apply Forall_app. split.
      + eapply Forall_impl; [| exact Hall]. cbn. intros p Hp. lia.
      + eapply Forall_impl; [| exact Hnew]. cbn. intros p Hp. lia.
    - rewrite map_app. apply NoDup_app; [exact Hnd | exact Hndnew |].
      intros a Ha Hb. rewrite in_map_iff in Ha, Hb.
      destruct Ha as (p & Hp & Hin). destruct Hb as (q & Hq & Hqin).
      rewrite Forall_forall in Hall, Hnew.
      specialize (Hall p Hin). specialize (Hnew q Hqin). lia. }
  unfold idsFresh.
  cbn [NumberProjectiles.projectiles NumberProjectiles.nextId].
  assert (Heq : match NumberProjectiles.projectiles acc with
                | [] => NumberProjectiles.projectiles st
                | _ :: _ => NumberProjectiles.projectiles st
                            ++ NumberProjectiles.projectiles acc
                end
                = NumberProjectiles.projectiles st
                  ++ NumberProjectiles.projectiles acc).
  { destruct (NumberProjectiles.projectiles acc);
      [now rewrite app_nil_r | reflexivity]. }
  rewrite Heq. destruct Happ as [Ha1 Ha2].
  split; [now apply Forall_filter_keep |].
  split; [now apply NoDup_map_filter | lia].
Qed.

(** X23: the ids that serve as React keys never collide.  After any
    sequence of frames from the initial state, whatever the clock, the hand
    readings and the random values, no two projectiles in the list share an
    id, and every id in the list lies between 0 and the next id to hand
    out. *)
Theorem projectile_ids_unique (cam : Camera) (frames : list (R * HandState)) :
  let st := NumberProjectiles.run random cam frames
              NumberProjectiles.initialState in
  NoDup (map NumberProjectiles.id (NumberProjectiles.projectiles st))
  /\ Forall (fun p => (0 <= NumberProjectiles.id p
                       < NumberProjectiles.nextId st)%Z)
            (NumberProjectiles.projectiles st).
Proof.
  intros st.
  assert (H : idsFresh 0 st).
  { subst st. unfold NumberProjectiles.run.
    assert (H0 : idsFresh 0 NumberProjectiles.initialState).
    { repeat split; cbn; [constructor | constructor | lia]. }
    revert H0. generalize NumberProjectiles.initialState.
    induction frames as [| f frames IH]; intros s Hs; cbn [fold_left].
    - exact Hs.
    - apply IH. now apply frame_idsFresh. }
  destruct H as (Hall & Hnd & _). split; assumption.
Qed.

End SpawnFacts.

Lemma setNth_length (i : nat) (v : R) (a : list R) :
  length (NumberProjectiles.setNth i v a) = length a.
Proof.
  revert i. induction a as [| x a IH]; intros [| j]; cbn; try reflexivity.
  now rewrite IH.
Qed.

Lemma nth_error_setNth_eq (i : nat) (v : R) (a : list R) :
  (i < length a)%nat ->
  nth_error (NumberProjectiles.setNth i v a) i = Some v.
Proof.
  revert i. induction a as [| x a IH]; intros [| j] H; cbn in *; try lia.
  - reflexivity.
  - apply IH. lia.
Qed.

Lemma nth_error_setNth_neq (i j : nat) (v : R) (a : list R) :
  i <> j ->
  nth_error (NumberProjectiles.setNth i v a) j = nth_error a j.
Proof.
  revert i j. induction a as [| x a IH]; intros [| i] [| j] H; cbn;
    try reflexivity; try congruence.
  apply IH. congruence.
Qed.

Lemma appended_eq (A : Type) (old new : list A) :
  match new with [] => old | _ :: _ => old ++ new end = old ++ new.
Proof. destruct new; [now rewrite app_nil_r | reflexivity]. Qed.

Lemma random_digit (x : R) :
  0 <= x < 1 -> exists d : Z, (0 <= d <= 9)%Z /\ Glsl.floor (x * 10) = IZR d.
Proof.
  intros Hx. exists (Int_part (x * 10)). split; [| reflexivity].
  pose proof (floor_bounds (x * 10)) as Hf. unfold Glsl.floor in Hf.
  assert (H1 : (-1 < Int_part (x * 10))%Z) by (apply lt_IZR; lra).
  assert (H2 : (Int_part (x * 10) < 10)%Z) by (apply lt_IZR; lra).
  lia.
Qed.

Section SpawnShapes.

Variable random : nat -> R.
Hypothesis random_unit : unitRandom random.

Lemma spawnFor_shaped (time spawnInterval cx cy pinch : R)
      (acc : NumberProjectiles.State) (entry : nat * FingerTip) :
  length (NumberProjectiles.lastSpawnTime acc) = 5%nat ->
  Forall shaped (NumberProjectiles.projectiles acc) ->
  let acc' := NumberProjectiles.spawnFor random time spawnInterval cx cy
                pinch acc entry in
  length (NumberProjectiles.lastSpawnTime acc') = 5%nat
  /\ Forall shaped (NumberProjectiles.projectiles acc').
Proof.
  intros Hlen Hall. unfold NumberProjectiles.spawnFor.
  destruct entry as [fi tip].
  destruct (nth_error _ fi) as [last |] eqn:Hnth; [| split; assumption].
  destruct (Rlt_dec _ _); [| split; assumption].
  cbv zeta. destruct (Rlt_dec 0.4 _); [| split; assumption].
  cbn [NumberProjectiles.projectiles NumberProjectiles.lastSpawnTime].
  split; [now rewrite setNth_length |].
  apply Forall_app. split; [exact Hall |].
  constructor; [| constructor].
  assert (Hfi : (fi < 5)%nat).
  { rewrite <- Hlen. apply nth_error_Some. congruence. }
  split; [| exact Hfi]. unfold wellFormed.
  cbn [NumberProjectiles.pDirX NumberProjectiles.pDirY NumberProjectiles.speed
       NumberProjectiles.scale NumberProjectiles.number].
  pose proof (random_unit (NumberProjectiles.randCalls acc + 2)%nat) as H2.
  pose proof (random_unit (NumberProjectiles.randCalls acc + 3)%nat) as H3.
  pose proof (random_unit (NumberProjectiles.randCalls acc + 4)%nat) as H4.
  repeat split; try lra.
  - match goal with
    | |- cos ?a * cos ?a + sin ?a * sin ?a = 1 =>
        pose proof (sin_cos_sq a); lra
    end.
  - now apply random_digit.
Qed.

Lemma fold_spawnFor_shaped (time spawnInterval cx cy pinch : R)
      (entries : list (nat * FingerTip)) :
  forall acc,
    length (NumberProjectiles.lastSpawnTime acc) = 5%nat ->
    Forall shaped (NumberProjectiles.projectiles acc) ->
    let acc' := fold_left
                  (NumberProjectiles.spawnFor random time spawnInterval cx cy
                     pinch) entries acc in
    length (NumberProjectiles.lastSpawnTime acc') = 5%nat
    /\ Forall shaped (NumberProjectiles.projectiles acc').
Proof.
  induction entries as [| e entries IH]; intros acc Hlen Hall;
    cbn [fold_left].
  - split; assumption.
  - destruct (spawnFor_shaped time spawnInterval cx cy pinch acc e Hlen Hall)
      as [H1 H2].
    now apply IH.
Qed.

Lemma frame_shaped (cam : Camera) (time : R) (hand : HandState)
      (st : NumberProjectiles.State) :
  length (NumberProjectiles.lastSpawnTime st) = 5%nat ->
  Forall shaped (NumberProjectiles.projectiles st) ->
  let st' := NumberProjectiles.frame random cam time hand st in
  length (NumberProjectiles.lastSpawnTime st') = 5%nat
  /\ Forall shaped (NumberProjectiles.projectiles st').
Proof.
  intros Hlen Hall. unfold NumberProjectiles.frame.
  destruct (negb (detected hand)); [split; assumption |].
  cbv zeta. destruct (Rlt_dec _ 0.5); [split; assumption |].
  rewrite appended_eq.
  match goal with
  | |- context [fold_left
                  (NumberProjectiles.spawnFor _ _ ?si ?cx ?cy ?pp) ?l ?a] =>
      destruct (fold_spawnFor_shaped time si cx cy pp l a Hlen
                  (Forall_nil shaped)) as [Hl Hn]
  end.
  cbn [NumberProjectiles.projectiles NumberProjectiles.lastSpawnTime].
  split; [exact Hl |].
  apply Forall_filter_keep. apply Forall_app. split; assumption.
Qed.

(** X24: every projectile in flight is well formed.  With the values of
    [Math.random()] in [0,1), after any sequence of frames from the initial
    state every projectile in the list has a unit direction, a speed from 15
    up to 25, a scale from 0.8 up to 1.4, a whole digit from 0 to 9 as its
    number, and a finger index below 5 (so the colour lookup by
    [fingerIndex % 5] is the lookup by [fingerIndex]). *)
Theorem projectiles_well_formed (cam : Camera)
        (frames : list (R * HandState)) :
  Forall (fun p => wellFormed p
                   /\ (NumberProjectiles.fingerIndex p < 5)%nat)
         (NumberProjectiles.projectiles
            (NumberProjectiles.run random cam frames
               NumberProjectiles.initialState)).
Proof.
  unfold NumberProjectiles.run.
  assert (H0 : length (NumberProjectiles.lastSpawnTime
                         NumberProjectiles.initialState) = 5%nat
               /\ Forall shaped
                    (NumberProjectiles.projectiles
                       NumberProjectiles.initialState))
    by (split; [reflexivity | constructor]).
  revert H0. generalize NumberProjectiles.initialState.
  induction frames as [| f frames IH]; intros s [Hs1 Hs2]; cbn [fold_left].
  - exact Hs2.
  - apply IH. now apply frame_shaped.
Qed.

End SpawnShapes.

Lemma sampleRandom_unit : unitRandom sampleRandom.
Proof. intros n. unfold sampleRandom. lra. Qed.

Lemma projectiles_well_formed_witness :
  unitRandom sampleRandom
  /\ Forall (fun p => wellFormed p
                      /\ (NumberProjectiles.fingerIndex p < 5)%nat)
            (NumberProjectiles.projectiles
               (NumberProjectiles.run sampleRandom (sceneCamera 1.5)
                  magicFrames NumberProjectiles.initialState)).
Proof.
  split; [exact sampleRandom_unit |].
  apply (projectiles_well_formed sampleRandom sampleRandom_unit).
Defined.

Lemma ForallOrdPairs_snoc (A : Type) (Rel : A -> A -> Prop) (l : list A)
      (p : A) :
  ForallOrdPairs Rel l -> Forall (fun q => Rel q p) l ->
  ForallOrdPairs Rel (l ++ [p]).
Proof.
  induction 1 as [| a l Ha Hl IH]; intros Hp; cbn [app].
  - constructor; constructor.
  - inversion Hp as [| x xs Hap Hrest]; subst.
    constructor; [| now apply IH].
    apply Forall_app. split; [exact Ha | constructor; [exact Hap | constructor]].
Qed.

Lemma ForallOrdPairs_filter (A : Type) (Rel : A -> A -> Prop)
      (g : A -> bool) (l : list A) :
  ForallOrdPairs Rel l -> ForallOrdPairs Rel (filter g l).
Proof.
  induction 1 as [| a l Ha Hl IH]; cbn [filter]; [constructor |].
  destruct (g a); [| exact IH].
  constructor; [now apply Forall_filter_keep | exact IH].
Qed.

Section SpawnRate.

Variable random : nat -> R.
Hypothesis random_nonneg : forall n, 0 <= random n.

Lemma spawnFor_rate (old : list NumberProjectiles.Projectile)
      (time spawnInterval cx cy pinch : R)
      (acc : NumberProjectiles.State) (entry : nat * FingerTip) :
  0.15 <= spawnInterval ->
  rateInv (old ++ NumberProjectiles.projectiles acc)
          (NumberProjectiles.lastSpawnTime acc) ->
  let acc' := NumberProjectiles.spawnFor random time spawnInterval cx cy
                pinch acc entry in
  rateInv (old ++ NumberProjectiles.projectiles acc')
          (NumberProjectiles.lastSpawnTime acc').
Proof.
  intros Hsi [Hord Hlast]. unfold NumberProjectiles.spawnFor.
  destruct entry as [fi tip].
  destruct (nth_error _ fi) as [last |] eqn:Hnth; [| split; assumption].
  destruct (Rlt_dec _ _) as [Hgap |]; [| split; assumption].
  cbv zeta. destruct (Rlt_dec 0.4 _); [| split; assumption].
  cbn [NumberProjectiles.projectiles NumberProjectiles.lastSpawnTime].
  assert (Hfi : (fi < length (NumberProjectiles.lastSpawnTime acc))%nat)
    by (apply nth_error_Some; congruence).
  rewrite app_assoc. split.
  - apply ForallOrdPairs_snoc; [exact Hord |].
    eapply Forall_impl; [| exact Hlast].
    intros q (lq & Hq1 & Hq2) Hsame.
    cbn [NumberProjectiles.fingerIndex NumberProjectiles.startTime] in *.
    rewrite Hsame, Hnth in Hq1. injection Hq1 as <-. lra.
  - apply Forall_app. split.
    + eapply Forall_impl; [| exact Hlast].
      intros q (lq & Hq1 & Hq2). unfold notAfterLast.
      destruct (Nat.eq_dec fi (NumberProjectiles.fingerIndex q)) as [E | E].
      * exists time. rewrite <- E. split; [now apply nth_error_setNth_eq |].
        rewrite <- E, Hnth in Hq1. injection Hq1 as <-. lra.
      * exists lq. split; [| exact Hq2].
        now rewrite nth_error_setNth_neq.
    + constructor; [| constructor]. exists time.
      cbn [NumberProjectiles.fingerIndex NumberProjectiles.startTime].
      split; [now apply nth_error_setNth_eq | lra].
Qed.

Lemma fold_spawnFor_rate (old : list NumberProjectiles.Projectile)
      (time spawnInterval cx cy pinch : R)
      (entries : list (nat * FingerTip)) :
  0.15 <= spawnInterval ->
  forall acc,
    rateInv (old ++ NumberProjectiles.projectiles acc)
            (NumberProjectiles.lastSpawnTime acc) ->
    let acc' := fold_left
                  (NumberProjectiles.spawnFor random time spawnInterval cx cy
                     pinch) entries acc in
    rateInv (old ++ NumberProjectiles.projectiles acc')
            (NumberProjectiles.lastSpawnTime acc').
Proof.
  intros Hsi. induction entries as [| e entries IH]; intros acc Hacc;
    cbn [fold_left].
  - exact Hacc.
  - apply IH. now apply spawnFor_rate.
Qed.

Lemma frame_rate (cam : Camera) (time : R) (hand : HandState)
      (st : NumberProjectiles.State) :
  rateInv (NumberProjectiles.projectiles st)
          (NumberProjectiles.lastSpawnTime st) ->
  let st' := NumberProjectiles.frame random cam time hand st in
  rateInv (NumberProjectiles.projectiles st')
          (NumberProjectiles.lastSpawnTime st').
Proof.
  intros Hst. unfold NumberProjectiles.frame.
  destruct (negb (detected hand)); [exact Hst |].
  cbv zeta. destruct (Rlt_dec _ 0.5); [exact Hst |].
  rewrite appended_eq.
  match goal with
  | |- context [fold_left
                  (NumberProjectiles.spawnFor _ _ ?si ?cx ?cy ?pp) ?l ?a] =>
      pose proof (fold_spawnFor_rate (NumberProjectiles.projectiles st) time
                    si cx cy pp l) as Hfold;
      set (acc := fold_left
                    (NumberProjectiles.spawnFor random time si cx cy pp) l a)
        in *;
      specialize (Hfold
                    ltac:(pose proof (random_nonneg
                                        (NumberProjectiles.randCalls st));
                          lra) a)
  end.
  cbn [NumberProjectiles.projectiles NumberProjectiles.lastSpawnTime] in Hfold.
  rewrite app_nil_r in Hfold. destruct (Hfold Hst) as [H1 H2].
  cbn [NumberProjectiles.projectiles NumberProjectiles.lastSpawnTime].
  split; [now apply ForallOrdPairs_filter | now apply Forall_filter_keep].
Qed.

(** X25: a finger never fires twice within 0.15 s.  With non-negative
    values of [Math.random()], after any sequence of frames from the initial
    state (whatever the clock does), two different projectiles of the list
    that came from the same finger have start times more than 0.15 s
    apart. *)
Theorem fingers_rate_limited (cam : Camera) (frames : list (R * HandState))
        (p q : NumberProjectiles.Projectile) :
  let st := NumberProjectiles.run random cam frames
              NumberProjectiles.initialState in
  In p (NumberProjectiles.projectiles st) ->
  In q (NumberProjectiles.projectiles st) ->
  p <> q ->
  NumberProjectiles.fingerIndex p = NumberProjectiles.fingerIndex q ->
  0.15 < Rabs (NumberProjectiles.startTime p - NumberProjectiles.startTime q).
Proof.
  intros st Hp Hq Hne Hsame.
  assert (H : rateInv (NumberProjectiles.projectiles st)
                      (NumberProjectiles.lastSpawnTime st)).
  { subst st. unfold NumberProjectiles.run.
    assert (H0 : rateInv (NumberProjectiles.projectiles
                            NumberProjectiles.initialState)
                         (NumberProjectiles.lastSpawnTime
                            NumberProjectiles.initialState))
      by (split; constructor).
    revert H0. generalize NumberProjectiles.initialState.
    clear Hp Hq.
    induction frames as [| f frames IH]; intros s Hs; cbn [fold_left].
    - exact Hs.
    - apply IH. now apply frame_rate. }
  destruct H as [Hord _].
  destruct (ForallOrdPairs_In Hord p q Hp Hq) as [E | [Hpq | Hqp]].
  - contradiction.
  - specialize (Hpq Hsame). rewrite Rabs_left; lra.
  - specialize (Hqp (eq_sym Hsame)). rewrite Rabs_right; lra.
Qed.

End SpawnRate.

(** [magicMode < 0.5] is [pinch < 0.55]: the Hermite polynomial crosses one
    half in the middle of the ramp from 0.3 to 0.8. *)
Lemma magicMode_half (x : R) :
  MathUtils.smoothstep x 0.3 0.8 < 0.5 <-> x < 0.55.
Proof.
  unfold MathUtils.smoothstep.
  destruct (Rle_dec x 0.3); [split; intros; lra |].
  destruct (Rle_dec 0.8 x); [split; intros; lra |].
  cbv zeta. set (t := (x - 0.3) / (0.8 - 0.3)).
  assert (Ht : 0 < t < 1) by (unfold t; split; lra).
  assert (Hx : x = 0.3 + 0.5 * t) by (unfold t; lra).
  assert (Hf : t * t * (3 - 2 * t) - 0.5
               = (2 * t - 1) * (- (t * t) + t + 0.5)) by lra.
  assert (Hpos : 0 < - (t * t) + t + 0.5) by nra.
  split; intros H.
  - assert (2 * t - 1 < 0) by nra. lra.
  - assert (2 * t - 1 < 0) by lra.
    assert ((2 * t - 1) * (- (t * t) + t + 0.5) < 0) by nra. lra.
Qed.

Lemma map_fst_combine_seq (A : Type) (l : list A) (k : nat) :
  map fst (combine (seq k (length l)) l) = seq k (length l).
Proof.
  revert k. induction l as [| a l IH]; intros k; cbn; [reflexivity |].
  now rewrite IH.
Qed.

Lemma in_combine_seq (A : Type) (l : list A) (k i : nat) (a : A) :
  nth_error l i = Some a -> In ((k + i)%nat, a) (combine (seq k (length l)) l).
Proof.
  revert k i. induction l as [| b l IH]; intros k [| i] H; cbn in *;
    try discriminate.
  - injection H as ->. left. f_equal. lia.
  - right. replace (k + S i)%nat with (S k + i)%nat by lia. now apply IH.
Qed.

Section SpawnFires.

Variable random : nat -> R.

Lemma spawnFor_keeps (time spawnInterval cx cy pinch : R)
      (acc : NumberProjectiles.State) (entry : nat * FingerTip)
      (p : NumberProjectiles.Projectile) :
  In p (NumberProjectiles.projectiles acc) ->
  In p (NumberProjectiles.projectiles
          (NumberProjectiles.spawnFor random time spawnInterval cx cy pinch
             acc entry)).
Proof.
  intros Hp. unfold NumberProjectiles.spawnFor. destruct entry as [fi tip].
  destruct (nth_error _ fi); [| exact Hp].
  destruct (Rlt_dec _ _); [| exact Hp].
  cbv zeta. destruct (Rlt_dec 0.4 _); [| exact Hp].
  cbn [NumberProjectiles.projectiles]. apply in_or_app. now left.
Qed.

Lemma spawnFor_other_finger (time spawnInterval cx cy pinch : R)
      (acc : NumberProjectiles.State) (j : nat) (tip : FingerTip) (i : nat) :
  j <> i ->
  nth_error (NumberProjectiles.lastSpawnTime
               (NumberProjectiles.spawnFor random time spawnInterval cx cy
                  pinch acc (j, tip))) i
  = nth_error (NumberProjectiles.lastSpawnTime acc) i.
Proof.
  intros Hji. unfold NumberProjectiles.spawnFor.
  destruct (nth_error _ j); [| reflexivity].
  destruct (Rlt_dec _ _); [| reflexivity].
  cbv zeta. destruct (Rlt_dec 0.4 _); [| reflexivity].
  cbn [NumberProjectiles.lastSpawnTime]. now apply nth_error_setNth_neq.
Qed.

Lemma fold_spawnFor_keeps (time spawnInterval cx cy pinch : R) (i : nat)
      (p : NumberProjectiles.Projectile) (entries : list (nat * FingerTip)) :
  ~ In i (map fst entries) ->
  forall acc,
    In p (NumberProjectiles.projectiles acc) ->
    let acc' := fold_left
                  (NumberProjectiles.spawnFor random time spawnInterval cx cy
                     pinch) entries acc in
    In p (NumberProjectiles.projectiles acc')
    /\ nth_error (NumberProjectiles.lastSpawnTime acc') i
       = nth_error (NumberProjectiles.lastSpawnTime acc) i.
Proof.
  induction entries as [| [j t] entries IH]; intros Hi acc Hp;
    cbn [fold_left].
  - split; [exact Hp | reflexivity].
  - cbn [map fst In] in Hi.
    destruct (IH ltac:(tauto) _
                (spawnFor_keeps time spawnInterval cx cy pinch acc (j, t) p Hp))
      as [H1 H2].
    split; [exact H1 |]. rewrite H2. apply spawnFor_other_finger. tauto.
Qed.

(** A finger whose last projectile is older than the spawn interval fires
    when the random draw allows it. *)
Lemma fold_spawnFor_fires (time spawnInterval cx cy pinch : R) (i : nat)
      (tip : FingerTip) (entries : list (nat * FingerTip)) :
  (forall n, 0.4 < random n) ->
  NoDup (map fst entries) ->
  In (i, tip) entries ->
  forall acc last,
    nth_error (NumberProjectiles.lastSpawnTime acc) i = Some last ->
    spawnInterval < time - last ->
    let acc' := fold_left
                  (NumberProjectiles.spawnFor random time spawnInterval cx cy
                     pinch) entries acc in
    exists p,
      In p (NumberProjectiles.projectiles acc')
      /\ NumberProjectiles.fingerIndex p = i
      /\ NumberProjectiles.startTime p = time
      /\ nth_error (NumberProjectiles.lastSpawnTime acc') i = Some time.
Proof.
  intros Hr. induction entries as [| [j t] entries IH];
    intros Hnd Hin acc last Hlast Hgap; [destruct Hin |].
  cbn [map fst] in Hnd. inversion Hnd as [| x xs Hnotin Hnd']; subst.
  cbn [fold_left]. destruct Hin as [E | Hin].
  - injection E as -> ->.
    assert (Hfire :
      exists p,
        NumberProjectiles.spawnFor random time spawnInterval cx cy pinch acc
          (i, tip)
        = NumberProjectiles.mkState
            (NumberProjectiles.projectiles acc ++ [p])
            (NumberProjectiles.nextId acc + 1)
            (NumberProjectiles.setNth i time
               (NumberProjectiles.lastSpawnTime acc))
            (NumberProjectiles.randCalls acc + 5)
        /\ NumberProjectiles.fingerIndex p = i
        /\ NumberProjectiles.startTime p = time).
    { unfold NumberProjectiles.spawnFor. rewrite Hlast.
      destruct (Rlt_dec _ _); [| contradiction].
      cbv zeta.
      destruct (Rlt_dec 0.4 _) as [| Hno];
        [| exfalso; apply Hno; apply Hr].
      eexists. split; [reflexivity |]. split; reflexivity. }
    destruct Hfire as (p & Heq & Hfi & Hst). rewrite Heq.
    match goal with
    | |- context [fold_left ?f entries ?a] =>
        destruct (fold_spawnFor_keeps time spawnInterval cx cy pinch i p
                    entries Hnotin a) as [H1 H2]
    end.
    { cbn [NumberProjectiles.projectiles]. apply in_or_app. right. now left. }
    exists p. split; [exact H1 |]. split; [exact Hfi |]. split; [exact Hst |].
    rewrite H2. cbn [NumberProjectiles.lastSpawnTime].
    apply nth_error_setNth_eq. apply nth_error_Some. congruence.
  - assert (Hji : j <> i).
    { intros ->. apply Hnotin. apply in_map_iff. exists (i, tip). now split. }
    apply (IH Hnd' Hin _ last); [| exact Hgap].
    rewrite spawnFor_other_finger; assumption.
Qed.

(** The frame callback when the hand is tracked and the pinch signal is at
    least 0.55. *)
Lemma frame_in_magic (cam : Camera) (time : R) (hand : HandState)
      (st : NumberProjectiles.State) :
  detected hand = true -> 0.55 <= pinch hand ->
  exists spawnInterval cx cy,
    spawnInterval = 0.15 + random (NumberProjectiles.randCalls st) * 0.1
    /\ let acc :=
         fold_left
           (NumberProjectiles.spawnFor random time spawnInterval cx cy
              (pinch hand))
           (combine (seq 0 (length (fingerTips hand))) (fingerTips hand))
           (NumberProjectiles.mkState [] (NumberProjectiles.nextId st)
              (NumberProjectiles.lastSpawnTime st)
              (NumberProjectiles.randCalls st + 1)) in
       NumberProjectiles.frame random cam time hand st
       = NumberProjectiles.mkState
           (filter (fun p => Rltb (time - NumberProjectiles.startTime p) 2.0)
              (NumberProjectiles.projectiles st
               ++ NumberProjectiles.projectiles acc))
           (NumberProjectiles.nextId acc)
           (NumberProjectiles.lastSpawnTime acc)
           (NumberProjectiles.randCalls acc).
Proof.
  intros Hd Hp. unfold NumberProjectiles.frame. rewrite Hd. cbn [negb].
  cbv zeta. destruct (Rlt_dec _ 0.5) as [Hlt |].
  - apply magicMode_half in Hlt. lra.
  - do 3 eexists. split; [reflexivity |]. now rewrite appended_eq.
Qed.

(** Outside magic mode the callback returns before it touches anything. *)
Lemma frame_outside_magic (cam : Camera) (time : R) (hand : HandState)
      (st : NumberProjectiles.State) :
  detected hand = false \/ pinch hand < 0.55 ->
  NumberProjectiles.frame random cam time hand st = st.
Proof.
  intros H. unfold NumberProjectiles.frame.
  destruct (detected hand); cbn [negb]; [| reflexivity].
  destruct H as [H | H]; [discriminate |].
  cbv zeta. destruct (Rlt_dec _ 0.5) as [| Hno]; [reflexivity |].
  exfalso. apply Hno. now apply magicMode_half.
Qed.

(** A projectile younger than two seconds survives the frame. *)
Lemma frame_keeps_young (cam : Camera) (time : R) (hand : HandState)
      (st : NumberProjectiles.State) (p : NumberProjectiles.Projectile) :
  In p (NumberProjectiles.projectiles st) ->
  time - NumberProjectiles.startTime p < 2 ->
  In p (NumberProjectiles.projectiles
          (NumberProjectiles.frame random cam time hand st)).
Proof.
  intros Hin Hage.
  destruct (detected hand) eqn:Hd;
    [| rewrite frame_outside_magic; [exact Hin | now left]].
  destruct (Rlt_dec (pinch hand) 0.55) as [Hp | Hp];
    [rewrite frame_outside_magic; [exact Hin | now right] |].
  destruct (frame_in_magic cam time hand st Hd ltac:(lra))
    as (si & cx & cy & _ & Heq).
  cbv zeta in Heq. rewrite Heq. cbn [NumberProjectiles.projectiles].
  apply filter_In. split; [apply in_or_app; now left |].
  apply Rltb_true. lra.
Qed.

(** In magic mode a finger that has rested for more than a quarter of a
    second fires, if every random draw exceeds 0.4. *)
Lemma frame_fires (cam : Camera) (time : R) (hand : HandState)
      (st : NumberProjectiles.State) (i : nat) (tip : FingerTip) (last : R) :
  (forall n, 0.4 < random n < 1) ->
  detected hand = true -> 0.55 <= pinch hand ->
  nth_error (fingerTips hand) i = Some tip ->
  nth_error (NumberProjectiles.lastSpawnTime st) i = Some last ->
  0.25 <= time - last ->
  let st' := NumberProjectiles.frame random cam time hand st in
  exists p,
    In p (NumberProjectiles.projectiles st')
    /\ NumberProjectiles.fingerIndex p = i
    /\ NumberProjectiles.startTime p = time
    /\ nth_error (NumberProjectiles.lastSpawnTime st') i = Some time.
Proof.
  intros Hr Hd Hp Htip Hlast Hgap.
  destruct (frame_in_magic cam time hand st Hd Hp)
    as (si & cx & cy & Hsi & Heq).
  cbv zeta in Heq |- *. rewrite Heq.
  cbn [NumberProjectiles.projectiles NumberProjectiles.lastSpawnTime].
  match goal with
  | |- context [fold_left ?f ?l ?a] =>
      destruct (fold_spawnFor_fires time si cx cy (pinch hand) i tip l
                  (fun n => proj1 (Hr n))) with (acc := a) (last := last)
        as (p & H1 & H2 & H3 & H4)
  end.
  - rewrite map_fst_combine_seq. apply seq_NoDup.
  - apply (in_combine_seq _ (fingerTips hand) 0 i tip Htip).
  - exact Hlast.
  - pose proof (Hr (NumberProjectiles.randCalls st)). lra.
  - exists p. split; [| repeat split; assumption].
    apply filter_In. split; [apply in_or_app; now right |].
    apply Rltb_true. rewrite H3. lra.
Qed.

End SpawnFires.

Lemma sampleRandom_keen : forall n, 0.4 < sampleRandom n < 1.
Proof. intros n. unfold sampleRandom. lra. Qed.

Lemma fingers_rate_limited_witness :
  let st := NumberProjectiles.run sampleRandom (sceneCamera 1.5) twoFrames
              NumberProjectiles.initialState in
  exists p q,
    In p (NumberProjectiles.projectiles st)
    /\ In q (NumberProjectiles.projectiles st)
    /\ p <> q
    /\ NumberProjectiles.fingerIndex p = NumberProjectiles.fingerIndex q
    /\ 0.15 < Rabs (NumberProjectiles.startTime p
                    - NumberProjectiles.startTime q).
Proof.
  intros st.
  assert (Hpinch : 0.55 <= pinch magicHand) by (cbn; lra).
  destruct (frame_fires sampleRandom (sceneCamera 1.5) 0.3 magicHand
              NumberProjectiles.initialState 0 (mkFingerTip 0.1 0.2 1 0) 0
              sampleRandom_keen eq_refl Hpinch eq_refl eq_refl ltac:(lra))
    as (p & Hp1 & Hp2 & Hp3 & Hl1).
  destruct (frame_fires sampleRandom (sceneCamera 1.5) 0.7 magicHand
              _ 0 (mkFingerTip 0.1 0.2 1 0) 0.3
              sampleRandom_keen eq_refl Hpinch eq_refl Hl1 ltac:(lra))
    as (q & Hq1 & Hq2 & Hq3 & _).
  pose proof (frame_keeps_young sampleRandom (sceneCamera 1.5) 0.7 magicHand
                _ p Hp1 ltac:(rewrite Hp3; lra)) as Hp1'.
  assert (Hne : p <> q) by (intros E; rewrite E, Hq3 in Hp3; lra).
  assert (Hsame : NumberProjectiles.fingerIndex p
                  = NumberProjectiles.fingerIndex q) by congruence.
  exists p, q. split; [exact Hp1' |]. split; [exact Hq1 |].
  split; [exact Hne |]. split; [exact Hsame |].
  exact (fingers_rate_limited sampleRandom
           (fun n => Rlt_le _ _ (Rlt_trans 0 0.4 _ ltac:(lra)
                                   (proj1 (sampleRandom_keen n))))
           (sceneCamera 1.5) twoFrames p q Hp1' Hq1 Hne Hsame).
Defined.

(** X26: old projectiles are cleaned up only in magic mode.  A projectile
    of the list is still in the list after a frame exactly when the hand is
    not tracked, or the pinch signal is below 0.55, or the projectile is
    younger than two seconds: outside magic mode expired projectiles stay
    in the list.  After a frame in magic mode every projectile of the list
    is younger than two seconds. *)
Theorem cleanup_only_in_magic (random : nat -> R) (cam : Camera) (time : R)
        (hand : HandState) (st : NumberProjectiles.State)
        (p : NumberProjectiles.Projectile)
        (Hin : In p (NumberProjectiles.projectiles st)) :
  let st' := NumberProjectiles.frame random cam time hand st in
  (In p (NumberProjectiles.projectiles st')
   <-> detected hand = false \/ pinch hand < 0.55
       \/ time - NumberProjectiles.startTime p < 2)
  /\ (detected hand = true -> 0.55 <= pinch hand ->
      Forall (fun q => time - NumberProjectiles.startTime q < 2)
             (NumberProjectiles.projectiles st')).
Proof.
  intros st'. subst st'.
  assert (Hactive :
    detected hand = true -> 0.55 <= pinch hand ->
    forall q,
      In q (NumberProjectiles.projectiles
              (NumberProjectiles.frame random cam time hand st)) ->
      time - NumberProjectiles.startTime q < 2).
  { intros Hd Hp q Hq.
    destruct (frame_in_magic random cam time hand st Hd Hp)
      as (si & cx & cy & _ & Heq).
    cbv zeta in Heq. rewrite Heq in Hq. cbn [NumberProjectiles.projectiles] in Hq.
    apply filter_In in Hq. destruct Hq as [_ Hq].
    apply Rltb_true in Hq. lra. }
  split.
  - split.
    + intros Hp'. destruct (detected hand) eqn:Hd; [| now left].
      destruct (Rlt_dec (pinch hand) 0.55); [right; now left |].
      right. right. apply Hactive; [reflexivity | lra | exact Hp'].
    + intros [Hd | [Hp | Hage]].
      * rewrite frame_outside_magic; [exact Hin | now left].
      * rewrite frame_outside_magic; [exact Hin | now right].
      * now apply frame_keeps_young.
  - intros Hd Hp. apply Forall_forall. now apply Hactive.
Qed.

Lemma cleanup_only_in_magic_witness :
  In sampleProjectile (NumberProjectiles.projectiles sampleState)
  /\ (In sampleProjectile
         (NumberProjectiles.projectiles
            (NumberProjectiles.frame sampleRandom (sceneCamera 1.5) 11
               magicHand sampleState))
      <-> detected magicHand = false \/ pinch magicHand < 0.55
          \/ 11 - NumberProjectiles.startTime sampleProjectile < 2).
Proof.
  assert (Hin : In sampleProjectile
                   (NumberProjectiles.projectiles sampleState))
    by (left; reflexivity).
  split; [exact Hin |].
  exact (proj1 (cleanup_only_in_magic sampleRandom (sceneCamera 1.5) 11
                  magicHand sampleState sampleProjectile Hin)).
Defined.

(** X27: the flight of a number.  For a well-formed projectile of age at
    least 0, [ProjectileNumber] writes nothing once the age has reached two
    seconds; before that it places the number at distance age * speed from
    its spawn point in the plane (between 15 and 25 units per second), at a
    depth within 2 of the plane, with an opacity in (0, 0.9] and a positive
    scale that never exceeds the projectile's own scale. *)
Theorem projectile_flight (now : R) (p : NumberProjectiles.Projectile)
        (Hwf : wellFormed p)
        (Hage : 0 <= now - NumberProjectiles.startTime p) :
  let age := now - NumberProjectiles.startTime p in
  (2 <= age -> NumberProjectiles.draw now p = None)
  /\ (age < 2 ->
      exists d,
        NumberProjectiles.draw now p = Some d
        /\ (NumberProjectiles.drawX d - NumberProjectiles.startX p)
           * (NumberProjectiles.drawX d - NumberProjectiles.startX p)
           + (NumberProjectiles.drawY d - NumberProjectiles.startY p)
             * (NumberProjectiles.drawY d - NumberProjectiles.startY p)
           = (age * NumberProjectiles.speed p)
             * (age * NumberProjectiles.speed p)
        /\ 15 * age <= age * NumberProjectiles.speed p <= 25 * age
        /\ -2 <= NumberProjectiles.drawZ d <= 2
        /\ 0 < NumberProjectiles.drawOpacity d <= 0.9
        /\ 0 < NumberProjectiles.drawScale d <= NumberProjectiles.scale p).
Proof.
  intros age. destruct Hwf as (Hdir & Hspeed & Hscale & _).
  unfold NumberProjectiles.draw. cbv zeta. fold age.
  assert (Hage' : 0 <= age) by exact Hage. clearbody age.
  destruct (Rle_dec 1 (age / 2.0)) as [Hdone | Hfly].
  - split; [reflexivity | intros; exfalso; lra].
  - split; [intros; exfalso; lra |]. intros Hlt.
    eexists. split; [reflexivity |].
    cbn [NumberProjectiles.drawX NumberProjectiles.drawY
         NumberProjectiles.drawZ NumberProjectiles.drawOpacity
         NumberProjectiles.drawScale].
    set (g := age / 2.0).
    assert (Hg : 0 <= g < 1) by (unfold g; split; lra).
    set (dx := NumberProjectiles.pDirX p) in *.
    set (dy := NumberProjectiles.pDirY p) in *.
    set (v := NumberProjectiles.speed p) in *.
    set (sc := NumberProjectiles.scale p) in *.
    split; [| split; [| split; [| split]]].
    + replace ((NumberProjectiles.startX p + dx * (age * v)
                - NumberProjectiles.startX p)
               * (NumberProjectiles.startX p + dx * (age * v)
                  - NumberProjectiles.startX p)
               + (NumberProjectiles.startY p + dy * (age * v)
                  - NumberProjectiles.startY p)
                 * (NumberProjectiles.startY p + dy * (age * v)
                    - NumberProjectiles.startY p))
        with ((dx * dx + dy * dy) * (age * v * (age * v))) by ring.
      rewrite Hdir. ring.
    + split; nra.
    + pose proof (SIN_bound (age * 3)). lra.
    + lra.
    + assert (Hf : 0 < (1 + g * 0.5) * (1 - g) <= 1) by (split; nra).
      split; [| nra].
      replace (sc * (1 + g * 0.5) * (1 - g))
        with (sc * ((1 + g * 0.5) * (1 - g))) by ring.
      apply Rmult_lt_0_compat; lra.
Qed.

Lemma sampleProjectile_wellFormed : wellFormed sampleProjectile.
Proof.
  unfold wellFormed, sampleProjectile. cbn.
  repeat split; try lra. exists 3%Z. split; [lia | reflexivity].
Qed.

Lemma projectile_flight_witness :
  wellFormed sampleProjectile
  /\ 0 <= 11 - NumberProjectiles.startTime sampleProjectile
  /\ exists d,
       NumberProjectiles.draw 11 sampleProjectile = Some d
       /\ 0 < NumberProjectiles.drawOpacity d <= 0.9.
Proof.
  assert (Hage : 0 <= 11 - NumberProjectiles.startTime sampleProjectile)
    by (cbn; lra).
  split; [exact sampleProjectile_wellFormed |]. split; [exact Hage |].
  destruct (proj2 (projectile_flight 11 sampleProjectile
                     sampleProjectile_wellFormed Hage))
    as (d & Hd & _ & _ & _ & Hop & _); [cbn; lra |].
  exists d. split; assumption.
Defined.

(** ** DroppingParticles: the life cycle of a particle *)

Section DroppingFacts.

Variable random : nat -> R.
Variable params : ButterflyParams.

Lemma stepParticle_lifeInRange (elapsedTime dt : R) (calls : nat)
      (p : DroppingParticles.Particle) :
  0 <= dt <= 0.1 -> lifeInRange p ->
  lifeInRange
    (fst (DroppingParticles.stepParticle random params elapsedTime dt calls p)).
Proof.
  intros Hdt [Hl Ho]. unfold DroppingParticles.stepParticle.
  destruct (Rlt_dec 0 _); [| destruct (Rlt_dec _ 0)]; cbv zeta;
    unfold lifeInRange; cbn [fst DroppingParticles.life
                             DroppingParticles.opacity];
    repeat split; lra.
Qed.

Lemma frame_fold_lifeInRange (elapsedTime dt : R)
      (l : list DroppingParticles.Particle) :
  0 <= dt <= 0.1 -> Forall lifeInRange l ->
  forall acc : list DroppingParticles.Particle * nat,
    Forall lifeInRange (fst acc) ->
    let acc' :=
      fold_left
        (fun acc p =>
           let '(p', calls') :=
             DroppingParticles.stepParticle random params elapsedTime dt
               (snd acc) p in
           (fst acc ++ [p'], calls'))
        l acc in
    Forall lifeInRange (fst acc')
    /\ length (fst acc') = (length (fst acc) + length l)%nat.
Proof.
  intros Hdt Hl. induction Hl as [| p l Hp Hl IH]; intros acc Hacc;
    cbn [fold_left].
  - split; [exact Hacc | cbn; lia].
  - pose proof (stepParticle_lifeInRange elapsedTime dt (snd acc) p Hdt Hp)
      as Hstep.
    destruct (DroppingParticles.stepParticle random params elapsedTime dt
                (snd acc) p) as [p' calls'].
    cbn [fst] in Hstep.
    destruct (IH (fst acc ++ [p'], calls')) as [H1 H2].
    + cbn [fst]. apply Forall_app. split; [exact Hacc |].
      constructor; [exact Hstep | constructor].
    + split; [exact H1 |]. rewrite H2. cbn [fst length].
      rewrite length_app. cbn [length]. lia.
Qed.

(** X28: lives and opacities stay in range.  With the values of
    [Math.random()] in [0,1) and non-negative frame deltas, after any
    sequence of frames from the initial arrays the number of particles is
    unchanged, every life lies in (-5, 1] and every opacity handed to the
    shader lies in (-0.05, 1]: the opacity of a live particle is written
    after the decrement and can be slightly negative. *)
Theorem dropping_life_in_range (n : nat) (frames : list (R * R))
        (Hr : unitRandom random)
        (Hd : Forall (fun f => 0 <= fst f) frames) :
  let st := DroppingParticles.run random params frames
              (DroppingParticles.initial random n) in
  length (fst st) = n /\ Forall lifeInRange (fst st).
Proof.
  intros st. subst st. unfold DroppingParticles.run.
  assert (H0 : length (fst (DroppingParticles.initial random n)) = n
               /\ Forall lifeInRange
                    (fst (DroppingParticles.initial random n))).
  { unfold DroppingParticles.initial. cbn [fst]. split.
    - now rewrite length_map, length_seq.
    - apply Forall_forall. intros p Hp. apply in_map_iff in Hp.
      destruct Hp as (i & <- & _).
      unfold lifeInRange, DroppingParticles.initialParticle.
      cbn [DroppingParticles.life DroppingParticles.opacity].
      pose proof (Hr i). repeat split; lra. }
  revert H0. generalize (DroppingParticles.initial random n).
  induction Hd as [| f frames Hf Hd IH]; intros s [Hs1 Hs2]; cbn [fold_left].
  - split; assumption.
  - apply IH. unfold DroppingParticles.frame. cbv zeta.
    assert (Hdt : 0 <= Rmin (fst f) 0.1 <= 0.1).
    { split; [apply Rmin_glb; lra | apply Rmin_r]. }
    destruct (frame_fold_lifeInRange (snd f) (Rmin (fst f) 0.1) (fst s) Hdt
                Hs2 ([], snd s) (Forall_nil _)) as [H1 H2].
    split; [| exact H1]. rewrite H2. cbn [fst length]. lia.
Qed.

End DroppingFacts.

Lemma dropping_life_in_range_witness :
  unitRandom sampleRandom
  /\ Forall (fun f : R * R => 0 <= fst f) sampleDeltas
  /\ length (fst (DroppingParticles.run sampleRandom appParams sampleDeltas
                    (DroppingParticles.initial sampleRandom
                       DroppingParticles.count)))
     = DroppingParticles.count.
Proof.
  assert (Hd : Forall (fun f : R * R => 0 <= fst f) sampleDeltas).
  { unfold sampleDeltas.
    repeat (apply Forall_cons; [cbn; lra |]). apply Forall_nil. }
  split; [exact sampleRandom_unit |]. split; [exact Hd |].
  exact (proj1 (dropping_life_in_range sampleRandom appParams
                  DroppingParticles.count sampleDeltas sampleRandom_unit Hd)).
Defined.

(** X29: a waiting particle wakes up where it is.  The respawn branch is
    taken only when the life is exactly zero.  A waiting particle (life
    below zero) whose counter steps over zero in a frame keeps its position,
    draws no random number and comes out alive with a life of at most 0.1;
    the next frame then moves it as a live particle from that position (it
    falls by 2 dt, keeps its depth) and writes an opacity of at most 0.1,
    without placing it on the curve. *)
Theorem waiting_particle_wakes_in_place (random : nat -> R)
        (params : ButterflyParams) (e1 e2 dt dt2 : R) (c1 c2 : nat)
        (p : DroppingParticles.Particle)
        (Hwait : DroppingParticles.life p < 0)
        (Hover : - DroppingParticles.life p < dt)
        (Hdt : dt <= 0.1) (Hdt2 : 0 <= dt2) :
  let s1 := DroppingParticles.stepParticle random params e1 dt c1 p in
  let p1 := fst s1 in
  let s2 := DroppingParticles.stepParticle random params e2 dt2 c2 p1 in
  let p2 := fst s2 in
  snd s1 = c1 /\ snd s2 = c2
  /\ (DroppingParticles.dataX p1, DroppingParticles.dataY p1,
      DroppingParticles.dataZ p1)
     = (DroppingParticles.dataX p, DroppingParticles.dataY p,
        DroppingParticles.dataZ p)
  /\ 0 < DroppingParticles.life p1 <= 0.1
  /\ DroppingParticles.dataY p2 = DroppingParticles.dataY p - dt2 * 2
  /\ DroppingParticles.dataZ p2 = DroppingParticles.dataZ p
  /\ DroppingParticles.opacity p2 = DroppingParticles.life p1 - dt2 * 0.5
  /\ DroppingParticles.opacity p2 <= 0.1.
Proof.
  intros s1 p1 s2 p2.
  assert (E1 : s1 = (DroppingParticles.mkParticle
                       (DroppingParticles.dataX p) (DroppingParticles.dataY p)
                       (DroppingParticles.dataZ p)
                       (DroppingParticles.life p + dt)
                       (DroppingParticles.posX p) (DroppingParticles.posY p)
                       (DroppingParticles.posZ p)
                       (DroppingParticles.opacity p)
                       (DroppingParticles.rnd p), c1)).
  { unfold s1, DroppingParticles.stepParticle.
    destruct (Rlt_dec 0 _); [exfalso; lra |].
    destruct (Rlt_dec _ 0); [reflexivity | exfalso; lra]. }
  assert (Hp1 : 0 < DroppingParticles.life p1 <= 0.1).
  { unfold p1. rewrite E1. cbn [fst DroppingParticles.life]. lra. }
  assert (E2 : s2 = (let life' := DroppingParticles.life p1 - dt2 * 0.5 in
                     let y' := DroppingParticles.dataY p1 - dt2 * 2.0 in
                     let drift :=
                       sin (e2 * 1.5 + DroppingParticles.rnd p1 * 10.0) * 0.3 in
                     let x' := DroppingParticles.dataX p1 + drift * dt2 in
                     (DroppingParticles.mkParticle x' y'
                        (DroppingParticles.dataZ p1) life' x' y'
                        (DroppingParticles.dataZ p1) life'
                        (DroppingParticles.rnd p1), c2))).
  { unfold s2, DroppingParticles.stepParticle.
    destruct (Rlt_dec 0 _); [reflexivity | exfalso; lra]. }
  cbv zeta in E2.
  split; [now rewrite E1 |]. split; [now rewrite E2 |].
  split; [unfold p1; now rewrite E1 |]. split; [exact Hp1 |].
  unfold p2. rewrite E2.
  cbn [fst DroppingParticles.dataY DroppingParticles.dataZ
       DroppingParticles.opacity].
  unfold p1 in *. rewrite E1 in *.
  cbn [fst DroppingParticles.dataY DroppingParticles.dataZ
       DroppingParticles.life] in *.
  repeat split; lra.
Qed.

Lemma waiting_particle_wakes_in_place_witness :
  DroppingParticles.life waitingParticle < 0
  /\ - DroppingParticles.life waitingParticle < 0.1
  /\ 0.1 <= 0.1 /\ 0 <= 0.016
  /\ DroppingParticles.dataZ
       (fst (DroppingParticles.stepParticle sampleRandom appParams 1.016 0.016
               2400
               (fst (DroppingParticles.stepParticle sampleRandom appParams 1
                       0.1 2400 waitingParticle))))
     = DroppingParticles.dataZ waitingParticle.
Proof.
  assert (H1 : DroppingParticles.life waitingParticle < 0) by (cbn; lra).
  assert (H2 : - DroppingParticles.life waitingParticle < 0.1) by (cbn; lra).
  assert (H3 : 0.1 <= 0.1) by lra.
  assert (H4 : 0 <= 0.016) by lra.
  repeat (split; [assumption |]).
  pose proof (waiting_particle_wakes_in_place sampleRandom appParams 1 1.016
                0.1 0.016 2400 2400 waitingParticle H1 H2 H3 H4) as H.
  cbv zeta in H. exact (proj1 (proj2 (proj2 (proj2 (proj2 (proj2 H)))))).
Defined.

Lemma cosTilt_value : DroppingParticles.cosTilt = sqrt 3 / 2.
Proof.
  unfold DroppingParticles.cosTilt, DroppingParticles.tilt.
  replace (- PI / 6) with (- (PI / 6)) by lra.
  rewrite cos_neg. apply cos_PI6.
Qed.

Lemma sinTilt_value : DroppingParticles.sinTilt = - (1 / 2).
Proof.
  unfold DroppingParticles.sinTilt, DroppingParticles.tilt.
  replace (- PI / 6) with (- (PI / 6)) by lra.
  rewrite sin_neg, sin_PI6. reflexivity.
Qed.

Lemma exp_sin_bounds (t : R) : 0 < exp (sin t) <= exp 1.
Proof.
  split; [apply exp_pos |].
  destruct (SIN_bound t) as [_ [Hlt | Heq]].
  - left. now apply exp_increasing.
  - rewrite Heq. lra.
Qed.

Lemma pow_unit_abs (x : R) (n : nat) : -1 <= x <= 1 -> -1 <= x ^ n <= 1.
Proof.
  intros Hx. induction n as [| n IH]; cbn [pow]; [lra |].
  split; nra.
Qed.

(** X30: a respawned particle lies on the tilted butterfly curve.  When the
    life of a particle is exactly zero the frame resets life and opacity to
    1, writes the new position to both arrays, and chooses it within 0.25 of
    the plane through the x axis that is tilted 30 degrees back, at a
    distance from the origin bounded by the curve's reach
    (a e + b + 1) scale (for non-negative a, b and scale and random values
    in [0,1)). *)
Theorem respawn_on_tilted_curve (random : nat -> R)
        (params : ButterflyParams) (elapsedTime dt : R) (calls : nat)
        (p : DroppingParticles.Particle)
        (Hzero : DroppingParticles.life p = 0)
        (Hr : unitRandom random)
        (Ha : 0 <= bfA params) (Hb : 0 <= bfB params)
        (Hs : 0 <= bfScale params) :
  let p' := fst (DroppingParticles.stepParticle random params elapsedTime dt
                   calls p) in
  let reach := (bfA params * exp 1 + bfB params + 1) * bfScale params in
  DroppingParticles.life p' = 1 /\ DroppingParticles.opacity p' = 1
  /\ (DroppingParticles.posX p', DroppingParticles.posY p',
      DroppingParticles.posZ p')
     = (DroppingParticles.dataX p', DroppingParticles.dataY p',
        DroppingParticles.dataZ p')
  /\ Rabs (DroppingParticles.dataZ p' * (sqrt 3 / 2)
           + DroppingParticles.dataY p' / 2) <= 0.25
  /\ DroppingParticles.dataX p' * DroppingParticles.dataX p'
     + DroppingParticles.dataY p' * DroppingParticles.dataY p'
     + DroppingParticles.dataZ p' * DroppingParticles.dataZ p'
     <= reach * reach + 0.0625.
Proof.
  intros p' reach. subst p'. unfold DroppingParticles.stepParticle.
  destruct (Rlt_dec 0 _); [exfalso; lra |].
  destruct (Rlt_dec _ 0); [exfalso; lra |].
  cbv zeta.
  cbn [fst DroppingParticles.life DroppingParticles.opacity
       DroppingParticles.posX DroppingParticles.posY DroppingParticles.posZ
       DroppingParticles.dataX DroppingParticles.dataY
       DroppingParticles.dataZ].
  rewrite cosTilt_value, sinTilt_value.
  set (t := random calls * iter params * PI).
  set (zRaw := (random (calls + 1)%nat - 0.5) * 0.5).
  set (r := bfA params * exp (sin t) - bfB params * cos (4 * t)
            + sin ((2 * t - PI) / 24) ^ bfC params).
  assert (Hz : -0.25 <= zRaw <= 0.25).
  { pose proof (Hr (calls + 1)%nat). unfold zRaw. lra. }
  assert (Hsq3 : sqrt 3 * sqrt 3 = 3) by (apply sqrt_sqrt; lra).
  set (q := sqrt 3) in *.
  set (sc := bfScale params) in *.
  assert (Hrb : - (bfA params * exp 1 + bfB params + 1) <= r
                <= bfA params * exp 1 + bfB params + 1).
  { pose proof (exp_sin_bounds t) as He.
    pose proof (COS_bound (4 * t)) as Hc.
    pose proof (pow_unit_abs (sin ((2 * t - PI) / 24)) (bfC params)
                  (SIN_bound _)) as Hpw.
    unfold r. split; nra. }
  set (B := bfA params * exp 1 + bfB params + 1) in *.
  assert (HB : 0 <= B).
  { unfold B. pose proof (exp_pos 1). nra. }
  pose proof (sin_cos_sq t) as Hsc.
  set (ct := cos t) in *. set (st := sin t) in *.
  split; [lra |]. split; [lra |]. split; [reflexivity |]. split.
  - replace ((r * st * sc * - (1 / 2) + zRaw * (q / 2)) * (q / 2)
             + (r * st * sc * (q / 2) - zRaw * - (1 / 2)) / 2)
      with (zRaw * ((q * q + 1) / 4)) by (field_simplify; lra).
    rewrite Hsq3. apply Rabs_le. lra.
  - assert (E : r * ct * sc * (r * ct * sc)
                + (r * st * sc * (q / 2) - zRaw * - (1 / 2))
                  * (r * st * sc * (q / 2) - zRaw * - (1 / 2))
                + (r * st * sc * - (1 / 2) + zRaw * (q / 2))
                  * (r * st * sc * - (1 / 2) + zRaw * (q / 2))
                = (r * sc) * (r * sc) * (ct * ct + st * st * ((q * q + 1) / 4))
                  + zRaw * zRaw * ((q * q + 1) / 4)) by field.
    rewrite E, Hsq3.
    replace ((3 + 1) / 4) with 1 by lra. rewrite Rmult_1_r, Rmult_1_r.
    replace (ct * ct + st * st) with 1 by lra. rewrite Rmult_1_r.
    assert (H1 : (r * sc) * (r * sc) <= (B * sc) * (B * sc)).
    { assert (Hm : - (B * sc) <= r * sc <= B * sc) by (split; nra).
      nra. }
    assert (H2 : zRaw * zRaw <= 0.0625) by nra.
    unfold reach. fold B. fold sc. lra.
Qed.

Lemma respawn_on_tilted_curve_witness :
  DroppingParticles.life dueParticle = 0
  /\ unitRandom sampleRandom
  /\ 0 <= bfA appParams /\ 0 <= bfB appParams /\ 0 <= bfScale appParams
  /\ DroppingParticles.life
       (fst (DroppingParticles.stepParticle sampleRandom appParams 1 0.016
               2400 dueParticle)) = 1.
Proof.
  assert (H1 : DroppingParticles.life dueParticle = 0) by reflexivity.
  assert (H2 : 0 <= bfA appParams) by (cbn; lra).
  assert (H3 : 0 <= bfB appParams) by (cbn; lra).
  assert (H4 : 0 <= bfScale appParams) by (cbn; lra).
  split; [exact H1 |]. split; [exact sampleRandom_unit |].
  repeat (split; [assumption |]).
  exact (proj1 (respawn_on_tilted_curve sampleRandom appParams 1 0.016 2400
                  dueParticle H1 sampleRandom_unit H2 H3 H4)).
Defined.
